(** * speed-racer-rl: a shallow embedding of the training engine

    The development follows the C++ sources:
    - [replay_buffer.h]   : module [ReplayBuffer];
    - [dqn.h]             : module [DQN];
    - [racing_trainer.cpp]: module [Trainer].
    The vocabulary of the statements and the data of the examples come
    next, then the lemmas and theorems.

    Numbers.  [int] values are integers of [Z]; conversions to [size_t]
    are written out with their wrap-around.  [float] and [double] values
    are read as exact rationals of [Q]: the properties below are about
    which value is stored, compared or combined with which, and none of
    them is a statement about rounding.

    Effects.  A method that mutates its object returns the object it
    leaves.  A call that throws, or whose behaviour the C++ standard
    leaves undefined, returns [None].  Loops over an episode are given as
    the list of states they pass through, or as a function that runs them
    to their end.

    Parameters.  The functions [cos], [sin] and [sqrtf], the track image,
    the random number generators, and the optimiser and automatic
    differentiation of libtorch are parameters of the sections that use
    them.  The training step of an episode takes its action as an input;
    the learning loop of [main] puts it together with the sensor encoder
    ([GetState], [CastLIDARRay]), the epsilon-greedy choice, the replay
    buffer and the learner, the values of [rand()] and the seed of each
    sample being its inputs.  The interrupt of [main] arrives when these
    inputs are used up.  Console output, the CSV files and the
    training-mode flag of the network, which has no effect on linear
    layers and ReLU, are left out. *)

From Stdlib Require Import ZArith QArith Qabs Qround Qpower Lia Lqa.
From stdpp Require Import base option list gmap strings.

Local Open Scope Z_scope.

(** ** C++ integer conversions *)

Definition INT_MAX : Z := 2 ^ 31 - 1.

(** Conversion of a (signed) [int] to the 64-bit [size_t]. *)
Definition to_size_t (n : Z) : Z := n mod 2 ^ 64.

(** [p < q] on [float] values. *)
Definition Qltb (p q : Q) : bool := negb (Qle_bool q p).

(** * replay_buffer.h *)

Module ReplayBuffer.

Record Experience := mkExperience {
  state : list Q;
  action : Z;
  reward : Q;
  next_state : list Q;
  done : bool
}.

(** [class ReplayBuffer]: the private fields [capacity_] and [buffer_]. *)
Record t := mk {
  capacity_ : Z;
  buffer_ : list Experience
}.

(** The constructor.  [buffer_.reserve(capacity)] converts its argument to
    [size_t]; a negative capacity becomes a length beyond [max_size()] and
    [reserve] throws [std::length_error]. *)
Definition new (capacity : Z) : option t :=
  if capacity <? 0 then None else Some (mk capacity []).

Definition size (rb : t) : Z := Z.of_nat (length (buffer_ rb)).

Definition can_sample (rb : t) (batch_size : Z) : bool :=
  to_size_t batch_size <=? Z.of_nat (length (buffer_ rb)).

(** [add].  The comparison [buffer_.size() >= capacity_] is made in
    [size_t].  [buffer_.erase(buffer_.begin())] on an empty vector has no
    defined behaviour: the model returns [None] there. *)
Definition add (rb : t) (state : list Q) (action : Z) (reward : Q)
    (next_state : list Q) (done : bool) : option t :=
  let e := mkExperience state action reward next_state done in
  if to_size_t (capacity_ rb) <=? Z.of_nat (length (buffer_ rb)) then
    match buffer_ rb with
    | [] => None
    | _ :: rest => Some (mk (capacity_ rb) (rest ++ [e]))
    end
  else Some (mk (capacity_ rb) (buffer_ rb ++ [e])).

Definition add_experience (rb : t) (e : Experience) : option t :=
  add rb (state e) (action e) (reward e) (next_state e) (done e).

(** A sequence of [add] calls, oldest first. *)
Fixpoint add_all (rb : t) (es : list Experience) : option t :=
  match es with
  | [] => Some rb
  | e :: es' => rb' ← add_experience rb e; add_all rb' es'
  end.

(** The five output vectors of [sample]. *)
Record Batch := mkBatch {
  states : list (list Q);
  actions : list Z;
  rewards : list Q;
  next_states : list (list Q);
  dones : list bool
}.

Definition clear : Batch := mkBatch [] [] [] [] [].

Definition push_back (b : Batch) (e : Experience) : Batch :=
  mkBatch (states b ++ [state e]) (actions b ++ [action e])
          (rewards b ++ [reward e]) (next_states b ++ [next_state e])
          (dones b ++ [done e]).

Section Sampling.
(** [std::mt19937]: the generator state and its raw output. *)
Variable Gen : Type.
Variable mt19937 : Gen → Z * Gen.

(** [std::uniform_int_distribution<>(a, b)]: the constructor requires
    [a <= b], and has no defined behaviour otherwise ([None]).  Of the
    distribution only its range [a..b] matters here: [dis(gen)] reduces the
    raw output of the generator into it. *)
Definition uniform_int_distribution (a b : Z) : option (Gen → Z * Gen) :=
  if b <? a then None
  else Some (λ g, let '(raw, g') := mt19937 g in (a + raw mod (b - a + 1), g')).

(** The body of the sampling loop, [n] iterations left.  [buffer_[idx]]
    outside the vector has no defined behaviour ([None]). *)
Fixpoint sample_loop (dis : Gen → Z * Gen) (n : nat)
    (buffer : list Experience) (g : Gen) (out : Batch)
    : option (Batch * Gen) :=
  match n with
  | O => Some (out, g)
  | S n' =>
      let '(idx, g') := dis g in
      if idx <? 0 then None else
      exp ← buffer !! Z.to_nat idx;
      sample_loop dis n' buffer g' (push_back out exp)
  end.

(** [sample].  The output vectors are passed by reference and cleared;
    [reserve] of a negative [batch_size] throws.  The distribution is
    constructed on [0 .. buffer_.size() - 1] before the loop, whatever
    [batch_size] is: on an empty buffer that is the range [0 .. -1].
    [seed] is the state of the generator seeded from
    [std::random_device].  The buffer is returned with the outputs, as the
    method is not [const]. *)
Definition sample (rb : t) (batch_size : Z) (out : Batch) (seed : Gen)
    : option (Batch * t) :=
  let out := clear in
  if batch_size <? 0 then None else
  dis ← uniform_int_distribution 0 (Z.of_nat (length (buffer_ rb)) - 1);
  '(out, _) ← sample_loop dis (Z.to_nat batch_size) (buffer_ rb) seed out;
  Some (out, rb).
End Sampling.

End ReplayBuffer.

(** * dqn.h *)

Module DQN.

(** ** Tensors

    A [torch::Tensor] is its sizes and its elements in row-major order. *)

Record Tensor (A : Type) := mkTensor {
  sizes : list nat;
  data : list A
}.
Arguments mkTensor {A} _ _.
Arguments sizes {A} _.
Arguments data {A} _.

Definition numel (sz : list nat) : nat := foldr Nat.mul 1%nat sz.

(** [torch::from_blob(ptr, sizes, dtype).clone()]: the first [numel]
    elements behind the pointer.  A negative size is refused by libtorch;
    reading past the end of the vector behind the pointer has no defined
    behaviour. *)
Definition from_blob {A} (blob : list A) (sz : list Z) : option (Tensor A) :=
  if forallb (λ n, 0 <=? n) sz then
    let sz' := Z.to_nat <$> sz in
    if decide (numel sz' ≤ length blob)%nat
    then Some (mkTensor sz' (take (numel sz') blob))
    else None
  else None.

(** The [B] rows of length [n] of row-major data. *)
Fixpoint rows_of {A} (B n : nat) (d : list A) : list (list A) :=
  match B with
  | O => []
  | S B' => take n d :: rows_of B' n (drop n d)
  end.

Definition dot (u v : list Q) : Q := foldr Qplus 0%Q (zip_with Qmult u v).

Definition tensor_map (f : Q → Q) (t : Tensor Q) : Tensor Q :=
  mkTensor (sizes t) (f <$> data t).

(** [torch::relu]. *)
Definition relu (x : Q) : Q := if Qltb 0 x then x else 0%Q.

(** [c * t] and [c - t] for a scalar [c]. *)
Definition scalar_mul (c : Q) (t : Tensor Q) : Tensor Q := tensor_map (Qmult c) t.
Definition scalar_sub (c : Q) (t : Tensor Q) : Tensor Q := tensor_map (Qminus c) t.

(** [a + b] and [a * b] on tensors of equal sizes (the only case used;
    other sizes are broadcast or refused by libtorch, and are left
    undefined here). *)
Definition tensor_zip (f : Q → Q → Q) (a b : Tensor Q) : option (Tensor Q) :=
  if decide (sizes a = sizes b)
  then Some (mkTensor (sizes a) (zip_with f (data a) (data b)))
  else None.
Definition tensor_add := tensor_zip Qplus.
Definition tensor_mul := tensor_zip Qmult.

(** [self.copy_(src)]: the elements of [src] written into [self]. *)
Definition copy_ (self src : Tensor Q) : option (Tensor Q) :=
  if decide (sizes self = sizes src)
  then Some (mkTensor (sizes self) (data src))
  else None.

(** [t.max(1, true)]: per row the maximum and the index of its first
    occurrence; an empty row is refused. *)
Fixpoint argmax_from (l : list Q) (i best_i : nat) (best : Q) : nat * Q :=
  match l with
  | [] => (best_i, best)
  | x :: l' =>
      if Qltb best x then argmax_from l' (S i) i x
      else argmax_from l' (S i) best_i best
  end.

Definition argmax (l : list Q) : option (nat * Q) :=
  match l with
  | [] => None
  | x :: l' => Some (argmax_from l' 1 0 x)
  end.

Definition max_dim1 (t : Tensor Q) : option (Tensor Q * Tensor Z) :=
  match sizes t with
  | [B; A] =>
      m ← mapM argmax (rows_of B A (data t));
      Some (mkTensor [B; 1%nat] (snd <$> m),
            mkTensor [B; 1%nat] ((λ p, Z.of_nat (fst p)) <$> m))
  | _ => None
  end.

(** [input.gather(1, index)] for an index of sizes [[B; 1]]:
    [out[i][0] = input[i][index[i][0]]]; an index outside the row is
    refused. *)
Definition gather_row (p : list Q * Z) : option Q :=
  if snd p <? 0 then None else fst p !! Z.to_nat (snd p).

Definition gather_dim1 (input : Tensor Q) (index : Tensor Z) : option (Tensor Q) :=
  match sizes input, sizes index with
  | [B; A], [B'; 1%nat] =>
      if decide (B' = B) then
        d ← mapM gather_row (zip (rows_of B A (data input)) (data index));
        Some (mkTensor [B; 1%nat] d)
      else None
  | _, _ => None
  end.

(** [torch::mse_loss(input, target)] with the default mean reduction. *)
Definition mse_loss (input target : Tensor Q) : option Q :=
  if decide (sizes input = sizes target) then
    Some (foldr Qplus 0 (zip_with (λ x y, (x - y) * (x - y)) (data input) (data target))
          / inject_Z (Z.of_nat (numel (sizes input))))%Q
  else None.

(** ** The network *)

(** [torch::nn::Linear(in, out)]: [weight] of sizes [[out; in]], [bias] of
    sizes [[out]]. *)
Record Linear := mkLinear {
  weight : Tensor Q;
  bias : Tensor Q
}.

(** One input row through a linear layer: [x W^T + b]. *)
Definition linear_row (W : list (list Q)) (b : list Q) (x : list Q) : list Q :=
  zip_with (λ w bj, (dot x w + bj)%Q) W b.

Definition Linear_rows (l : Linear) : list (list Q) :=
  match sizes (weight l) with
  | [out; inn] => rows_of out inn (data (weight l))
  | _ => []
  end.

Definition Linear_forward (l : Linear) (x : Tensor Q) : option (Tensor Q) :=
  match sizes x, sizes (weight l), sizes (bias l) with
  | [B; n], [out; inn], [out'] =>
      if decide (n = inn ∧ out = out') then
        Some (mkTensor [B; out]
                (concat (linear_row (Linear_rows l) (data (bias l))
                           <$> rows_of B n (data x))))
      else None
  | _, _, _ => None
  end.

(** [struct DQNNetImpl]. *)
Record DQNNet := mkDQNNet {
  fc1 : Linear;
  fc2 : Linear;
  fc3 : Linear
}.

(** [DQNNetImpl::forward]. *)
Definition forward (net : DQNNet) (x : Tensor Q) : option (Tensor Q) :=
  x ← Linear_forward (fc1 net) x;
  let x := tensor_map relu x in
  x ← Linear_forward (fc2 net) x;
  let x := tensor_map relu x in
  Linear_forward (fc3 net) x.

(** The sizes the constructor [DQNNetImpl(state_size, action_size)] gives
    to [fc1.weight], [fc1.bias], [fc2.weight], [fc2.bias], [fc3.weight]
    and [fc3.bias]. *)
Definition DQNNet_sizes (state_size action_size : Z) : list (list nat) :=
  [ [64; Z.to_nat state_size]; [64]; [64; 64]; [64];
    [Z.to_nat action_size; 64]; [Z.to_nat action_size] ]%nat.

(** [named_parameters()]: the ordered dictionary of the six parameter
    tensors.  Its entries alias the tensors of the module; a write through
    an entry is [set_parameter]. *)
Definition named_parameters (net : DQNNet) : list (string * Tensor Q) :=
  [ ("fc1.weight"%string, weight (fc1 net)); ("fc1.bias"%string, bias (fc1 net));
    ("fc2.weight"%string, weight (fc2 net)); ("fc2.bias"%string, bias (fc2 net));
    ("fc3.weight"%string, weight (fc3 net)); ("fc3.bias"%string, bias (fc3 net)) ].

(** [dict[key]]; a missing key is refused. *)
Fixpoint dict_lookup {A} (key : string) (d : list (string * A)) : option A :=
  match d with
  | [] => None
  | (k, v) :: d' => if String.eqb k key then Some v else dict_lookup key d'
  end.

Definition set_parameter (net : DQNNet) (key : string) (t : Tensor Q) : option DQNNet :=
  if String.eqb key "fc1.weight" then
    Some (mkDQNNet (mkLinear t (bias (fc1 net))) (fc2 net) (fc3 net))
  else if String.eqb key "fc1.bias" then
    Some (mkDQNNet (mkLinear (weight (fc1 net)) t) (fc2 net) (fc3 net))
  else if String.eqb key "fc2.weight" then
    Some (mkDQNNet (fc1 net) (mkLinear t (bias (fc2 net))) (fc3 net))
  else if String.eqb key "fc2.bias" then
    Some (mkDQNNet (fc1 net) (mkLinear (weight (fc2 net)) t) (fc3 net))
  else if String.eqb key "fc3.weight" then
    Some (mkDQNNet (fc1 net) (fc2 net) (mkLinear t (bias (fc3 net))))
  else if String.eqb key "fc3.bias" then
    Some (mkDQNNet (fc1 net) (fc2 net) (mkLinear (weight (fc3 net)) t))
  else None.

(** A loop [for (auto& param : source_params) body] over a dictionary,
    threading the module written to. *)
Definition for_each_param (body : DQNNet → string * Tensor Q → option DQNNet)
    (params : list (string * Tensor Q)) (net : DQNNet) : option DQNNet :=
  foldl (λ acc param, net ← acc; body net param) (Some net) params.

(** [DQN::copy_weights(source, target)]; returns the target written to. *)
Definition copy_weights (source target : DQNNet) : option DQNNet :=
  for_each_param
    (λ target param,
       t ← dict_lookup (fst param) (named_parameters target);
       t' ← copy_ t (snd param);
       set_parameter target (fst param) t')
    (named_parameters source) target.

(** ** Serialisation

    The file system maps a path to the archive written there.
    Modelled from the libtorch documentation: [torch::save(module, path)]
    writes the named parameters of the module, [torch::load(module, path)]
    sets each named parameter of the module to the archive entry of its
    name, and fails if the file or an entry is missing. *)
Abbreviation FileSystem := (gmap string (list (string * Tensor Q))).

Definition torch_save (net : DQNNet) (path : string) (fs : FileSystem) : FileSystem :=
  <[path := named_parameters net]> fs.

Definition torch_load (net : DQNNet) (path : string) (fs : FileSystem) : option DQNNet :=
  archive ← fs !! path;
  for_each_param
    (λ net param, t ← dict_lookup (fst param) archive; set_parameter net (fst param) t)
    (named_parameters net) net.

(** ** The learner *)

Section Learner.

(** The optimiser and automatic differentiation of libtorch: the state of
    [torch::optim::Adam] beside the learning rates, the gradient of the
    loss in the policy parameters, gradient clipping and the Adam step. *)
Variable AdamState : Type.
Variable adam_init : AdamState.
Variable backward :
  DQNNet → Tensor Q → Tensor Z → Tensor Q → list (string * Tensor Q).
Variable clip_grad_norm_ :
  list (string * Tensor Q) → Q → list (string * Tensor Q).
Variable adam_step :
  list Q → AdamState → DQNNet → list (string * Tensor Q) → DQNNet * AdamState.

(** [torch::optim::Adam]: the learning rate of each parameter group, and
    the rest of its state. *)
Record Adam := mkAdam {
  param_groups : list Q;
  adam_state : AdamState
}.

(** [class DQN]. *)
Record t := mk {
  state_size_ : Z;
  action_size_ : Z;
  gamma_ : Q;
  policy_net_ : DQNNet;
  target_net_ : DQNNet;
  optimizer_ : Adam;
  current_lr_ : Q
}.

(** The constructor; [policy_init] and [target_init] are the two freshly
    initialised modules [DQNNet(state_size_, action_size_)]. *)
Definition new (state_size action_size : Z) (learning_rate gamma : Q)
    (policy_init target_init : DQNNet) : option t :=
  target ← copy_weights policy_init target_init;
  Some (mk state_size action_size gamma policy_init target
           (mkAdam [learning_rate] adam_init) learning_rate).

Definition set_learning_rate (d : t) (new_lr : Q) : t :=
  mk (state_size_ d) (action_size_ d) (gamma_ d) (policy_net_ d) (target_net_ d)
     (mkAdam ((λ _, new_lr) <$> param_groups (optimizer_ d))
             (adam_state (optimizer_ d)))
     new_lr.

Definition get_learning_rate (d : t) : Q := current_lr_ d.

Definition with_target (d : t) (target : DQNNet) : t :=
  mk (state_size_ d) (action_size_ d) (gamma_ d) (policy_net_ d) target
     (optimizer_ d) (current_lr_ d).

(** [soft_update_target(tau)]. *)
Definition soft_update_target (d : t) (tau : Q) : option t :=
  target ←
    for_each_param
      (λ target_net param,
         target ← dict_lookup (fst param) (named_parameters target_net);
         blend ← tensor_add (scalar_mul tau (snd param))
                            (scalar_mul (1 - tau)%Q target);
         target' ← copy_ target blend;
         set_parameter target_net (fst param) target')
      (named_parameters (policy_net_ d)) (target_net_ d);
  Some (with_target d target).

(** [predict].  A state of another length than [state_size_] is reported
    and passed on to the network all the same. *)
Definition predict (d : t) (state : list Q) : option (list Q) :=
  state_tensor ← from_blob state [1; Z.of_nat (length state)];
  q_values ← forward (policy_net_ d) state_tensor;
  if action_size_ d <? 0 then None else
  if decide (Z.to_nat (action_size_ d) ≤ length (data q_values))%nat
  then Some (take (Z.to_nat (action_size_ d)) (data q_values))
  else None.

Definition float_of_bool (b : bool) : Q := if b then 1%Q else 0%Q.

(** The Double-DQN target of [train]: lines "Double DQN target" to
    [target_q]. *)
Definition double_dqn_target (d : t) (rewards_tensor next_states_tensor
    dones_tensor : Tensor Q) : option (Tensor Q) :=
  next_q_policy ← forward (policy_net_ d) next_states_tensor;
  '(_, next_actions) ← max_dim1 next_q_policy;
  next_q_target ← forward (target_net_ d) next_states_tensor;
  next_q ← gather_dim1 next_q_target next_actions;
  prod ← tensor_mul (scalar_mul (gamma_ d) next_q) (scalar_sub 1%Q dones_tensor);
  tensor_add rewards_tensor prod.

(** [train]. *)
Definition train (d : t) (states : list (list Q)) (actions : list Z)
    (rewards : list Q) (next_states : list (list Q)) (dones : list bool)
    (batch_size : Z) : option (Q * t) :=
  states_tensor ← from_blob (concat states) [batch_size; state_size_ d];
  actions_tensor ← from_blob actions [batch_size; 1];
  rewards_tensor ← from_blob rewards [batch_size; 1];
  next_states_tensor ← from_blob (concat next_states) [batch_size; state_size_ d];
  dones_tensor ← from_blob (float_of_bool <$> dones) [batch_size; 1];
  q ← forward (policy_net_ d) states_tensor;
  current_q ← gather_dim1 q actions_tensor;
  target_q ← double_dqn_target d rewards_tensor next_states_tensor dones_tensor;
  loss ← mse_loss current_q target_q;
  let grads :=
    clip_grad_norm_
      (backward (policy_net_ d) states_tensor actions_tensor target_q) 1%Q in
  let '(policy, st) :=
    adam_step (param_groups (optimizer_ d)) (adam_state (optimizer_ d))
              (policy_net_ d) grads in
  let d1 :=
    mk (state_size_ d) (action_size_ d) (gamma_ d) policy (target_net_ d)
       (mkAdam (param_groups (optimizer_ d)) st) (current_lr_ d) in
  d2 ← soft_update_target d1 0.005%Q;
  Some (loss, d2).

(** [update_target_network]. *)
Definition update_target_network (d : t) : option t :=
  target ← copy_weights (policy_net_ d) (target_net_ d);
  Some (with_target d target).

(** [save_model] and [load_model]. *)
Definition save_model (d : t) (path : string) (fs : FileSystem) : FileSystem :=
  torch_save (policy_net_ d) path fs.

Definition load_model (d : t) (path : string) (fs : FileSystem) : option t :=
  policy ← torch_load (policy_net_ d) path fs;
  target ← copy_weights policy (target_net_ d);
  Some (mk (state_size_ d) (action_size_ d) (gamma_ d) policy target
           (optimizer_ d) (current_lr_ d)).

End Learner.

End DQN.

(** * racing_trainer.cpp *)

Module Trainer.

(** ** raylib data *)

Record Vector2 := mkVector2 { x : Q; y : Q }.

(** [Color]: the channels are [unsigned char]. *)
Record Color := mkColor { r : Z; g : Z; b : Z; a : Z }.

(** [Image]: its width and height; the pixel array is read through
    [GetImageColor(image, x, y)]. *)
Record Image := mkImage {
  width : Z;
  height : Z;
  GetImageColor : Z → Z → Color
}.

(** The conversion [(int)f] of a [float]: truncation toward zero. *)
Definition int_of_float (f : Q) : Z := Z.quot (Qnum f) (Z.pos (Qden f)).

(** ** Track helpers *)

Definition IsWall (color : Color) : bool :=
  (r color =? 15) && (g color =? 15) && (b color =? 15).
Definition IsTrack (color : Color) : bool :=
  (r color =? 35) && (g color =? 35) && (b color =? 35).
Definition IsGrass (color : Color) : bool :=
  (r color =? 34) && (g color =? 177) && (b color =? 76).

Definition GetFrictionMultiplier (color : Color) : Q :=
  if IsWall color then 999%Q
  else if IsGrass color then 3%Q
  else if IsTrack color then 1%Q
  else 1%Q.

Record Checkpoint := mkCheckpoint {
  start : Vector2;
  end_ : Vector2;
  crossed : bool
}.

(** [Checkpoint::CheckCrossing]. *)
Definition CheckCrossing (cp : Checkpoint) (prevPos currentPos : Vector2) : bool :=
  let x1 := x prevPos in let y1 := y prevPos in
  let x2 := x currentPos in let y2 := y currentPos in
  let x3 := x (start cp) in let y3 := y (start cp) in
  let x4 := x (end_ cp) in let y4 := y (end_ cp) in
  let denom := ((x1 - x2) * (y3 - y4) - (y1 - y2) * (x3 - x4))%Q in
  if Qltb (Qabs denom) 0.001%Q then false else
  let t := (((x1 - x3) * (y3 - y4) - (y1 - y3) * (x3 - x4)) / denom)%Q in
  let u := (- ((x1 - x2) * (y1 - y3) - (y1 - y2) * (x1 - x3)) / denom)%Q in
  Qle_bool 0 t && Qle_bool t 1 && Qle_bool 0 u && Qle_bool u 1.

Definition set_crossed_flag (v : bool) (cp : Checkpoint) : Checkpoint :=
  mkCheckpoint (start cp) (end_ cp) v.

(** [checkpointsTemplate] of [main]. *)
Definition checkpointsTemplate : list Checkpoint :=
  [ mkCheckpoint (mkVector2 450 35) (mkVector2 450 150) false;
    mkCheckpoint (mkVector2 719 260) (mkVector2 850 260) false;
    mkCheckpoint (mkVector2 850 665) (mkVector2 723 665) false;
    mkCheckpoint (mkVector2 523 482) (mkVector2 625 517) false;
    mkCheckpoint (mkVector2 409 438) (mkVector2 295 413) false;
    mkCheckpoint (mkVector2 160 730) (mkVector2 220 815) false;
    mkCheckpoint (mkVector2 138 600) (mkVector2 49 600) false;
    mkCheckpoint (mkVector2 138 205) (mkVector2 49 205) false ]%Q.

(** ** Constants *)

Definition MAX_SPEED : Q := 300.
Definition ACCELERATION : Q := 150.
Definition FRICTION : Q := 50.
Definition TURN_SPEED_BASE : Q := 3.
Definition TURN_SPEED_FACTOR : Q := 0.3.
Definition DT : Q := 1 / 60.
Definition max_steps : Z := 7500.
Definition totalLaps : Z := 3.

(** raylib's [PI], and the constants of [GetState]. *)
Definition PI : Q := 3.14159265358979323846.
Definition LIDAR_RANGE : Q := 200.
Definition REFERENCE_DIST : Q := 50.
Definition LONG_RANGE : Q := 900.

Definition angleOffsets : list Q :=
  [ - PI / 2; - 5 * PI / 12; - PI / 3; - PI / 4; - PI / 6; - PI / 12; 0;
    PI / 12; PI / 6; PI / 4; PI / 3; 5 * PI / 12; PI / 2 ]%Q.

Definition anticipateOffsets : list Q :=
  [ - PI / 6; - PI / 12; 0; PI / 12; PI / 6 ]%Q.

(** [std::min(a, b)]: [b] if it is smaller, else [a]. *)
Definition std_min (a b : Q) : Q := if Qltb b a then b else a.

(** ** The vehicle *)

Record Vehicle := mkVehicle {
  position : Vector2;
  velocity : Vector2;
  angle : Q;
  speed : Q
}.

Definition vehicle_reset : Vehicle :=
  mkVehicle (mkVector2 430 92) (mkVector2 0 0) 0 0.

(** The [switch (action)]: acceleration and steering input. *)
Definition action_inputs (action : Z) : Q * Q :=
  match action with
  | 0 => (1, 0)%Q
  | 1 => (-0.4, 0)%Q
  | 2 => (0, -1)%Q
  | 3 => (0, 1)%Q
  | 4 => (1, -1)%Q
  | 5 => (1, 1)%Q
  | _ => (0, 0)%Q
  end.

Definition in_image (image : Image) (px py : Z) : bool :=
  (0 <=? px) && (px <? width image) && (0 <=? py) && (py <? height image).

Definition surface_friction (image : Image) (pos : Vector2) : Q :=
  let checkPixelX := int_of_float (x pos) in
  let checkPixelY := int_of_float (y pos) in
  if in_image image checkPixelX checkPixelY
  then GetFrictionMultiplier (GetImageColor image checkPixelX checkPixelY)
  else 1%Q.

(** The friction term: the speed decays toward zero and stops there. *)
Definition apply_friction (speed frictionToApply dt : Q) : Q :=
  if Qltb 0 speed then
    let s := (speed - frictionToApply * dt)%Q in
    if Qltb s 0 then 0%Q else s
  else if Qltb speed 0 then
    let s := (speed + frictionToApply * dt)%Q in
    if Qltb 0 s then 0%Q else s
  else speed.

(** The per-surface clamp. *)
Definition clamp_speed (speed maxSpeedOnSurface : Q) : Q :=
  let s := if Qltb maxSpeedOnSurface speed then maxSpeedOnSurface else speed in
  if Qltb s (- maxSpeedOnSurface * 0.5)%Q
  then (- maxSpeedOnSurface * 0.5)%Q else s.

Section Simulation.

(** [cos], [sin] and [sqrtf] of the C library, and the track image. *)
Variable cos sin sqrtf : Q → Q.
Variable trackImage : Image.

(** ** Sensors *)

(** The [while] loop of [CastLIDARRay] from the given [distance], with
    [fuel] tests of its condition left; [None] when they are used up
    before the function returns. *)
Fixpoint CastLIDARRay_loop (fuel : nat) (position : Vector2)
    (angle maxDistance distance : Q) : option Q :=
  match fuel with
  | O => None
  | S fuel' =>
      if Qltb distance maxDistance then
        let checkX := (x position + cos angle * distance)%Q in
        let checkY := (y position + sin angle * distance)%Q in
        let pixelX := int_of_float checkX in
        let pixelY := int_of_float checkY in
        if negb (in_image trackImage pixelX pixelY) then Some distance
        else if IsWall (GetImageColor trackImage pixelX pixelY)
        then Some distance
        else CastLIDARRay_loop fuel' position angle maxDistance (distance + 2)%Q
      else Some maxDistance
  end.

(** [CastLIDARRay].  The distance grows by the step [2] from [0] while it
    is below [maxDistance]: the condition is tested at most
    [ceil(maxDistance / 2) + 1] times. *)
Definition CastLIDARRay (position : Vector2) (angle maxDistance : Q)
    : option Q :=
  CastLIDARRay_loop (S (Z.to_nat (Qceiling (maxDistance / 2)))) position
    angle maxDistance 0.

(** [GetState]: five base features, thirteen short-range danger values
    and five long-range distances, in this order. *)
Definition GetState (position : Vector2) (angle speed : Q)
    : option (list Q) :=
  let state :=
    [ (speed / MAX_SPEED)%Q; sin angle; cos angle;
      (x position / inject_Z (width trackImage))%Q;
      (y position / inject_Z (height trackImage))%Q ] in
  short ←
    mapM (λ offset,
            d ← CastLIDARRay position (angle + offset)%Q LIDAR_RANGE;
            let danger := (1 / (d / REFERENCE_DIST + 0.1))%Q in
            Some (std_min 1 danger))
         angleOffsets;
  long ←
    mapM (λ offset,
            d ← CastLIDARRay position (angle + offset)%Q LONG_RANGE;
            let norm := (d / LONG_RANGE)%Q in
            let norm := if Qltb norm 0 then 0%Q else norm in
            let norm := if Qltb 1 norm then 1%Q else norm in
            Some norm)
         anticipateOffsets;
  Some (state ++ short ++ long).

(** What one pass through the physics of the loop body leaves: the
    vehicle, whether it hit a wall, and the friction of the surface it
    started on. *)
Record Physics := mkPhysics {
  vehicle : Vehicle;
  hitWall : bool;
  surfaceFriction : Q
}.

(** The physics of one step, from the [switch] to the wall bounce; the
    copy in [EvaluateGreedy] and the copy in [main] are the same
    statements, [dt] being [DT] in both calls. *)
Definition physics_step (dt : Q) (action : Z) (v : Vehicle) : Physics :=
  let prevPosition := position v in
  let '(accelerationInput, steeringInput) := action_inputs action in
  let surfaceFriction := surface_friction trackImage (position v) in
  let speed := (speed v + accelerationInput * ACCELERATION * dt)%Q in
  let frictionToApply :=
    if Qeq_bool accelerationInput 0 then (FRICTION * surfaceFriction)%Q
    else FRICTION in
  let speed := apply_friction speed frictionToApply dt in
  let maxSpeedOnSurface :=
    if Qltb 2 surfaceFriction then (MAX_SPEED * 0.5)%Q else MAX_SPEED in
  let speed := clamp_speed speed maxSpeedOnSurface in
  let speedFactor :=
    (1 / (1 + Qabs speed / MAX_SPEED * TURN_SPEED_FACTOR))%Q in
  let turnRate := (TURN_SPEED_BASE * speedFactor)%Q in
  let angle :=
    if Qltb 1 (Qabs speed)
    then (angle v + steeringInput * turnRate * dt * (speed / Qabs speed))%Q
    else angle v in
  let velocity := mkVector2 (cos angle * speed) (sin angle * speed) in
  let position :=
    mkVector2 (x (position v) + x velocity * dt) (y (position v) + y velocity * dt) in
  let pixelX := int_of_float (x position) in
  let pixelY := int_of_float (y position) in
  let hit :=
    if in_image trackImage pixelX pixelY
    then IsWall (GetImageColor trackImage pixelX pixelY)
    else true in
  if hit then
    mkPhysics (mkVehicle prevPosition velocity angle (speed * -0.3)%Q)
              true surfaceFriction
  else
    mkPhysics (mkVehicle position velocity angle speed) false surfaceFriction.

(** ** The checkpoint and lap state machine *)

Record Race := mkRace {
  checkpoints : list Checkpoint;
  currentLap : Z;
  nextCheckpoint : Z;
  raceFinished : bool
}.

Definition race_reset (checkpointsTemplate : list Checkpoint) : Race :=
  mkRace (set_crossed_flag false <$> checkpointsTemplate) (-1) 0 false.

(** The block runs assignment by assignment on the race variables and,
    in the training loop, the local [reward]. *)
Definition Stmt : Type := Race * Q → Race * Q.

(** [checkpoints[i].crossed = v]. *)
Definition set_crossed (i : nat) (v : bool) : Stmt :=
  λ s, (mkRace (alter (set_crossed_flag v) i (checkpoints (fst s)))
               (currentLap (fst s)) (nextCheckpoint (fst s))
               (raceFinished (fst s)), snd s).

Definition set_currentLap (f : Z → Z) : Stmt :=
  λ s, (mkRace (checkpoints (fst s)) (f (currentLap (fst s)))
               (nextCheckpoint (fst s)) (raceFinished (fst s)), snd s).

Definition set_nextCheckpoint (f : Race → Z) : Stmt :=
  λ s, (mkRace (checkpoints (fst s)) (currentLap (fst s)) (f (fst s))
               (raceFinished (fst s)), snd s).

Definition add_reward (q : Q) : Stmt := λ s, (fst s, (snd s + q)%Q).

(** [reward += q] is in the training loop only. *)
Definition reward_stmt (training : bool) (q : Q) : list Stmt :=
  if training then [add_reward q] else [].

(** [if (currentLap >= totalLaps) { raceFinished = true; reward += 500; }]. *)
Definition finish_check (training : bool) : Stmt :=
  λ s, if totalLaps <=? currentLap (fst s) then
         (mkRace (checkpoints (fst s)) (currentLap (fst s))
                 (nextCheckpoint (fst s)) true,
          if training then (snd s + 500)%Q else snd s)
       else s.

(** [for (auto& c : checkpoints) c.crossed = false;]. *)
Definition reset_crossed (n : nat) : list Stmt :=
  (λ i, set_crossed i false) <$> seq 0 n.

(** The statements the block executes from the given race variables,
    in order.  [cp] is a reference to [checkpoints[nextCheckpoint]], bound
    on entry; an index outside the vector has no defined behaviour.
    [training] tells the copy of [main], which has the reward lines, from
    the copy of [EvaluateGreedy], which has not. *)
Definition checkpoint_block (training : bool) (race : Race)
    (prevPosition position : Vector2) : option (list Stmt) :=
  if nextCheckpoint race <? 0 then None else
  let idx := Z.to_nat (nextCheckpoint race) in
  cp ← checkpoints race !! idx;
  Some
    (if CheckCrossing cp prevPosition position then
       if nextCheckpoint race =? 0 then
         if 0 <? currentLap race then
           if forallb crossed (drop 1 (checkpoints race)) then
             [set_crossed idx true] ++ reward_stmt training 50
             ++ [set_currentLap (λ lap, lap + 1)] ++ reward_stmt training 200
             ++ reset_crossed (length (checkpoints race))
             ++ [set_nextCheckpoint (λ _, 1); finish_check training]
           else [set_crossed idx false]
         else
           [set_currentLap (λ _, 1); set_crossed idx false;
            set_nextCheckpoint (λ _, 1)]
       else
         if (0 <? currentLap race) && negb (nextCheckpoint race =? 0) then
           [set_crossed idx true] ++ reward_stmt training 50
           ++ [set_nextCheckpoint
                 (λ race, Z.rem (nextCheckpoint race + 1)
                            (Z.of_nat (length (checkpoints race))))]
         else [set_crossed idx false]
     else []).

(** The states after each statement, and the state after the last. *)
Fixpoint exec_trace (stmts : list Stmt) (s : Race * Q) : list (Race * Q) :=
  match stmts with
  | [] => []
  | f :: rest => f s :: exec_trace rest (f s)
  end.

Definition exec (stmts : list Stmt) (s : Race * Q) : Race * Q :=
  foldl (λ s f, f s) s stmts.

(** ** The evaluation loop of [EvaluateGreedy] *)

Record EvalEpisode := mkEvalEpisode {
  eval_vehicle : Vehicle;
  eval_race : Race;
  wallHits : Z;
  grassFrames : Z;
  steps : Z
}.

Definition eval_reset (checkpointsTemplate : list Checkpoint) : EvalEpisode :=
  mkEvalEpisode vehicle_reset (race_reset checkpointsTemplate) 0 0 0.

(** One iteration of the [while] loop; [action] is the greedy action. *)
Definition eval_step (dt : Q) (e : EvalEpisode) (action : Z) : option EvalEpisode :=
  let prevPosition := position (eval_vehicle e) in
  let ph := physics_step dt action (eval_vehicle e) in
  let grassFrames :=
    if Qltb 2 (surfaceFriction ph) then grassFrames e + 1 else grassFrames e in
  let wallHits := if hitWall ph then wallHits e + 1 else wallHits e in
  stmts ← checkpoint_block false (eval_race e) prevPosition
             (position (vehicle ph));
  Some (mkEvalEpisode (vehicle ph) (fst (exec stmts (eval_race e, 0%Q)))
                      wallHits grassFrames (steps e + 1)).

(** The states after each iteration of
    [while (!raceFinished && steps < max_steps)]; [actions] are the greedy
    actions of the successive iterations. *)
Fixpoint eval_trace (dt : Q) (max_steps : Z) (actions : list Z)
    (e : EvalEpisode) : list EvalEpisode :=
  match actions with
  | [] => []
  | action :: rest =>
      if raceFinished (eval_race e) || (max_steps <=? steps e) then []
      else match eval_step dt e action with
           | None => []
           | Some e' => e' :: eval_trace dt max_steps rest e'
           end
  end.

(** ** The training loop of [main] *)

Record TrainEpisode := mkTrainEpisode {
  train_vehicle : Vehicle;
  train_race : Race;
  episode_reward : Q;
  episode_steps : Z;
  stuckCounter : Z;
  lastCheckPosition : Vector2;
  idleCounter : Z
}.

Definition train_reset (checkpointsTemplate : list Checkpoint) : TrainEpisode :=
  mkTrainEpisode vehicle_reset (race_reset checkpointsTemplate) 0 0 0
                 (position vehicle_reset) 0.

Definition V_IDLE : Q := 8.
Definition IDLE_GRACE_FRAMES : Z := 30.
Definition IDLE_PENALTY : Q := 0.02.
Definition STUCK_CHECK_INTERVAL : Z := 75.
Definition STUCK_DIST_THRESHOLD : Q := 30.
Definition STUCK_STRIKES_MAX : Z := 3.
Definition STUCK_BREAK_PENALTY : Q := 50.

(** [DistToCheckpointMid]. *)
Definition DistToCheckpointMid (checkpoints : list Checkpoint) (cpIndex : Z)
    (p : Vector2) : option Q :=
  if cpIndex <? 0 then None else
  cp ← checkpoints !! Z.to_nat cpIndex;
  let mid := mkVector2 ((x (start cp) + x (end_ cp)) * 0.5)
                       ((y (start cp) + y (end_ cp)) * 0.5) in
  let dx := (x mid - x p)%Q in
  let dy := (y mid - y p)%Q in
  Some (sqrtf (dx * dx + dy * dy)).

(** The stuck detector at the head of the loop body: [None] when it
    breaks out of the loop, else the counter and the check position. *)
Definition stuck_check (e : TrainEpisode) : option (Z * Vector2) :=
  if (Z.rem (episode_steps e) STUCK_CHECK_INTERVAL =? 0)
     && (0 <? episode_steps e) then
    let dx := (x (position (train_vehicle e)) - x (lastCheckPosition e))%Q in
    let dy := (y (position (train_vehicle e)) - y (lastCheckPosition e))%Q in
    let distMoved := sqrtf (dx * dx + dy * dy) in
    if Qltb distMoved STUCK_DIST_THRESHOLD then
      if STUCK_STRIKES_MAX <=? stuckCounter e + 1 then None
      else Some (stuckCounter e + 1, position (train_vehicle e))
    else Some (0, position (train_vehicle e))
  else Some (stuckCounter e, lastCheckPosition e).

(** How an iteration of the training loop ends. *)
Inductive LoopExit := Continue | Break.

(** One iteration of the [while] loop of an episode; [action] is the
    action the epsilon-greedy choice selected.  The result carries the
    [reward] and [done] stored in the replay buffer. *)
Definition train_step (e : TrainEpisode) (action : Z)
    : option (TrainEpisode * LoopExit) :=
  let prevPosition := position (train_vehicle e) in
  match stuck_check e with
  | None =>
      Some (mkTrainEpisode (train_vehicle e) (train_race e)
              (episode_reward e - STUCK_BREAK_PENALTY)%Q (episode_steps e)
              (stuckCounter e + 1) (lastCheckPosition e) (idleCounter e),
            Break)
  | Some (stuckCounter, lastCheckPosition) =>
      let ph := physics_step DT action (train_vehicle e) in
      let position := position (vehicle ph) in
      let speed := speed (vehicle ph) in
      let race := train_race e in
      distToNextCP ← DistToCheckpointMid (checkpoints race) (nextCheckpoint race) position;
      prevDistToNextCP ← DistToCheckpointMid (checkpoints race) (nextCheckpoint race) prevPosition;
      let progress := (prevDistToNextCP - distToNextCP)%Q in
      let reward := (0 + progress * 0.1)%Q in
      let reward :=
        if Qltb 0 progress then (reward + Qabs speed * DT * 0.0075)%Q else reward in
      let reward := if hitWall ph then (reward - 10)%Q else reward in
      let reward :=
        if Qltb 2 (surfaceFriction ph) then (reward - 2 * DT)%Q else reward in
      let reward := (reward - 0.005)%Q in
      let idle := Qltb (Qabs speed) V_IDLE && Qle_bool progress 0 in
      let idleCounter := if idle then idleCounter e + 1 else 0 in
      let reward :=
        if idle && (IDLE_GRACE_FRAMES <? idleCounter)
        then (reward - IDLE_PENALTY)%Q else reward in
      stmts ← checkpoint_block true race prevPosition position;
      let '(race, reward) := exec stmts (race, reward) in
      finishLine ← checkpoints race !! 0%nat;
      let reward :=
        if negb (nextCheckpoint race =? 0)
           && CheckCrossing finishLine prevPosition position
        then (reward - 10)%Q else reward in
      let episode_steps := episode_steps e + 1 in
      let done := raceFinished race || (max_steps <=? episode_steps) in
      Some (mkTrainEpisode (vehicle ph) race (episode_reward e + reward)%Q
              episode_steps stuckCounter lastCheckPosition idleCounter,
            if done then Break else Continue)
  end.

(** The states after each iteration of
    [while (!raceFinished && episode_steps < max_steps && !interrupted)];
    [actions] are the actions of the successive iterations, and the
    interrupt arrives when they are used up. *)
Fixpoint train_trace (actions : list Z) (e : TrainEpisode) : list TrainEpisode :=
  match actions with
  | [] => []
  | action :: rest =>
      if raceFinished (train_race e) || (max_steps <=? episode_steps e) then []
      else match train_step e action with
           | None => []
           | Some (e', Break) => [e']
           | Some (e', Continue) => e' :: train_trace rest e'
           end
  end.

(** ** Greedy evaluation: [EvaluateGreedy] *)

Record EvalResult := mkEvalResult {
  episodes : Z;
  finishes : Z;
  finish_rate : Q;
  avg_laps : Q;
  avg_steps_finish : Q;
  avg_steps_all : Q;
  avg_wall_hits : Q;
  avg_grass_frames : Q;
  avg_score : Q
}.

Definition FINISH_BONUS : Q := 100000.
Definition STEP_PENALTY : Q := 1.
Definition WALL_HIT_PENALTY : Q := 200.
Definition GRASS_PENALTY : Q := 50.

(** The score of one finished evaluation episode. *)
Definition episode_score (e : EvalEpisode) : Q :=
  let score := 0%Q in
  let score :=
    if raceFinished (eval_race e) then (score + FINISH_BONUS)%Q else score in
  let score := (score - inject_Z (steps e) * STEP_PENALTY)%Q in
  let score := (score - inject_Z (wallHits e) * WALL_HIT_PENALTY)%Q in
  (score - inject_Z (grassFrames e) * GRASS_PENALTY)%Q.

Definition sumZ (l : list Z) : Z := foldr Z.add 0 l.
Definition sumQ (l : list Q) : Q := foldr Qplus 0%Q l.

Definition average (sum : Q) (n : Z) : Q :=
  if 0 <? n then (sum / inject_Z n)%Q else 0%Q.

(** The sums over the episodes and the averages returned. *)
Definition aggregate (evalEpisodes : Z) (finals : list EvalEpisode) : EvalResult :=
  let finished := filter (λ e, raceFinished (eval_race e) = true) finals in
  let finishedCount := Z.of_nat (length finished) in
  mkEvalResult evalEpisodes finishedCount
    (average (inject_Z finishedCount) evalEpisodes)
    (average (inject_Z (sumZ ((λ e, currentLap (eval_race e)) <$> finals))) evalEpisodes)
    (average (inject_Z (sumZ (steps <$> finished))) finishedCount)
    (average (inject_Z (sumZ (steps <$> finals))) evalEpisodes)
    (average (inject_Z (sumZ (wallHits <$> finals))) evalEpisodes)
    (average (inject_Z (sumZ (grassFrames <$> finals))) evalEpisodes)
    (average (sumQ (episode_score <$> finals)) evalEpisodes).

Section Greedy.

(** The greedy action of the frozen policy at the vehicle's observation:
    the arg-max of [dqn.predict(GetState(trackImage, position, angle,
    speed))]. *)
Variable greedy_action : Vehicle → Z.

(** The [while] loop of one evaluation episode; it makes at most
    [max_steps] iterations. *)
Fixpoint eval_loop (fuel : nat) (dt : Q) (max_steps : Z) (e : EvalEpisode)
    : option EvalEpisode :=
  match fuel with
  | O => Some e
  | S fuel' =>
      if raceFinished (eval_race e) || (max_steps <=? steps e) then Some e
      else e' ← eval_step dt e (greedy_action (eval_vehicle e));
           eval_loop fuel' dt max_steps e'
  end.

Definition EvaluateGreedy (checkpointsTemplate : list Checkpoint)
    (evalEpisodes max_steps : Z) (dt : Q) : option EvalResult :=
  finals ← mapM (λ _, eval_loop (Z.to_nat max_steps) dt max_steps
                        (eval_reset checkpointsTemplate))
                (seq 0 (Z.to_nat evalEpisodes));
  Some (aggregate evalEpisodes finals).

End Greedy.

End Simulation.

(** ** Best-model selection at a milestone *)

Record BestRecords := mkBestRecords {
  best_finish_rate : Q;
  best_time_avg_steps_finish : Q;
  best_score : Q
}.

Definition best_init : BestRecords := mkBestRecords (-1) 1e18 (-1e18).

Definition EVAL_EPISODES : Z := 20.
Definition FINISH_RATE_MIN_IMPROVEMENT : Z := 2.
Definition SCORE_MIN_IMPROVEMENT : Q := 500.

(** [std::round]: to the nearest integer, halves away from zero. *)
Definition round (q : Q) : Z :=
  if Qle_bool 0 q then Qfloor (q + 0.5)%Q else Qceiling (q - 0.5)%Q.

Definition save_finish_rate (best : BestRecords) (eval : EvalResult) : bool :=
  let best_finishes_int :=
    round (best_finish_rate best * inject_Z EVAL_EPISODES) in
  if Qltb (best_finish_rate best) 0 then true
  else if best_finishes_int + FINISH_RATE_MIN_IMPROVEMENT <=? finishes eval then true
  else if Qltb (best_finish_rate best) (finish_rate eval)
          && (best_finishes_int <? finishes eval) then true
  else false.

Definition save_time (best : BestRecords) (eval : EvalResult) : bool :=
  if 0 <? finishes eval then
    if Qle_bool 1e17 (best_time_avg_steps_finish best) then true
    else if Qltb (avg_steps_finish eval + 50) (best_time_avg_steps_finish best)
    then true else false
  else false.

Definition save_score (best : BestRecords) (eval : EvalResult) : bool :=
  if Qle_bool (best_score best) (-1e17) then true
  else if Qltb (best_score best + SCORE_MIN_IMPROVEMENT) (avg_score eval) then true
  else if Qltb (best_score best) (avg_score eval)
          && Qltb (best_finish_rate best) (finish_rate eval) then true
  else false.

(** What the selection of one milestone decides: which of the three
    snapshots are written. *)
Record Saved := mkSaved {
  saved_finish_rate : bool;
  saved_time : bool;
  saved_score : bool
}.

(** The three acceptance blocks of a milestone, in the order of the
    source; each reads the records as the blocks before it left them. *)
Definition select_best (best : BestRecords) (eval : EvalResult)
    : BestRecords * Saved :=
  let sfr := save_finish_rate best eval in
  let best :=
    if sfr then mkBestRecords (finish_rate eval)
                  (best_time_avg_steps_finish best) (best_score best)
    else best in
  let st := save_time best eval in
  let best :=
    if st then mkBestRecords (best_finish_rate best) (avg_steps_finish eval)
                (best_score best)
    else best in
  let ss := save_score best eval in
  let best :=
    if ss then mkBestRecords (best_finish_rate best)
                (best_time_avg_steps_finish best) (avg_score eval)
    else best in
  (best, mkSaved sfr st ss).

(** ** The orchestrator *)

Record TrainingStats := mkTrainingStats {
  episode_rewards : list Q;
  episode_lengths : list Z;
  episode_losses : list Q;
  episode_laps : list Z;
  episode_finishes : list Z
}.

Definition LEARNING_RATE : Q := 0.001.
Definition GAMMA : Q := 0.99.
Definition EPSILON_START : Q := 1.
Definition EPSILON_END : Q := 0.005.
Definition EPSILON_DECAY : Q := 0.995.
Definition STATE_SIZE : Z := 23.
Definition ACTION_SIZE : Z := 7.
Definition BATCH_SIZE : Z := 32.
Definition REPLAY_BUFFER_SIZE : Z := 50000.
Definition WARMUP_EPISODES : Z := 5.
Definition TRAIN_EVERY_N_STEPS : Z := 3.

(** ** The choice of an action *)

(** [std::max_element(v.begin(), v.end()) - v.begin()]: the index of the
    first greatest element; [0] on an empty vector, where [max_element]
    returns [end()]. *)
Definition max_element_index (v : list Q) : Z :=
  match v with
  | [] => 0
  | x :: v' => Z.of_nat (fst (DQN.argmax_from v' 1 0 x))
  end.

Section ActionChoice.

Variable AdamState : Type.

(** [RAND_MAX] of the C library. *)
Variable RAND_MAX : Z.

(** The greedy action: the arg-max of [dqn.predict(state)]. *)
Definition greedy_choice (d : DQN.t AdamState) (state : list Q) : option Z :=
  q_values ← DQN.predict AdamState d state;
  Some (max_element_index q_values).

(** The epsilon-greedy choice of [main]; [r1] and [r2] are the values of
    the two calls of [rand()], the second made only to explore. *)
Definition choose_action (d : DQN.t AdamState) (epsilon : Q) (r1 r2 : Z)
    (state : list Q) : option Z :=
  if Qltb (inject_Z r1 / inject_Z RAND_MAX)%Q epsilon
  then Some (Z.rem r2 ACTION_SIZE)
  else greedy_choice d state.

End ActionChoice.

Section Orchestrator.

Variable AdamState : Type.
Variable adam_init : AdamState.

(** The variables of [main] that live across episodes. *)
Record Trainer := mkTrainer {
  dqn : DQN.t AdamState;
  epsilon : Q;
  stats : TrainingStats;
  best : BestRecords;
  lr_dropped_once : bool;
  lr_dropped_twice : bool
}.

(** [main] up to the episode loop: the learner is constructed, resumed
    from [models/best_time.pt] and given the learning rate [1e-4]. *)
Definition main_setup (policy_init target_init : DQN.DQNNet)
    (fs : DQN.FileSystem) : option Trainer :=
  d ← DQN.new AdamState adam_init STATE_SIZE ACTION_SIZE LEARNING_RATE GAMMA
        policy_init target_init;
  d ← DQN.load_model AdamState d "models/best_time.pt" fs;
  let d := DQN.set_learning_rate AdamState d 1e-4 in
  Some (mkTrainer d EPSILON_START (mkTrainingStats [] [] [] [] []) best_init
                  false false).

Definition with_dqn (t : Trainer) (d : DQN.t AdamState) (once twice : bool)
    : Trainer :=
  mkTrainer d (epsilon t) (stats t) (best t) once twice.

(** The learning-rate schedule after an episode; [stats] already holds
    the episode. *)
Definition lr_schedule (t : Trainer) (raceFinished : bool) : Trainer :=
  let t :=
    if raceFinished && negb (lr_dropped_once t)
    then with_dqn t (DQN.set_learning_rate AdamState (dqn t) 3e-4)
                  true (lr_dropped_twice t)
    else t in
  let n := length (episode_finishes (stats t)) in
  if negb (lr_dropped_twice t) && (20 <=? Z.of_nat n) then
    let countFin := sumZ (drop (n - 20) (episode_finishes (stats t))) in
    let finishRate20 := (inject_Z countFin / 20)%Q in
    if Qle_bool 0.50 finishRate20
    then with_dqn t (DQN.set_learning_rate AdamState (dqn t) 1e-4)
                  (lr_dropped_once t) true
    else t
  else t.

Definition Qmax (p q : Q) : Q := if Qltb p q then q else p.

(** [main] after the [while] loop of an episode, down to the learning-rate
    schedule; [e] is the episode as the loop left it, [total_loss] and
    [loss_count] come from the learning steps made during it. *)
Definition after_episode (t : Trainer) (e : TrainEpisode) (total_loss : Q)
    (loss_count : Z) : Trainer :=
  let epsilon := Qmax EPSILON_END (epsilon t * EPSILON_DECAY)%Q in
  let stats :=
    mkTrainingStats
      (episode_rewards (stats t) ++ [episode_reward e])
      (episode_lengths (stats t) ++ [episode_steps e])
      (episode_losses (stats t)
         ++ [if 0 <? loss_count then (total_loss / inject_Z loss_count)%Q else 0%Q])
      (episode_laps (stats t) ++ [currentLap (train_race e)])
      (episode_finishes (stats t)
         ++ [if raceFinished (train_race e) then 1 else 0]) in
  lr_schedule
    (mkTrainer (dqn t) epsilon stats (best t) (lr_dropped_once t)
               (lr_dropped_twice t))
    (raceFinished (train_race e)).

(** The best-model blocks of a milestone, with the snapshots they write. *)
Definition milestone_select (t : Trainer) (eval : EvalResult)
    (fs : DQN.FileSystem) : Trainer * DQN.FileSystem :=
  let '(best, saved) := select_best (best t) eval in
  let fs :=
    if saved_finish_rate saved
    then DQN.save_model AdamState (dqn t) "models/best_finish_rate.pt" fs else fs in
  let fs :=
    if saved_time saved
    then DQN.save_model AdamState (dqn t) "models/best_time.pt" fs else fs in
  let fs :=
    if saved_score saved
    then DQN.save_model AdamState (dqn t) "models/best_score.pt" fs else fs in
  (mkTrainer (dqn t) (epsilon t) (stats t) best (lr_dropped_once t)
             (lr_dropped_twice t), fs).

(** The optimiser and automatic differentiation of libtorch, as in the
    learner. *)
Variable backward :
  DQN.DQNNet → DQN.Tensor Q → DQN.Tensor Z → DQN.Tensor Q
  → list (string * DQN.Tensor Q).
Variable clip_grad_norm_ :
  list (string * DQN.Tensor Q) → Q → list (string * DQN.Tensor Q).
Variable adam_step :
  list Q → AdamState → DQN.DQNNet → list (string * DQN.Tensor Q)
  → DQN.DQNNet * AdamState.

(** The learning steps of the [while] loop of one episode: [dqn.train] on
    each sampled batch in turn, its loss added to [total_loss] and counted
    in [loss_count]. *)
Fixpoint learn (d : DQN.t AdamState) (batches : list ReplayBuffer.Batch)
    (total_loss : Q) (loss_count : Z) : option (DQN.t AdamState * Q * Z) :=
  match batches with
  | [] => Some (d, total_loss, loss_count)
  | batch :: rest =>
      '(loss, d) ←
        DQN.train AdamState backward clip_grad_norm_ adam_step d
          (ReplayBuffer.states batch) (ReplayBuffer.actions batch)
          (ReplayBuffer.rewards batch) (ReplayBuffer.next_states batch)
          (ReplayBuffer.dones batch) BATCH_SIZE;
      learn d rest (total_loss + loss)%Q (loss_count + 1)
  end.

(** One pass through the body of the episode loop, down to the
    learning-rate schedule: the learning steps on the batches sampled
    during the episode, then the statements after the [while] loop; [e]
    is the episode as the loop left it. *)
Definition episode (t : Trainer) (batches : list ReplayBuffer.Batch)
    (e : TrainEpisode) : option Trainer :=
  '(d, total_loss, loss_count) ← learn (dqn t) batches 0 0;
  Some (after_episode
          (mkTrainer d (epsilon t) (stats t) (best t) (lr_dropped_once t)
                     (lr_dropped_twice t))
          e total_loss loss_count).

(** Episodes in sequence. *)
Fixpoint run (t : Trainer)
    (episodes : list (list ReplayBuffer.Batch * TrainEpisode))
    : option Trainer :=
  match episodes with
  | [] => Some t
  | (batches, e) :: rest => t ← episode t batches e; run t rest
  end.

End Orchestrator.

(** ** The learning loop of [main]: choice, step, replay and training *)

Section Learning.

Variable cos sin sqrtf : Q → Q.
Variable trackImage : Image.
Variable AdamState : Type.
Variable RAND_MAX : Z.
Variable Gen : Type.
Variable mt19937 : Gen → Z * Gen.
Variable backward :
  DQN.DQNNet → DQN.Tensor Q → DQN.Tensor Z → DQN.Tensor Q
  → list (string * DQN.Tensor Q).
Variable clip_grad_norm_ :
  list (string * DQN.Tensor Q) → Q → list (string * DQN.Tensor Q).
Variable adam_step :
  list Q → AdamState → DQN.DQNNet → list (string * DQN.Tensor Q)
  → DQN.DQNNet * AdamState.

(** The [reward] of an iteration of the [while] loop that the stuck
    detector does not end: the value the iteration adds to
    [episode_reward] and stores in the replay buffer. *)
Definition step_reward (e : TrainEpisode) (action : Z) : option Q :=
  let prevPosition := position (train_vehicle e) in
  let ph := physics_step cos sin trackImage DT action (train_vehicle e) in
  let position := position (vehicle ph) in
  let speed := speed (vehicle ph) in
  let race := train_race e in
  distToNextCP ←
    DistToCheckpointMid sqrtf (checkpoints race) (nextCheckpoint race) position;
  prevDistToNextCP ←
    DistToCheckpointMid sqrtf (checkpoints race) (nextCheckpoint race)
      prevPosition;
  let progress := (prevDistToNextCP - distToNextCP)%Q in
  let reward := (0 + progress * 0.1)%Q in
  let reward :=
    if Qltb 0 progress then (reward + Qabs speed * DT * 0.0075)%Q else reward in
  let reward := if hitWall ph then (reward - 10)%Q else reward in
  let reward :=
    if Qltb 2 (surfaceFriction ph) then (reward - 2 * DT)%Q else reward in
  let reward := (reward - 0.005)%Q in
  let idle := Qltb (Qabs speed) V_IDLE && Qle_bool progress 0 in
  let idleCounter := if idle then idleCounter e + 1 else 0 in
  let reward :=
    if idle && (IDLE_GRACE_FRAMES <? idleCounter)
    then (reward - IDLE_PENALTY)%Q else reward in
  stmts ← checkpoint_block true race prevPosition position;
  let '(race, reward) := exec stmts (race, reward) in
  finishLine ← checkpoints race !! 0%nat;
  let reward :=
    if negb (nextCheckpoint race =? 0)
       && CheckCrossing finishLine prevPosition position
    then (reward - 10)%Q else reward in
  Some reward.

(** The variables of the [while] loop of an episode together with the
    learner and the replay buffer: [dqn], [replay_buffer], the episode,
    [state], [total_loss] and [loss_count]. *)
Record Learning := mkLearning {
  loop_dqn : DQN.t AdamState;
  loop_replay_buffer : ReplayBuffer.t;
  loop_episode : TrainEpisode;
  loop_state : list Q;
  loop_total_loss : Q;
  loop_loss_count : Z
}.

(** What one iteration draws: the values of the two calls of [rand()],
    the second made only to explore, and the state of the generator that
    [sample] seeds from [std::random_device]. *)
Record Draws := mkDraws {
  rand_explore : Z;
  rand_action : Z;
  sample_seed : Gen
}.

(** One iteration of the [while] loop of an episode of [main], in the
    episode numbered [episode] with the exploration rate [epsilon]: the
    stuck detector, the epsilon-greedy choice, the step, the transition
    stored in the replay buffer, and the learning step when the warm-up
    is over, the buffer can be sampled and the step count is a multiple
    of [TRAIN_EVERY_N_STEPS]. *)
Definition loop_body (episode : Z) (epsilon : Q) (l : Learning) (r : Draws)
    : option (Learning * LoopExit) :=
  let e := loop_episode l in
  let state := loop_state l in
  match stuck_check sqrtf e with
  | None =>
      '(e, ex) ← train_step cos sin sqrtf trackImage e 0;
      Some (mkLearning (loop_dqn l) (loop_replay_buffer l) e state
              (loop_total_loss l) (loop_loss_count l), ex)
  | Some _ =>
      action ←
        choose_action AdamState RAND_MAX (loop_dqn l) epsilon (rand_explore r)
          (rand_action r) state;
      reward ← step_reward e action;
      '(e, ex) ← train_step cos sin sqrtf trackImage e action;
      next_state ←
        GetState cos sin trackImage (position (train_vehicle e))
          (angle (train_vehicle e)) (speed (train_vehicle e));
      let done :=
        raceFinished (train_race e) || (max_steps <=? episode_steps e) in
      replay_buffer ←
        ReplayBuffer.add (loop_replay_buffer l) state action reward next_state
          done;
      '(dqn, replay_buffer, total_loss, loss_count) ←
        (if (WARMUP_EPISODES <=? episode)
            && ReplayBuffer.can_sample replay_buffer BATCH_SIZE
            && (Z.rem (episode_steps e) TRAIN_EVERY_N_STEPS =? 0)
         then
           '(batch, replay_buffer) ←
             ReplayBuffer.sample Gen mt19937 replay_buffer BATCH_SIZE
               ReplayBuffer.clear (sample_seed r);
           '(loss, dqn) ←
             DQN.train AdamState backward clip_grad_norm_ adam_step
               (loop_dqn l) (ReplayBuffer.states batch)
               (ReplayBuffer.actions batch) (ReplayBuffer.rewards batch)
               (ReplayBuffer.next_states batch) (ReplayBuffer.dones batch)
               BATCH_SIZE;
           Some (dqn, replay_buffer, (loop_total_loss l + loss)%Q,
                 loop_loss_count l + 1)
         else Some (loop_dqn l, replay_buffer, loop_total_loss l,
                    loop_loss_count l));
      Some (mkLearning dqn replay_buffer e next_state total_loss loss_count,
            if done then Break else Continue)
  end.

(** The [while] loop of an episode; [draws] are the draws of the
    successive iterations, and the interrupt arrives when they are used
    up. *)
Fixpoint learning_loop (episode : Z) (epsilon : Q) (draws : list Draws)
    (l : Learning) : option Learning :=
  match draws with
  | [] => Some l
  | r :: rest =>
      if raceFinished (train_race (loop_episode l))
         || (max_steps <=? episode_steps (loop_episode l))
      then Some l
      else
        '(l, ex) ← loop_body episode epsilon l r;
        match ex with
        | Break => Some l
        | Continue => learning_loop episode epsilon rest l
        end
  end.

(** One pass through the body of the episode loop of [main], down to the
    learning-rate schedule: the reset, the first observation with its
    size check (the exit with status 1 is [None]), the [while] loop and
    the statements after it. *)
Definition learning_episode (checkpointsTemplate : list Checkpoint)
    (episode : Z) (t : Trainer AdamState) (replay_buffer : ReplayBuffer.t)
    (draws : list Draws) : option (Trainer AdamState * ReplayBuffer.t) :=
  let e := train_reset checkpointsTemplate in
  state ←
    GetState cos sin trackImage (position (train_vehicle e))
      (angle (train_vehicle e)) (speed (train_vehicle e));
  if negb (Z.of_nat (length state) =? STATE_SIZE) then None else
  l ← learning_loop episode (epsilon _ t) draws
        (mkLearning (dqn _ t) replay_buffer e state 0 0);
  Some (after_episode _
          (mkTrainer _ (loop_dqn l) (epsilon _ t) (stats _ t) (best _ t)
                     (lr_dropped_once _ t) (lr_dropped_twice _ t))
          (loop_episode l) (loop_total_loss l) (loop_loss_count l),
        loop_replay_buffer l).

(** The episode loop [for (int episode = 1; !interrupted; episode++)] from
    the episode numbered [episode]; [draws] holds the draws of each
    episode.  The counter is an [int]: its increment at [INT_MAX] has no
    defined behaviour. *)
Fixpoint learning_run (checkpointsTemplate : list Checkpoint) (episode : Z)
    (t : Trainer AdamState) (replay_buffer : ReplayBuffer.t)
    (draws : list (list Draws)) : option (Trainer AdamState * ReplayBuffer.t) :=
  match draws with
  | [] => Some (t, replay_buffer)
  | ds :: rest =>
      if INT_MAX <=? episode then None else
      '(t, replay_buffer) ←
        learning_episode checkpointsTemplate episode t replay_buffer ds;
      learning_run checkpointsTemplate (episode + 1) t replay_buffer rest
  end.

End Learning.

End Trainer.

(** * Vocabulary of the statements

    The predicates and functions the theorems are stated with, and the
    concrete data of the examples. *)

Section ReplayBufferTerms.
Import ReplayBuffer.

Definition sample_experience (n : Z) : Experience :=
  mkExperience [inject_Z n] n (inject_Z n) [inject_Z (n + 1)] false.

(** The batch holding the fields of the drawn transitions, in order. *)
Definition batch_of (es : list Experience) : Batch :=
  mkBatch (map state es) (map action es) (map reward es)
          (map next_state es) (map done es).

(** A generator for examples: a counter. *)
Definition counter_gen (g : Z) : Z * Z := (g, g + 1).

End ReplayBufferTerms.

Section DQNTerms.
Import DQN.

(** The sizes of the six parameter tensors. *)
Definition param_sizes (net : DQNNet) : list (list nat) :=
  (λ p, sizes (snd p)) <$> named_parameters net.

Definition relu_row (r : list Q) : list Q := relu <$> r.

(** The sizes and lengths of the parameters of a network constructed for
    the given dimensions. *)
Definition net_wf (state_size action_size : Z) (net : DQNNet) : Prop :=
  param_sizes net = DQNNet_sizes state_size action_size
  ∧ Forall (λ p, length (data (snd p)) = numel (sizes (snd p)))
           (named_parameters net).

(** The Q-values of one observation: the three layers on one row. *)
Definition forward_row (net : DQNNet) (x : list Q) : list Q :=
  linear_row (Linear_rows (fc3 net)) (data (bias (fc3 net)))
    (relu_row (linear_row (Linear_rows (fc2 net)) (data (bias (fc2 net)))
       (relu_row (linear_row (Linear_rows (fc1 net)) (data (bias (fc1 net))) x)))).

Definition argmax_total (l : list Q) : nat * Q :=
  match l with
  | [] => (0%nat, 0%Q)
  | x :: l' => argmax_from l' 1 0 x
  end.

(** The tensor [tau * p + (1 - tau) * t] written into [t]. *)
Definition blend (tau : Q) (p t : Tensor Q) : Tensor Q :=
  mkTensor (sizes t)
    (zip_with Qplus (Qmult tau <$> data p) (Qmult (1 - tau)%Q <$> data t)).

Definition blend_net (tau : Q) (policy target : DQNNet) : DQNNet :=
  mkDQNNet
    (mkLinear (blend tau (weight (fc1 policy)) (weight (fc1 target)))
              (blend tau (bias (fc1 policy)) (bias (fc1 target))))
    (mkLinear (blend tau (weight (fc2 policy)) (weight (fc2 target)))
              (blend tau (bias (fc2 policy)) (bias (fc2 target))))
    (mkLinear (blend tau (weight (fc3 policy)) (weight (fc3 target)))
              (blend tau (bias (fc3 policy)) (bias (fc3 target)))).

Definition squared_error (x y : Q) : Q := ((x - y) * (x - y))%Q.

Section LearnerTerms.
Context {AdamState : Type}.

(** A learner as constructed for its dimensions. *)
Definition dqn_wf (d : DQN.t AdamState) : Prop :=
  0 ≤ state_size_ _ d ∧ 1 ≤ action_size_ _ d
  ∧ net_wf (state_size_ _ d) (action_size_ _ d) (policy_net_ _ d)
  ∧ net_wf (state_size_ _ d) (action_size_ _ d) (target_net_ _ d).

(** A batch of [batch_size] transitions for the learner, as [sample]
    and the trainer produce it. *)
Definition batch_wf (d : DQN.t AdamState) (states : list (list Q))
    (actions : list Z) (rewards : list Q) (next_states : list (list Q))
    (dones : list bool) (batch_size : Z) : Prop :=
  1 ≤ batch_size
  ∧ length states = Z.to_nat batch_size
  ∧ Forall (λ s, length s = Z.to_nat (state_size_ _ d)) states
  ∧ length actions = Z.to_nat batch_size
  ∧ Forall (λ a, 0 ≤ a < action_size_ _ d) actions
  ∧ length rewards = Z.to_nat batch_size
  ∧ length next_states = Z.to_nat batch_size
  ∧ Forall (λ s, length s = Z.to_nat (state_size_ _ d)) next_states
  ∧ length dones = Z.to_nat batch_size.

(** The value the target network gives to the action the policy network
    prefers at [s']. *)
Definition next_value (d : DQN.t AdamState) (s' : list Q) : Q :=
  default 0%Q
    (forward_row (target_net_ _ d) s'
       !! fst (argmax_total (forward_row (policy_net_ _ d) s'))).

End LearnerTerms.

(** Concrete networks for examples: the entries follow a fixed pattern
    driven by [seed]. *)
Definition example_tensor (sz : list nat) (seed : Z) : Tensor Q :=
  mkTensor sz
    ((λ i, (((Z.of_nat i + 1) * seed) mod 7 - 3) # 10) <$> seq 0 (numel sz)).

Definition example_net (state_size action_size : Z) (seed : Z) : DQNNet :=
  match DQNNet_sizes state_size action_size with
  | [w1; b1; w2; b2; w3; b3] =>
      mkDQNNet
        (mkLinear (example_tensor w1 seed) (example_tensor b1 (seed + 1)))
        (mkLinear (example_tensor w2 (seed + 2)) (example_tensor b2 (seed + 3)))
        (mkLinear (example_tensor w3 (seed + 4)) (example_tensor b3 (seed + 5)))
  | _ => mkDQNNet (mkLinear (mkTensor [] []) (mkTensor [] []))
                  (mkLinear (mkTensor [] []) (mkTensor [] []))
                  (mkLinear (mkTensor [] []) (mkTensor [] []))
  end.

(** A stand-in optimiser for examples: no gradient, and a step that shrinks
    every parameter by the learning rate of the first group. *)
Definition example_backward (net : DQNNet) (states : Tensor Q)
    (actions : Tensor Z) (target_q : Tensor Q) : list (string * Tensor Q) := [].

Definition example_clip (grads : list (string * Tensor Q)) (max_norm : Q)
    : list (string * Tensor Q) := grads.

Definition shrink_net (c : Q) (net : DQNNet) : DQNNet :=
  mkDQNNet
    (mkLinear (scalar_mul c (weight (fc1 net))) (scalar_mul c (bias (fc1 net))))
    (mkLinear (scalar_mul c (weight (fc2 net))) (scalar_mul c (bias (fc2 net))))
    (mkLinear (scalar_mul c (weight (fc3 net))) (scalar_mul c (bias (fc3 net)))).

Definition example_adam_step (lrs : list Q) (st : unit) (net : DQNNet)
    (grads : list (string * Tensor Q)) : DQNNet * unit :=
  (shrink_net (1 - default 0 (head lrs))%Q net, st).

Definition example_dqn (policy_seed target_seed : Z) : DQN.t unit :=
  DQN.mk unit 2 3 0.99%Q (example_net 2 3 policy_seed)
         (example_net 2 3 target_seed) (mkAdam unit [0.001%Q] tt) 0.001%Q.

Definition example_states : list (list Q) := [[0.5; -0.25]; [1; 0]]%Q.

Definition example_actions : list Z := [0; 2].

Definition example_rewards : list Q := [1; -0.5]%Q.

Definition example_next_states : list (list Q) := [[0.75; -0.25]; [1; 0.5]]%Q.

Definition example_dones : list bool := [false; true].

End DQNTerms.

Section TrainerTerms.
Import Trainer.

(** The states of an episode of the training loop, and of the evaluation
    loop: the state after the reset, then the state after each
    iteration. *)
Definition train_states (cos sin sqrtf : Q → Q) (trackImage : Image)
    (checkpointsTemplate : list Checkpoint) (actions : list Z)
    : list TrainEpisode :=
  train_reset checkpointsTemplate
    :: train_trace cos sin sqrtf trackImage actions
         (train_reset checkpointsTemplate).

Definition eval_states (cos sin : Q → Q) (trackImage : Image)
    (checkpointsTemplate : list Checkpoint) (dt : Q) (max_steps : Z)
    (actions : list Z) : list EvalEpisode :=
  eval_reset checkpointsTemplate
    :: eval_trace cos sin trackImage dt max_steps actions
         (eval_reset checkpointsTemplate).

(** The speed of the vehicle is in [[-MAX_SPEED / 2, MAX_SPEED]]. *)
Definition speed_in_range (v : Vehicle) : Prop :=
  (-150 <= speed v <= 300)%Q.

(** The [crossed] flag of checkpoint 0, the finish line. *)
Definition finish_flag (race : Race) : bool :=
  match checkpoints race with
  | cp :: _ => crossed cp
  | [] => false
  end.

(** What holds of the race variables between iterations, for a track of
    [n] checkpoints. *)
Definition race_inv (n : nat) (race : Race) : Prop :=
  length (checkpoints race) = n
  ∧ 0 ≤ nextCheckpoint race < Z.of_nat n
  ∧ finish_flag race = false.

(** Statements that leave the finish flag clear when they find it clear. *)
Definition keeps_clear (f : Stmt) : Prop :=
  ∀ s, finish_flag (fst s) = false → finish_flag (fst (f s)) = false.

(** What the claim about the finish flag says of race variables [race],
    as an iteration finds them: the finish flag is clear; the checkpoint
    block is defined whatever the move of the vehicle; and if a statement
    of the block leaves the finish flag set, then every other checkpoint
    was flagged on entry, and the block ends with the lap count one higher
    and every flag clear. *)
Definition finish_flag_discipline (training : bool) (race : Race) : Prop :=
  finish_flag race = false
  ∧ ∀ prevPosition position rwd,
      ∃ stmts,
        checkpoint_block training race prevPosition position = Some stmts
        ∧ ∀ mid, mid ∈ exec_trace stmts (race, rwd) →
            finish_flag (fst mid) = true →
            (∀ i cp, (1 ≤ i)%nat → checkpoints race !! i = Some cp →
               crossed cp = true)
            ∧ currentLap (fst (exec stmts (race, rwd))) = currentLap race + 1
            ∧ ∀ cp, cp ∈ checkpoints (fst (exec stmts (race, rwd))) →
                crossed cp = false.

(** The best-score rule as the specification words it: replace if no prior
    record exists, or the score improves by more than the margin, or the
    score improves at all while the finish rate exceeds the finish rate of
    the evaluation that set the best-score record.  [record] is that
    evaluation, if any. *)
Definition save_score_as_specified (record : option EvalResult)
    (eval : EvalResult) : bool :=
  match record with
  | None => true
  | Some old =>
      Qltb (avg_score old + SCORE_MIN_IMPROVEMENT) (avg_score eval)
      || (Qltb (avg_score old) (avg_score eval)
          && Qltb (finish_rate old) (finish_rate eval))
  end.

(** The checkpoint block along a sequence of moves of the vehicle. *)
Fixpoint race_run (training : bool) (moves : list (Vector2 * Vector2))
    (race : Race) : option Race :=
  match moves with
  | [] => Some race
  | (prevPosition, position) :: rest =>
      stmts ← checkpoint_block training race prevPosition position;
      race_run training rest (fst (exec stmts (race, 0%Q)))
  end.

Definition race_summary (race : Race) : Z * Z * bool * list bool :=
  (currentLap race, nextCheckpoint race, raceFinished race,
   crossed <$> checkpoints race).

(** An evaluation result as [EvaluateGreedy] aggregates it from twenty
    episodes that all went the same way: [finished] with the given
    counts. *)
Definition uniform_eval (finished : bool) (laps nsteps hits grass : Z)
    : EvalResult :=
  aggregate EVAL_EPISODES
    (replicate 20
       (mkEvalEpisode vehicle_reset
          (mkRace checkpointsTemplate laps 1 finished) hits grass nsteps)).

(** First milestone: no finish, 7500 steps, no wall hit.  Second milestone:
    every episode finishes after 7000 steps and 500 wall hits. *)
Definition first_eval : EvalResult := uniform_eval false 2 7500 0 0.

Definition second_eval : EvalResult := uniform_eval true 3 7000 500 0.

Definition after_first_milestone : BestRecords :=
  fst (select_best best_init first_eval).

(** The trainer as [main] sets it up, resumed from a saved model. *)
Definition resumed_trainer : option (Trainer unit) :=
  main_setup unit tt (example_net 23 7 3) (example_net 23 7 4)
    (DQN.torch_save (example_net 23 7 1) "models/best_time.pt" ∅).

(** An episode as the training loop leaves it when the race is finished. *)
Definition finished_episode : TrainEpisode :=
  mkTrainEpisode (mkVehicle (mkVector2 452 90) (mkVector2 120 0) 0 120)
    (mkRace checkpointsTemplate 3 1 true) 1450 5200 0 (mkVector2 300 95) 0.

(** A learner of the dimensions of [main], and a trainer before its
    first episode. *)
Definition main_sized_dqn : DQN.t unit :=
  DQN.mk unit STATE_SIZE ACTION_SIZE GAMMA (example_net 23 7 1)
         (example_net 23 7 2) (DQN.mkAdam unit [1e-4%Q] tt) 1e-4%Q.

Definition example_trainer : Trainer unit :=
  mkTrainer unit (example_dqn 1 2) EPSILON_START
    (mkTrainingStats [] [] [] [] []) best_init false false.

(** Stand-ins for the C library on a heading along the x axis, and a track
    image that is track everywhere. *)
Definition example_cos (angle : Q) : Q := 1.

Definition example_sin (angle : Q) : Q := 0.

Definition example_sqrtf (q : Q) : Q := Qabs q.

Definition example_image : Image :=
  mkImage 1000 900 (λ _ _, mkColor 35 35 35 255).

(** Five steps of full throttle from the start position. *)
Definition throttle_actions : list Z := replicate 5 0.

Definition move (x1 y1 x2 y2 : Q) : Vector2 * Vector2 :=
  (mkVector2 x1 y1, mkVector2 x2 y2).

(** Moves across the finish line and then across checkpoints 1 to 7 of
    the track of [main], in order. *)
Definition lap_moves : list (Vector2 * Vector2) :=
  [ move 449 92 451 92; move 780 259 780 261; move 780 664 780 666;
    move 574 510 574 490; move 352 440 352 410; move 190 760 190 780;
    move 90 610 90 590; move 90 210 90 200 ]%Q.

End TrainerTerms.

(** ** Geometry, sensors and the track *)

Section EnvironmentTerms.
Import Trainer.

(** The denominator of the line intersection formula for the move from
    [p] to [q] and the segment from [a] to [b]. *)
Definition cross_denom (p q a b : Vector2) : Q :=
  ((x p - x q) * (y a - y b) - (y p - y q) * (x a - x b))%Q.

(** The segments from [p] to [q] and from [a] to [b] have a common
    point. *)
Definition segments_meet (p q a b : Vector2) : Prop :=
  ∃ t u : Q,
    (0 <= t <= 1)%Q ∧ (0 <= u <= 1)%Q
    ∧ (x p + t * (x q - x p) == x a + u * (x b - x a))%Q
    ∧ (y p + t * (y q - y p) == y a + u * (y b - y a))%Q.

(** The distance [CastLIDARRay] has reached after [k] steps. *)
Definition ray_distance (k : nat) : Q := Nat.iter k (λ d, (d + 2)%Q) 0%Q.

(** The test of [CastLIDARRay] at a distance along the ray: the pixel is
    outside the image or a wall. *)
Definition ray_blocked (cos sin : Q → Q) (trackImage : Image)
    (position : Vector2) (angle distance : Q) : bool :=
  let pixelX := int_of_float (x position + cos angle * distance)%Q in
  let pixelY := int_of_float (y position + sin angle * distance)%Q in
  negb (in_image trackImage pixelX pixelY)
  || IsWall (GetImageColor trackImage pixelX pixelY).

(** The pixel of a position is inside the image and not a wall. *)
Definition off_wall (trackImage : Image) (p : Vector2) : Prop :=
  in_image trackImage (int_of_float (x p)) (int_of_float (y p)) = true
  ∧ IsWall (GetImageColor trackImage (int_of_float (x p))
              (int_of_float (y p))) = false.

(** The race variables between iterations: before the first crossing of
    the finish line nothing is flagged; from then on the lap count is
    between 1 and [totalLaps], the race is finished exactly at [totalLaps],
    and the flagged checkpoints are those from 1 up to the next one, all
    of them when the finish line is next. *)
Definition flags_in_order (race : Race) : Prop :=
  (currentLap race = -1 ∧ nextCheckpoint race = 0
   ∧ raceFinished race = false
   ∧ Forall (λ cp, crossed cp = false) (checkpoints race))
  ∨ (1 ≤ currentLap race ≤ totalLaps
     ∧ (raceFinished race = true ↔ currentLap race = totalLaps)
     ∧ ∀ i cp, checkpoints race !! i = Some cp →
         (crossed cp = true
          ↔ (1 ≤ i)%nat
            ∧ (nextCheckpoint race = 0 ∨ Z.of_nat i < nextCheckpoint race))).

(** The counters of an episode from which the loop goes on. *)
Definition counters_running (e : TrainEpisode) : Prop :=
  0 ≤ episode_steps e ≤ max_steps
  ∧ 0 ≤ stuckCounter e < STUCK_STRIKES_MAX
  ∧ (stuckCounter e = 0
     ∨ STUCK_CHECK_INTERVAL * stuckCounter e < episode_steps e).

(** What one iteration does to the counters: it counts one step, or the
    stuck detector ends the episode at its third strike -- not before
    step 225 -- taking [STUCK_BREAK_PENALTY] off the reward and leaving
    the step count, the vehicle and the race as they were. *)
Definition counters_step (e e' : TrainEpisode) (ex : LoopExit) : Prop :=
  (episode_steps e' = episode_steps e + 1
   ∧ 0 ≤ stuckCounter e' < STUCK_STRIKES_MAX
   ∧ (ex = Break →
      raceFinished (train_race e') = true ∨ episode_steps e' = max_steps))
  ∨ (ex = Break
     ∧ episode_steps e' = episode_steps e
     ∧ 3 * STUCK_CHECK_INTERVAL ≤ episode_steps e
     ∧ Z.rem (episode_steps e) STUCK_CHECK_INTERVAL = 0
     ∧ stuckCounter e' = STUCK_STRIKES_MAX
     ∧ episode_reward e' = (episode_reward e - STUCK_BREAK_PENALTY)%Q
     ∧ train_vehicle e' = train_vehicle e
     ∧ train_race e' = train_race e).

(** What the evaluation loop keeps of an episode on a track of [n]
    checkpoints. *)
Definition eval_running (n : nat) (max_steps : Z) (e : EvalEpisode) : Prop :=
  race_inv n (eval_race e) ∧ flags_in_order (eval_race e)
  ∧ 0 ≤ steps e ≤ Z.max 0 max_steps
  ∧ 0 ≤ wallHits e ≤ steps e
  ∧ 0 ≤ grassFrames e ≤ steps e.

End EnvironmentTerms.

(** ** The schedules of the orchestrator *)

Section ScheduleTerms.
Import Trainer.
Context {AdamState : Type}.

(** The learning rate the schedule has set, as the two flags tell it: the
    rate of the resume before the first drop, [3e-4] after it, [1e-4]
    after the second. *)
Definition scheduled_lr (t : Trainer AdamState) : Q :=
  if lr_dropped_twice _ t then 1e-4%Q
  else if lr_dropped_once _ t then 3e-4%Q
  else 1e-4%Q.

(** The learning rate of the learner and of its optimiser is the
    scheduled one; the second drop has fired only after the first; and
    no race was finished before the first drop. *)
Definition lr_by_flags (t : Trainer AdamState) : Prop :=
  DQN.get_learning_rate _ (dqn _ t) = scheduled_lr t
  ∧ DQN.param_groups _ (DQN.optimizer_ _ (dqn _ t)) = [scheduled_lr t]
  ∧ (lr_dropped_twice _ t = true → lr_dropped_once _ t = true)
  ∧ (lr_dropped_once _ t = false →
     Forall (λ f, f = 0) (episode_finishes (stats _ t)))
  ∧ Forall (λ f, f = 0 ∨ f = 1) (episode_finishes (stats _ t)).

End ScheduleTerms.

Section LearningTerms.
Import Trainer.
Context {AdamState : Type}.

(** A transition as [main] stores it: two observations of [STATE_SIZE]
    values and one of the [ACTION_SIZE] actions. *)
Definition transition_wf (tr : ReplayBuffer.Experience) : Prop :=
  Z.of_nat (length (ReplayBuffer.state tr)) = STATE_SIZE
  ∧ Z.of_nat (length (ReplayBuffer.next_state tr)) = STATE_SIZE
  ∧ 0 ≤ ReplayBuffer.action tr < ACTION_SIZE.

(** The replay buffer of [main]: of capacity [REPLAY_BUFFER_SIZE], not
    over it, and holding such transitions only. *)
Definition buffer_wf (rb : ReplayBuffer.t) : Prop :=
  ReplayBuffer.capacity_ rb = REPLAY_BUFFER_SIZE
  ∧ ReplayBuffer.size rb ≤ REPLAY_BUFFER_SIZE
  ∧ Forall transition_wf (ReplayBuffer.buffer_ rb).

(** A learner of the dimensions of [main]. *)
Definition main_sized (d : DQN.t AdamState) : Prop :=
  dqn_wf d
  ∧ DQN.state_size_ _ d = STATE_SIZE
  ∧ DQN.action_size_ _ d = ACTION_SIZE.

(** What the [while] loop of [main] keeps of its variables on a track of
    [n] checkpoints. *)
Definition learning_wf (n : nat) (l : Learning AdamState) : Prop :=
  main_sized (loop_dqn _ l)
  ∧ buffer_wf (loop_replay_buffer _ l)
  ∧ race_inv n (train_race (loop_episode _ l))
  ∧ Z.of_nat (length (loop_state _ l)) = STATE_SIZE.

(** What iterations of the [while] loop in the episode numbered [episode]
    make of its variables, from [l] to [l']: the learning rate stays; the
    buffer gains one transition for each step counted, up to its capacity;
    learning steps are counted with their losses, at most one for three
    steps; and there is none during the warm-up, nor while the buffer
    holds fewer than [BATCH_SIZE] transitions. *)
Definition loop_progress (episode : Z) (l l' : Learning AdamState) : Prop :=
  DQN.get_learning_rate _ (loop_dqn _ l')
    = DQN.get_learning_rate _ (loop_dqn _ l)
  ∧ DQN.param_groups _ (DQN.optimizer_ _ (loop_dqn _ l'))
    = DQN.param_groups _ (DQN.optimizer_ _ (loop_dqn _ l))
  ∧ episode_steps (loop_episode _ l) ≤ episode_steps (loop_episode _ l')
  ∧ ReplayBuffer.size (loop_replay_buffer _ l')
    = Z.min (ReplayBuffer.size (loop_replay_buffer _ l)
             + (episode_steps (loop_episode _ l')
                - episode_steps (loop_episode _ l)))
            REPLAY_BUFFER_SIZE
  ∧ loop_loss_count _ l ≤ loop_loss_count _ l'
  ∧ (3 * loop_loss_count _ l ≤ episode_steps (loop_episode _ l) →
     3 * loop_loss_count _ l' ≤ episode_steps (loop_episode _ l'))
  ∧ (loop_total_loss _ l <= loop_total_loss _ l')%Q
  ∧ (episode < WARMUP_EPISODES
     ∨ ReplayBuffer.size (loop_replay_buffer _ l') < BATCH_SIZE →
     loop_dqn _ l' = loop_dqn _ l
     ∧ loop_loss_count _ l' = loop_loss_count _ l
     ∧ loop_total_loss _ l' = loop_total_loss _ l).

End LearningTerms.

(** A trainer with a learner of the dimensions of [main], for examples. *)
Definition main_sized_trainer : Trainer.Trainer unit :=
  Trainer.mkTrainer unit main_sized_dqn Trainer.EPSILON_START
    (Trainer.mkTrainingStats [] [] [] [] []) Trainer.best_init false false.

(** * Properties *)

(** ** Comparisons *)

(** Case on the option at the head of a chain of binds that returns. *)
Ltac unbind H :=
  match type of H with
  | mbind _ ?o = Some _ =>
      let E := fresh "E" in
      destruct o eqn:E; simpl in H; [|discriminate H]
  end.

Lemma Qltb_true (x y : Q) : Qltb x y = true → (x < y)%Q.
Proof.
  unfold Qltb. intros H. apply negb_true_iff in H.
  apply Qnot_le_lt. intros Hle. apply Qle_bool_iff in Hle. congruence.
Qed.

Lemma Qltb_false (x y : Q) : Qltb x y = false → (y <= x)%Q.
Proof.
  unfold Qltb. intros H. apply negb_false_iff in H. by apply Qle_bool_iff.
Qed.

(** ** The replay buffer *)

Section ReplayBufferFacts.
Import ReplayBuffer.

Lemma to_size_t_small (n : Z) : 0 ≤ n ≤ INT_MAX → to_size_t n = n.
Proof.
  unfold to_size_t, INT_MAX. intros Hn. apply Z.mod_small. lia.
Qed.

(** One [add] on a buffer holding a suffix of the insertion history. *)
Lemma add_experience_spec (rb : t) (e : Experience) :
  1 ≤ capacity_ rb ≤ INT_MAX →
  size rb ≤ capacity_ rb →
  ∃ rb', add_experience rb e = Some rb'
    ∧ capacity_ rb' = capacity_ rb
    ∧ buffer_ rb' =
        drop (length (buffer_ rb) + 1 - Z.to_nat (capacity_ rb))
             (buffer_ rb ++ [e]).
Proof.
  intros Hc Hs. unfold add_experience, add, size in *.
  rewrite to_size_t_small by lia.
  destruct rb as [c buf]; simpl in *.
  destruct (Z.leb_spec c (Z.of_nat (length buf))) as [Hfull|Hroom].
  - destruct buf as [|old rest]; simpl in *; [lia|].
    eexists; split; [reflexivity|]. split; [reflexivity|].
    destruct e; simpl.
    match goal with |- context [drop ?n _] =>
      replace n with 1%nat by lia end.
    reflexivity.
  - eexists; split; [reflexivity|]. split; [reflexivity|].
    destruct e; simpl.
    match goal with |- context [drop ?n _] =>
      replace n with 0%nat by lia end.
    reflexivity.
Qed.

Lemma add_all_spec (es : list Experience) : ∀ (rb : t),
  1 ≤ capacity_ rb ≤ INT_MAX →
  size rb ≤ capacity_ rb →
  ∃ rb', add_all rb es = Some rb'
    ∧ capacity_ rb' = capacity_ rb
    ∧ buffer_ rb' =
        drop (length (buffer_ rb) + length es - Z.to_nat (capacity_ rb))
             (buffer_ rb ++ es).
Proof.
  induction es as [|e es IH]; intros rb Hc Hs.
  - exists rb. split; [reflexivity|]. split; [reflexivity|].
    rewrite app_nil_r. unfold size in Hs.
    replace (_ + _ - _)%nat with 0%nat by (simpl; lia). reflexivity.
  - destruct (add_experience_spec rb e Hc Hs) as (rb1 & Hadd & Hcap & Hbuf).
    assert (Hs1 : size rb1 ≤ capacity_ rb1).
    { unfold size in *. rewrite Hbuf, Hcap, length_drop, length_app.
      simpl. lia. }
    destruct (IH rb1 ltac:(lia) Hs1) as (rb2 & Hall & Hcap2 & Hbuf2).
    exists rb2. simpl. rewrite Hadd. simpl. split; [exact Hall|].
    split; [congruence|]. rewrite Hbuf2, Hcap, Hbuf.
    rewrite length_drop, length_app. simpl.
    unfold size in Hs.
    set (n := length (buffer_ rb)) in *. set (c := Z.to_nat (capacity_ rb)).
    assert (Hn : (n ≤ c)%nat) by lia.
    rewrite <- drop_app_le by (rewrite length_app; simpl; lia).
    rewrite drop_drop, <- app_assoc. simpl.
    f_equal. lia.
Qed.

(** C7, for a capacity of one at least.  From a buffer constructed with
    capacity [C >= 1], any sequence of [add] calls succeeds and leaves at
    most [C] transitions: exactly the most recent ones, in insertion
    order.  An [add] on a full buffer removes the front element, which is
    the oldest retained insertion, and keeps the others in order before
    the new one. *)
Theorem replay_buffer_add_bounded_fifo (C : Z) (es : list Experience) :
  1 ≤ C ≤ INT_MAX →
  ∃ rb0 rb, new C = Some rb0 ∧ add_all rb0 es = Some rb
    ∧ size rb ≤ C
    ∧ buffer_ rb = drop (length es - Z.to_nat C) es
    ∧ ∀ e, size rb = C →
        ∃ oldest rest, buffer_ rb = oldest :: rest
          ∧ es !! (length es - Z.to_nat C)%nat = Some oldest
          ∧ add_experience rb e = Some (mk C (rest ++ [e])).
Proof.
  intros HC. exists (mk C []).
  destruct (add_all_spec es (mk C []) HC) as (rb & Hall & Hcap & Hbuf).
  { unfold size; simpl; lia. }
  simpl in Hcap, Hbuf. exists rb.
  split. { unfold new. destruct (Z.ltb_spec C 0); [lia|reflexivity]. }
  split; [exact Hall|].
  assert (Hsz : size rb ≤ C).
  { unfold size. rewrite Hbuf, length_drop. lia. }
  split; [exact Hsz|]. split; [exact Hbuf|].
  intros e Hfull.
  destruct (add_experience_spec rb e) as (rb' & Hadd & Hcap' & Hbuf');
    [lia | lia |].
  destruct (buffer_ rb) as [|oldest rest] eqn:Hb.
  { unfold size in Hfull. rewrite Hb in Hfull. simpl in Hfull. lia. }
  exists oldest, rest. split; [reflexivity|]. split.
  - assert (H0 : (oldest :: rest) !! 0%nat = Some oldest) by reflexivity.
    rewrite Hbuf, lookup_drop, Nat.add_0_r in H0. exact H0.
  - rewrite Hadd. f_equal. destruct rb' as [c' b']. simpl in *.
    subst c'. rewrite Hcap. f_equal. rewrite Hbuf'.
    unfold size in Hfull. rewrite Hb in Hfull. simpl in Hfull.
    match goal with |- context [drop ?n _] =>
      replace n with 1%nat by lia end.
    reflexivity.
Qed.

Lemma replay_buffer_add_bounded_fifo_witness :
  ∃ rb0 rb, new 2 = Some rb0
    ∧ add_all rb0 (map sample_experience [1; 2; 3]) = Some rb
    ∧ size rb ≤ 2
    ∧ buffer_ rb = map sample_experience [2; 3]
    ∧ ∀ e, size rb = 2 →
        ∃ oldest rest, buffer_ rb = oldest :: rest
          ∧ map sample_experience [1; 2; 3] !! 1%nat = Some oldest
          ∧ add_experience rb e = Some (mk 2 (rest ++ [e])).
Proof.
  apply (replay_buffer_add_bounded_fifo 2 (map sample_experience [1; 2; 3])).
  unfold INT_MAX. lia.
Defined.

(** The claim as written fails for the capacity 0: the constructor
    accepts it, and the first [add] finds the empty buffer at capacity and
    erases its first element, which has no defined behaviour. *)
Lemma add_undefined_at_capacity_zero :
  new 0 = Some (mk 0 [])
  ∧ add_experience (mk 0 []) (sample_experience 1) = None.
Proof. split; reflexivity. Qed.

Lemma push_back_batch_of (es : list Experience) (e : Experience) :
  push_back (batch_of es) e = batch_of (es ++ [e]).
Proof.
  unfold push_back, batch_of. simpl. rewrite !map_app. reflexivity.
Qed.

Section SamplingFacts.
Variable Gen : Type.
Variable mt19937 : Gen → Z * Gen.

(** On a buffer that is not empty the distribution of [sample] is
    constructed, and draws indices of the buffer. *)
Lemma uniform_int_distribution_spec (buffer : list Experience) :
  buffer ≠ [] →
  ∃ dis,
    uniform_int_distribution Gen mt19937 0 (Z.of_nat (length buffer) - 1)
      = Some dis
    ∧ ∀ g, 0 ≤ fst (dis g) < Z.of_nat (length buffer).
Proof.
  intros Hne. unfold uniform_int_distribution.
  assert (Hlen : 0 < Z.of_nat (length buffer)).
  { destruct buffer; [congruence|simpl; lia]. }
  destruct (Z.ltb_spec (Z.of_nat (length buffer) - 1) 0) as [?|_]; [lia|].
  eexists. split; [reflexivity|]. intros g. cbv beta.
  destruct (mt19937 g) as [raw g1]. cbn [fst].
  replace (Z.of_nat (length buffer) - 1 - 0 + 1)
    with (Z.of_nat (length buffer)) by lia.
  pose proof (Z.mod_pos_bound raw _ Hlen). lia.
Qed.

Lemma sample_loop_spec (dis : Gen → Z * Gen) (buffer : list Experience)
    (n : nat) :
  (∀ g, 0 ≤ fst (dis g) < Z.of_nat (length buffer)) →
  ∀ (g : Gen) (es : list Experience),
  ∃ ds g', sample_loop Gen dis n buffer g (batch_of es)
             = Some (batch_of (es ++ ds), g')
    ∧ length ds = n ∧ Forall (λ e, e ∈ buffer) ds.
Proof.
  intros Hdis. induction n as [|n IH]; intros g es.
  - exists [], g. rewrite app_nil_r. repeat split. constructor.
  - simpl. pose proof (Hdis g) as Hidx.
    destruct (dis g) as [idx g1]. cbn [fst] in Hidx.
    destruct (Z.ltb_spec idx 0) as [?|_]; [lia|].
    destruct (lookup_lt_is_Some_2 buffer (Z.to_nat idx)) as [e He]; [lia|].
    rewrite He. simpl. rewrite push_back_batch_of.
    destruct (IH g1 (es ++ [e])) as (ds & g' & Hrun & Hl & Hall).
    exists (e :: ds), g'. rewrite Hrun, <- app_assoc. simpl.
    repeat split; [lia|]. constructor; [|exact Hall].
    eapply list_elem_of_lookup_2; exact He.
Qed.

(** [sample] on a buffer that is not empty. *)
Lemma sample_spec (rb : t) (batch_size : Z) (out : Batch) (seed : Gen) :
  buffer_ rb ≠ [] → 0 ≤ batch_size →
  ∃ ds, sample Gen mt19937 rb batch_size out seed = Some (batch_of ds, rb)
    ∧ Z.of_nat (length ds) = batch_size
    ∧ Forall (λ e, e ∈ buffer_ rb) ds.
Proof.
  intros Hne Hb. unfold sample.
  destruct (Z.ltb_spec batch_size 0) as [?|_]; [lia|].
  destruct (uniform_int_distribution_spec (buffer_ rb) Hne)
    as (dis & -> & Hdis).
  cbn [mbind option_bind].
  destruct (sample_loop_spec dis (buffer_ rb) (Z.to_nat batch_size) Hdis seed
              []) as (ds & g' & Hrun & Hl & Hall).
  change clear with (batch_of []). rewrite Hrun. simpl.
  exists ds. split; [reflexivity|]. split; [lia|exact Hall].
Qed.

(** C9, on a buffer that is not empty.  On a buffer holding at least
    [batch_size] transitions, and one at least, [sample] returns; its five
    output vectors hold the fields of exactly [batch_size] drawn
    transitions, each of them stored in the buffer; and the buffer it
    leaves is the buffer it was given. *)
Theorem sample_draws_from_buffer_unchanged (rb : t) (batch_size : Z)
    (out : Batch) (seed : Gen) :
  buffer_ rb ≠ [] →
  0 ≤ batch_size ≤ size rb →
  ∃ b drawn, sample Gen mt19937 rb batch_size out seed = Some (b, rb)
    ∧ Z.of_nat (length drawn) = batch_size
    ∧ (∀ e, e ∈ drawn → e ∈ buffer_ rb)
    ∧ states b = map state drawn
    ∧ actions b = map action drawn
    ∧ rewards b = map reward drawn
    ∧ next_states b = map next_state drawn
    ∧ dones b = map done drawn.
Proof.
  intros Hne Hb.
  destruct (sample_spec rb batch_size out seed Hne (proj1 Hb))
    as (ds & Hrun & Hl & Hall).
  exists (batch_of ds), ds. split; [exact Hrun|].
  split; [exact Hl|]. split.
  - intros e He. rewrite Forall_forall in Hall. exact (Hall e He).
  - repeat split.
Qed.
End SamplingFacts.

Lemma sample_draws_from_buffer_unchanged_witness :
  ∃ b drawn,
    sample Z counter_gen (mk 4 (map sample_experience [1; 2; 3])) 2 clear 5
      = Some (b, mk 4 (map sample_experience [1; 2; 3]))
    ∧ Z.of_nat (length drawn) = 2
    ∧ (∀ e, e ∈ drawn → e ∈ map sample_experience [1; 2; 3])
    ∧ states b = map state drawn
    ∧ actions b = map action drawn
    ∧ rewards b = map reward drawn
    ∧ next_states b = map next_state drawn
    ∧ dones b = map done drawn.
Proof.
  apply (sample_draws_from_buffer_unchanged Z counter_gen
           (mk 4 (map sample_experience [1; 2; 3])) 2 clear 5).
  - discriminate.
  - unfold size; simpl; lia.
Defined.

(** The claim as written fails on an empty buffer: its size is at least
    the batch size 0, and [sample] has no defined result, the distribution
    being constructed on the range [0 .. -1]. *)
Lemma sample_undefined_on_empty_buffer_for_batch_zero :
  0 ≤ size (mk 4 [])
  ∧ sample Z counter_gen (mk 4 []) 0 clear 5 = None.
Proof. split; [unfold size; simpl; lia|reflexivity]. Qed.

End ReplayBufferFacts.

(** ** The learner: parameters, persistence *)

Section DQNFacts.
Import DQN.

Lemma copy__same_sizes (self src : Tensor Q) :
  sizes self = sizes src → copy_ self src = Some src.
Proof.
  intros H. unfold copy_. rewrite decide_True by exact H.
  destruct src; simpl in *. rewrite H. reflexivity.
Qed.

(** With equal sizes, [copy_weights] makes the target the source. *)
Lemma copy_weights_same_sizes (source target : DQNNet) :
  param_sizes target = param_sizes source →
  copy_weights source target = Some source.
Proof.
  destruct source as [[w1 b1] [w2 b2] [w3 b3]].
  destruct target as [[w1' b1'] [w2' b2'] [w3' b3']].
  unfold param_sizes. simpl. intros H.
  injection H as H1 H2 H3 H4 H5 H6.
  unfold copy_weights, for_each_param. simpl.
  repeat (rewrite copy__same_sizes by assumption; simpl). reflexivity.
Qed.

(** [torch::load] after [torch::save] at the same path restores the saved
    module. *)
Lemma torch_load_save (saved net : DQNNet) (path : string) (fs : FileSystem) :
  torch_load net path (torch_save saved path fs) = Some saved.
Proof.
  unfold torch_load, torch_save. rewrite lookup_insert_eq. simpl.
  destruct saved as [[w1 b1] [w2 b2] [w3 b3]].
  destruct net as [[w1' b1'] [w2' b2'] [w3' b3']].
  reflexivity.
Qed.

(** ** Tensors and the forward pass *)

Lemma rows_of_length {A} (B n : nat) : ∀ d : list A, length (rows_of B n d) = B.
Proof. induction B as [|B IH]; intros d; simpl; [reflexivity|]. by rewrite IH. Qed.

Lemma rows_of_concat {A} (n : nat) (rs : list (list A)) :
  Forall (λ r, length r = n) rs → rows_of (length rs) n (concat rs) = rs.
Proof.
  induction 1 as [|r rs Hr _ IH]; simpl; [reflexivity|].
  rewrite take_app_length', drop_app_length' by done. by rewrite IH.
Qed.

Lemma length_concat_rows {A} (n : nat) (rs : list (list A)) :
  Forall (λ r, length r = n) rs → length (concat rs) = (length rs * n)%nat.
Proof.
  induction 1 as [|r rs Hr _ IH]; simpl; [reflexivity|].
  rewrite length_app, IH, Hr. reflexivity.
Qed.

Lemma fmap_concat_rows {A B} (f : A → B) (rs : list (list A)) :
  f <$> concat rs = concat ((fmap f : list A → list B) <$> rs).
Proof.
  induction rs as [|r rs IH]; simpl; [reflexivity|].
  by rewrite fmap_app, IH.
Qed.

Lemma from_blob_rows {A} (n B : Z) (rs : list (list A)) :
  0 ≤ B → 0 ≤ n → length rs = Z.to_nat B →
  Forall (λ r, length r = Z.to_nat n) rs →
  from_blob (concat rs) [B; n]
    = Some (mkTensor [length rs; Z.to_nat n] (concat rs)).
Proof.
  intros HB Hn Hlen Hrs. unfold from_blob. simpl.
  destruct (Z.leb_spec 0 B); [|lia]. destruct (Z.leb_spec 0 n); [|lia]. simpl.
  pose proof (length_concat_rows _ _ Hrs) as Hc.
  rewrite decide_True by (rewrite Hc, Hlen; lia).
  rewrite take_ge by (rewrite Hc, Hlen; lia).
  by rewrite Hlen.
Qed.

Lemma from_blob_column {A} (B : Z) (l : list A) :
  0 ≤ B → length l = Z.to_nat B →
  from_blob l [B; 1] = Some (mkTensor [length l; 1%nat] l).
Proof.
  intros HB Hlen. unfold from_blob. simpl.
  destruct (Z.leb_spec 0 B); [|lia]. simpl.
  rewrite decide_True by lia. rewrite take_ge by lia.
  rewrite Hlen. do 3 f_equal.
Qed.

Lemma linear_row_length (W : list (list Q)) (b x : list Q) :
  length (linear_row W b x) = (length W `min` length b)%nat.
Proof. unfold linear_row. apply length_zip_with. Qed.

(** A linear layer acts on each row of its input. *)
Lemma Linear_forward_rows (l : Linear) (B out n : nat) (rs : list (list Q)) :
  sizes (weight l) = [out; n] → sizes (bias l) = [out] →
  length (data (bias l)) = out →
  length rs = B → Forall (λ r, length r = n) rs →
  Linear_forward l (mkTensor [B; n] (concat rs))
    = Some (mkTensor [B; out]
              (concat (linear_row (Linear_rows l) (data (bias l)) <$> rs)))
  ∧ Forall (λ r, length r = out)
           (linear_row (Linear_rows l) (data (bias l)) <$> rs).
Proof.
  intros Hw Hb Hbl <- Hrs. unfold Linear_forward. simpl. rewrite Hw, Hb.
  rewrite decide_True by done. rewrite rows_of_concat by done.
  split; [reflexivity|]. apply Forall_fmap, Forall_forall. intros r _. simpl.
  rewrite linear_row_length. unfold Linear_rows. rewrite Hw, rows_of_length.
  lia.
Qed.

Lemma tensor_map_relu_rows (sz : list nat) (rs : list (list Q)) :
  tensor_map relu (mkTensor sz (concat rs))
    = mkTensor sz (concat (relu_row <$> rs)).
Proof. unfold tensor_map. simpl. by rewrite fmap_concat_rows. Qed.

Lemma relu_rows_length (n : nat) (rs : list (list Q)) :
  Forall (λ r, length r = n) rs → Forall (λ r, length r = n) (relu_row <$> rs).
Proof.
  intros H. apply Forall_fmap. eapply Forall_impl; [exact H|].
  intros r Hr. simpl. unfold relu_row. by rewrite length_fmap.
Qed.

Lemma forward_rows (net : DQNNet) (state_size action_size : Z) (B : nat)
    (rs : list (list Q)) :
  net_wf state_size action_size net →
  length rs = B →
  Forall (λ r, length r = Z.to_nat state_size) rs →
  forward net (mkTensor [B; Z.to_nat state_size] (concat rs))
    = Some (mkTensor [B; Z.to_nat action_size]
              (concat (forward_row net <$> rs)))
  ∧ Forall (λ r, length r = Z.to_nat action_size) (forward_row net <$> rs).
Proof.
  intros [Hsz Hdata] HB Hrs.
  destruct net as [[w1 b1] [w2 b2] [w3 b3]].
  unfold param_sizes, DQNNet_sizes in Hsz. simpl in Hsz.
  injection Hsz as Hw1 Hb1 Hw2 Hb2 Hw3 Hb3.
  simpl in Hdata. repeat (apply Forall_cons in Hdata as [? Hdata]).
  simpl in *.
  assert (Hl1 : length (data b1) = 64%nat) by (rewrite Hb1 in *; simpl in *; lia).
  assert (Hl2 : length (data b2) = 64%nat) by (rewrite Hb2 in *; simpl in *; lia).
  assert (Hl3 : length (data b3) = Z.to_nat action_size)
    by (rewrite Hb3 in *; simpl in *; lia).
  unfold forward, forward_row. simpl.
  destruct (Linear_forward_rows (mkLinear w1 b1) B 64 (Z.to_nat state_size) rs
              Hw1 Hb1 Hl1 HB Hrs) as [E1 F1].
  cbn [bias] in *. rewrite E1. simpl. rewrite tensor_map_relu_rows.
  apply relu_rows_length in F1.
  match type of F1 with Forall _ ?l =>
    assert (HB1 : length l = B) by (by rewrite !length_fmap) end.
  destruct (Linear_forward_rows (mkLinear w2 b2) B 64 64 _ Hw2 Hb2 Hl2 HB1 F1)
    as [E2 F2].
  cbn [bias] in *. rewrite E2. simpl. rewrite tensor_map_relu_rows.
  apply relu_rows_length in F2.
  match type of F2 with Forall _ ?l =>
    assert (HB2 : length l = B) by (by rewrite !length_fmap) end.
  destruct (Linear_forward_rows (mkLinear w3 b3) B (Z.to_nat action_size) 64 _
              Hw3 Hb3 Hl3 HB2 F2) as [E3 F3].
  cbn [bias] in *. rewrite E3. simpl in *. unfold relu_row in *.
  rewrite <- !list_fmap_compose in *.
  split; [reflexivity|]. exact F3.
Qed.

(** ** Arg-max and gather *)

Lemma argmax_nonempty (l : list Q) : l ≠ [] → argmax l = Some (argmax_total l).
Proof. destruct l; [congruence|reflexivity]. Qed.

Lemma argmax_from_spec (l : list Q) : ∀ (i bi : nat) (b : Q),
  (b <= snd (argmax_from l i bi b))%Q
  ∧ Forall (λ q, (q <= snd (argmax_from l i bi b))%Q) l
  ∧ ((fst (argmax_from l i bi b) = bi ∧ snd (argmax_from l i bi b) = b)
     ∨ ∃ j, fst (argmax_from l i bi b) = (i + j)%nat
            ∧ l !! j = Some (snd (argmax_from l i bi b))).
Proof.
  induction l as [|x l IH]; intros i bi b; simpl.
  - split; [apply Qle_refl|]. split; [constructor|]. by left.
  - destruct (Qltb b x) eqn:Hlt.
    + apply Qltb_true in Hlt.
      destruct (IH (S i) i x) as (Hx & Hall & Hidx).
      split; [eapply Qle_trans; [apply Qlt_le_weak, Hlt|exact Hx]|].
      split; [constructor; assumption|].
      right. destruct Hidx as [[Hi Hv]|(j & Hi & Hv)].
      * exists 0%nat. rewrite Hi, Hv. simpl. split; [lia|reflexivity].
      * exists (S j). rewrite Hi. simpl. split; [lia|exact Hv].
    + apply Qltb_false in Hlt.
      destruct (IH (S i) bi b) as (Hb & Hall & Hidx).
      split; [exact Hb|].
      split; [constructor; [eapply Qle_trans; eassumption|assumption]|].
      destruct Hidx as [[Hi Hv]|(j & Hi & Hv)]; [by left|].
      right. exists (S j). rewrite Hi. simpl. split; [lia|exact Hv].
Qed.

(** The index chosen by [argmax] holds the returned value, and no entry
    of the row is greater. *)
Lemma argmax_total_spec (l : list Q) :
  l ≠ [] →
  l !! fst (argmax_total l) = Some (snd (argmax_total l))
  ∧ ∀ j q, l !! j = Some q → (q <= snd (argmax_total l))%Q.
Proof.
  destruct l as [|x l]; [congruence|]. intros _. simpl.
  destruct (argmax_from_spec l 1 0 x) as (Hx & Hall & Hidx).
  split.
  - destruct Hidx as [[Hi Hv]|(j & Hi & Hv)].
    + rewrite Hi, Hv. reflexivity.
    + rewrite Hi. simpl. exact Hv.
  - intros [|j] q Hq; simpl in Hq.
    + by injection Hq as <-.
    + rewrite Forall_forall in Hall. apply Hall.
      eapply list_elem_of_lookup_2; exact Hq.
Qed.

Lemma mapM_fmap_ext {A B C} (f : B → option C) (h : A → B) (g : A → C)
    (l : list A) :
  Forall (λ x, f (h x) = Some (g x)) l → mapM f (h <$> l) = Some (g <$> l).
Proof.
  intros H. apply mapM_Some_2. apply Forall2_fmap.
  induction H; constructor; assumption.
Qed.

Lemma zip_fmap_same {A B C} (f : A → B) (g : A → C) (l : list A) :
  zip (f <$> l) (g <$> l) = (λ x, (f x, g x)) <$> l.
Proof.
  induction l as [|x l IH]; [reflexivity|]. simpl. f_equal. exact IH.
Qed.

Lemma max_dim1_rows (B A : nat) (rs : list (list Q)) :
  length rs = B → (0 < A)%nat → Forall (λ r, length r = A) rs →
  max_dim1 (mkTensor [B; A] (concat rs))
    = Some (mkTensor [B; 1%nat] ((λ r, snd (argmax_total r)) <$> rs),
            mkTensor [B; 1%nat] ((λ r, Z.of_nat (fst (argmax_total r))) <$> rs)).
Proof.
  intros <- HA Hrs. unfold max_dim1. simpl.
  rewrite rows_of_concat by done.
  rewrite <- (list_fmap_id rs) at 1.
  rewrite (mapM_fmap_ext argmax id argmax_total).
  - simpl. rewrite <- !list_fmap_compose. reflexivity.
  - eapply Forall_impl; [exact Hrs|]. intros r Hr. simpl.
    apply argmax_nonempty. destruct r; simpl in *; [lia|congruence].
Qed.

Lemma gather_dim1_rows (B A : nat) (rs : list (list Q)) (idx : list Z) :
  length rs = B → Forall (λ r, length r = A) rs →
  gather_dim1 (mkTensor [B; A] (concat rs)) (mkTensor [B; 1%nat] idx)
    = (d ← mapM gather_row (zip rs idx); Some (mkTensor [B; 1%nat] d)).
Proof.
  intros <- Hrs. unfold gather_dim1. simpl.
  rewrite decide_True by done. by rewrite rows_of_concat.
Qed.

(** ** Training *)

Lemma soft_update_tensor {R} (tau : Q) (p t : Tensor Q)
    (k : Tensor Q → option R) :
  sizes p = sizes t →
  (tensor_add (scalar_mul tau p) (scalar_mul (1 - tau)%Q t)
     ≫= λ b, copy_ t b ≫= k)
    = k (blend tau p t).
Proof.
  intros H. unfold tensor_add, tensor_zip, scalar_mul, tensor_map, copy_.
  simpl. rewrite decide_True by exact H. simpl.
  rewrite decide_True by (symmetry; exact H). reflexivity.
Qed.

Lemma blend_lookup (tau : Q) (p t : Tensor Q) (i : nat) (x y : Q) :
  data p !! i = Some x → data t !! i = Some y →
  data (blend tau p t) !! i = Some (tau * x + (1 - tau) * y)%Q.
Proof.
  intros Hx Hy. unfold blend. simpl.
  rewrite lookup_zip_with, !list_lookup_fmap, Hx, Hy. reflexivity.
Qed.

Section TrainFacts.
Variable AdamState : Type.
Variable backward :
  DQNNet → Tensor Q → Tensor Z → Tensor Q → list (string * Tensor Q).
Variable clip_grad_norm_ :
  list (string * Tensor Q) → Q → list (string * Tensor Q).
Variable adam_step :
  list Q → AdamState → DQNNet → list (string * Tensor Q) → DQNNet * AdamState.

(** The Adam step updates the parameter tensors in place: they keep their
    sizes and lengths. *)
Hypothesis adam_step_wf : ∀ state_size action_size lrs st net grads,
  net_wf state_size action_size net →
  net_wf state_size action_size (fst (adam_step lrs st net grads)).

Lemma soft_update_target_spec (d : DQN.t AdamState) (tau : Q) :
  param_sizes (policy_net_ _ d) = param_sizes (target_net_ _ d) →
  soft_update_target _ d tau
    = Some (with_target _ d (blend_net tau (policy_net_ _ d) (target_net_ _ d))).
Proof.
  destruct d as [ss acs g policy target opt lr]. simpl.
  destruct policy as [[w1 b1] [w2 b2] [w3 b3]].
  destruct target as [[w1' b1'] [w2' b2'] [w3' b3']].
  unfold param_sizes. simpl. intros H.
  injection H as H1 H2 H3 H4 H5 H6.
  unfold soft_update_target, for_each_param, with_target, blend_net. simpl.
  repeat (rewrite soft_update_tensor by assumption; simpl).
  reflexivity.
Qed.

Lemma train_spec (d : DQN.t AdamState) (states : list (list Q))
    (actions : list Z) (rewards : list Q) (next_states : list (list Q))
    (dones : list bool) (batch_size : Z) :
  dqn_wf d →
  batch_wf d states actions rewards next_states dones batch_size →
  ∃ cur d',
    mapM gather_row (zip (forward_row (policy_net_ _ d) <$> states) actions)
      = Some cur
    ∧ train _ backward clip_grad_norm_ adam_step d states actions rewards
        next_states dones batch_size
      = Some
          ((foldr Qplus 0
              (zip_with squared_error cur
                 (zip_with Qplus rewards
                    (zip_with Qmult
                       (Qmult (gamma_ _ d) <$> (next_value d <$> next_states))
                       (Qminus 1 <$> (float_of_bool <$> dones)))))
            / inject_Z batch_size)%Q,
           d')
    ∧ net_wf (state_size_ _ d) (action_size_ _ d) (policy_net_ _ d')
    ∧ target_net_ _ d'
      = blend_net 0.005%Q (policy_net_ _ d') (target_net_ _ d).
Proof.
  intros (Hss & Has & Hp & Ht) (HB & Hs & Hsl & Ha & Har & Hr & Hn & Hnl & Hd).
  set (B := Z.to_nat batch_size) in *.
  set (P := forward_row (policy_net_ _ d)).
  set (T := forward_row (target_net_ _ d)).
  assert (Hcur : is_Some (mapM gather_row (zip (P <$> states) actions))).
  { apply mapM_is_Some, Forall_forall. intros [row a] Hin. simpl.
    apply list_elem_of_lookup_1 in Hin as [i Hi].
    apply lookup_zip_with_Some in Hi as (row' & a' & Heq & Hrow & Hact).
    injection Heq as Er Ea. subst row' a'.
    destruct (forward_rows _ _ _ B states Hp Hs Hsl) as [_ FP].
    rewrite Forall_forall in FP. rewrite Forall_forall in Har.
    pose proof (FP row (list_elem_of_lookup_2 _ _ _ Hrow)) as Hlen.
    pose proof (Har a (list_elem_of_lookup_2 _ _ _ Hact)) as Hrange.
    unfold gather_row. simpl.
    destruct (Z.ltb_spec a 0); [lia|].
    apply lookup_lt_is_Some_2. lia. }
  destruct Hcur as [cur Hcur]. exists cur.
  unfold train.
  rewrite (from_blob_rows (state_size_ _ d) batch_size states) by (done || lia).
  rewrite (from_blob_column batch_size actions) by (done || lia).
  rewrite (from_blob_column batch_size rewards) by (done || lia).
  rewrite (from_blob_rows (state_size_ _ d) batch_size next_states) by (done || lia).
  rewrite (from_blob_column batch_size (float_of_bool <$> dones))
    by (rewrite ?length_fmap; done || lia).
  rewrite length_fmap, Hs, Ha, Hr, Hn, Hd. simpl.
  destruct (forward_rows _ _ _ B states Hp Hs Hsl) as [EP FP].
  destruct (forward_rows _ _ _ B next_states Hp Hn Hnl) as [EPn FPn].
  destruct (forward_rows _ _ _ B next_states Ht Hn Hnl) as [ETn FTn].
  fold P in EP, FP, EPn, FPn. fold T in ETn, FTn.
  rewrite EP. simpl.
  rewrite (gather_dim1_rows B (Z.to_nat (action_size_ _ d)))
    by (rewrite ?length_fmap; done).
  rewrite Hcur. simpl.
  unfold double_dqn_target. rewrite EPn. simpl.
  rewrite (max_dim1_rows B (Z.to_nat (action_size_ _ d)))
    by (rewrite ?length_fmap; done || lia).
  simpl. rewrite ETn. simpl.
  rewrite (gather_dim1_rows B (Z.to_nat (action_size_ _ d)))
    by (rewrite ?length_fmap; done).
  rewrite <- !list_fmap_compose, zip_fmap_same.
  rewrite (mapM_fmap_ext gather_row _ (next_value d)).
  2:{ apply Forall_forall. intros s Hin. unfold gather_row, next_value. simpl.
      fold P T.
      rewrite Forall_fmap, Forall_forall in FPn.
      rewrite Forall_fmap, Forall_forall in FTn.
      pose proof (FPn s Hin) as HlP. pose proof (FTn s Hin) as HlT.
      simpl in HlP, HlT.
      destruct (argmax_total_spec (P s)) as [Hk _].
      { destruct (P s); simpl in *; [lia|congruence]. }
      apply lookup_lt_Some in Hk.
      destruct (Z.ltb_spec (Z.of_nat (argmax_total (P s)).1) 0); [lia|].
      rewrite Nat2Z.id.
      destruct (lookup_lt_is_Some_2 (T s) (argmax_total (P s)).1) as [v Hv];
        [lia|].
      rewrite Hv. reflexivity. }
  simpl.
  unfold tensor_mul, tensor_add, tensor_zip, scalar_mul, scalar_sub, tensor_map.
  simpl. rewrite !decide_True by done. simpl.
  unfold mse_loss. simpl. rewrite decide_True by done. simpl.
  destruct (adam_step _ _ _ _) as [policy' st'] eqn:Hstep.
  pose proof (adam_step_wf (state_size_ _ d) (action_size_ _ d)
    (param_groups _ (optimizer_ _ d)) (adam_state _ (optimizer_ _ d))
    (policy_net_ _ d)
    (clip_grad_norm_
       (backward (policy_net_ AdamState d)
          (mkTensor [B; Z.to_nat (state_size_ _ d)] (concat states))
          (mkTensor [B; 1%nat] actions)
          (mkTensor [B; 1%nat]
             (zip_with Qplus rewards
                (zip_with Qmult
                   (Qmult (gamma_ _ d) <$> (next_value d <$> next_states))
                   (Qminus 1 <$> (float_of_bool <$> dones))))))
       1%Q) Hp) as Hwf'.
  rewrite Hstep in Hwf'. simpl in Hwf'.
  rewrite soft_update_target_spec.
  2:{ simpl. destruct Hwf' as [-> _]. destruct Ht as [-> _]. reflexivity. }
  rewrite ?decide_True by done. simpl.
  replace (Z.of_nat (B * 1)) with batch_size by (unfold B; lia).
  rewrite <- ?list_fmap_compose.
  eexists. split; [reflexivity|]. split; [reflexivity|].
  simpl. split; [exact Hwf'|reflexivity].
Qed.

(** The forward pass on one observation. *)
Lemma forward_single (net : DQNNet) (state_size action_size : Z) (s : list Q) :
  net_wf state_size action_size net →
  length s = Z.to_nat state_size →
  forward net (mkTensor [1%nat; Z.to_nat state_size] s)
    = Some (mkTensor [1%nat; Z.to_nat action_size] (forward_row net s))
  ∧ length (forward_row net s) = Z.to_nat action_size.
Proof.
  intros Hwf Hlen.
  destruct (forward_rows net state_size action_size 1 [s] Hwf eq_refl) as [E F].
  { by constructor. }
  simpl in E, F. rewrite !app_nil_r in E. split; [exact E|].
  by apply Forall_cons in F as [? _].
Qed.


Lemma blend_spec (tau : Q) (p t : Tensor Q) :
  length (data p) = length (data t) →
  sizes (blend tau p t) = sizes t
  ∧ length (data (blend tau p t)) = length (data t)
  ∧ ∀ i y, data t !! i = Some y →
      ∃ x, data p !! i = Some x
        ∧ data (blend tau p t) !! i = Some (tau * x + (1 - tau) * y)%Q.
Proof.
  intros Hlen. split; [reflexivity|]. split.
  - unfold blend. simpl. rewrite length_zip_with, !length_fmap. lia.
  - intros i y Hy.
    destruct (lookup_lt_is_Some_2 (data p) i) as [x Hx].
    { apply lookup_lt_Some in Hy. lia. }
    exists x. split; [exact Hx|]. by apply blend_lookup.
Qed.

(** C2. On every well-formed batch [train] returns, and afterwards each
    target parameter has its former sizes and holds, elementwise, the value
    [0.005 * p + (1 - 0.005) * t] for the policy parameter [p] left by the
    optimiser step and the target parameter [t] from before the call: the
    target network is a function of these two alone. *)
Theorem train_soft_updates_target (d : DQN.t AdamState) (states : list (list Q))
    (actions : list Z) (rewards : list Q) (next_states : list (list Q))
    (dones : list bool) (batch_size : Z) :
  dqn_wf d →
  batch_wf d states actions rewards next_states dones batch_size →
  ∃ loss d',
    train _ backward clip_grad_norm_ adam_step d states actions rewards
      next_states dones batch_size = Some (loss, d')
    ∧ ∀ key t,
        dict_lookup key (named_parameters (target_net_ _ d)) = Some t →
        ∃ p t',
          dict_lookup key (named_parameters (policy_net_ _ d')) = Some p
          ∧ dict_lookup key (named_parameters (target_net_ _ d')) = Some t'
          ∧ sizes t' = sizes t
          ∧ length (data t') = length (data t)
          ∧ ∀ i y, data t !! i = Some y →
              ∃ x, data p !! i = Some x
                ∧ data t' !! i = Some (0.005 * x + (1 - 0.005) * y)%Q.
Proof.
  intros Hwf Hb.
  destruct (train_spec d states actions rewards next_states dones batch_size
              Hwf Hb) as (cur & d' & _ & Htrain & [Hsz Hdat] & Htgt).
  eexists _, d'. split; [exact Htrain|].
  destruct Hwf as (_ & _ & _ & [Ht Htd]).
  rewrite Htgt. clear Htrain Htgt.
  destruct (policy_net_ _ d') as [[w1 b1] [w2 b2] [w3 b3]].
  destruct (target_net_ _ d) as [[w1' b1'] [w2' b2'] [w3' b3']].
  unfold param_sizes in Hsz, Ht. rewrite <- Ht in Hsz. simpl in Hsz.
  injection Hsz as H1 H2 H3 H4 H5 H6.
  simpl in Hdat, Htd.
  repeat (apply Forall_cons in Hdat as [? Hdat]).
  repeat (apply Forall_cons in Htd as [? Htd]).
  simpl in * |-.
  intros key t Hkey.
  unfold named_parameters, blend_net in Hkey |- *.
  cbn [dict_lookup fc1 fc2 fc3 weight bias] in Hkey |- *.
  repeat match type of Hkey with
  | (if String.eqb ?k key then _ else _) = _ =>
      destruct (String.eqb k key);
        [injection Hkey as <-; eexists _, _;
         split; [reflexivity|]; split; [reflexivity|];
         apply blend_spec; congruence|]
  end.
  discriminate.
Qed.

End TrainFacts.

Section Persistence.
Variable AdamState : Type.
Variable adam_init : AdamState.

(** C8. A learner saved with [save_model] and loaded with [load_model]
    into a freshly constructed learner of the same dimensions: the file
    holds the parameters of the policy network and nothing else, the load
    succeeds, the loaded policy network is the saved one, [predict] gives
    the same answer on every observation, and the loaded target network is
    the loaded policy network. *)
Theorem save_load_roundtrip (d : DQN.t AdamState) (state_size action_size : Z)
    (learning_rate gamma : Q) (policy_init target_init : DQNNet)
    (path : string) (fs : FileSystem) :
  action_size_ _ d = action_size →
  param_sizes (policy_net_ _ d) = DQNNet_sizes state_size action_size →
  param_sizes policy_init = DQNNet_sizes state_size action_size →
  param_sizes target_init = DQNNet_sizes state_size action_size →
  ∃ fresh loaded,
    DQN.new _ adam_init state_size action_size learning_rate gamma
      policy_init target_init = Some fresh
    ∧ save_model _ d path fs !! path = Some (named_parameters (policy_net_ _ d))
    ∧ load_model _ fresh path (save_model _ d path fs) = Some loaded
    ∧ policy_net_ _ loaded = policy_net_ _ d
    ∧ target_net_ _ loaded = policy_net_ _ loaded
    ∧ ∀ obs, predict _ loaded obs = predict _ d obs.
Proof.
  intros Has Hd Hp Ht.
  unfold DQN.new, load_model, save_model.
  rewrite (copy_weights_same_sizes policy_init target_init) by congruence.
  simpl. eexists. eexists. split; [reflexivity|].
  split; [unfold torch_save; apply lookup_insert_eq|].
  rewrite torch_load_save. simpl.
  rewrite (copy_weights_same_sizes (policy_net_ _ d) policy_init) by congruence.
  simpl. split; [reflexivity|]. split; [reflexivity|]. split; [reflexivity|].
  intros obs. unfold predict. simpl. rewrite Has. reflexivity.
Qed.

End Persistence.

Lemma example_adam_step_wf (state_size action_size : Z) (lrs : list Q)
    (st : unit) (net : DQNNet) (grads : list (string * Tensor Q)) :
  net_wf state_size action_size net →
  net_wf state_size action_size (fst (example_adam_step lrs st net grads)).
Proof.
  intros [Hs Hd]. destruct net as [[w1 b1] [w2 b2] [w3 b3]].
  split; [exact Hs|]. simpl in *.
  repeat (apply Forall_cons in Hd as [? Hd]).
  repeat constructor; simpl in *; rewrite length_fmap; assumption.
Qed.

Lemma save_load_roundtrip_witness :
  ∃ fresh loaded,
    DQN.new unit tt 2 3 0.001%Q 0.99%Q (example_net 2 3 5) (example_net 2 3 6)
      = Some fresh
    ∧ save_model _ (example_dqn 1 2) "models/best_time.pt" ∅
        !! "models/best_time.pt"
      = Some (named_parameters (policy_net_ _ (example_dqn 1 2)))
    ∧ load_model _ fresh "models/best_time.pt"
        (save_model _ (example_dqn 1 2) "models/best_time.pt" ∅) = Some loaded
    ∧ policy_net_ _ loaded = policy_net_ _ (example_dqn 1 2)
    ∧ target_net_ _ loaded = policy_net_ _ loaded
    ∧ ∀ obs, predict _ loaded obs = predict _ (example_dqn 1 2) obs.
Proof.
  apply (save_load_roundtrip unit tt (example_dqn 1 2) 2 3 0.001%Q 0.99%Q
           (example_net 2 3 5) (example_net 2 3 6) "models/best_time.pt" ∅);
    reflexivity.
Defined.

Lemma example_dqn_wf : dqn_wf (example_dqn 1 2).
Proof.
  unfold dqn_wf, net_wf. simpl.
  repeat split; try lia; try reflexivity; repeat constructor.
Qed.

Lemma example_batch_wf :
  batch_wf (example_dqn 1 2) example_states example_actions
    example_rewards example_next_states example_dones 2.
Proof.
  unfold batch_wf. simpl.
  repeat split; try lia; try reflexivity; repeat constructor; simpl; lia.
Qed.


Lemma train_soft_updates_target_witness :
  ∃ loss d',
    train unit example_backward example_clip example_adam_step
      (example_dqn 1 2) example_states example_actions example_rewards
      example_next_states example_dones 2 = Some (loss, d')
    ∧ ∀ key t,
        dict_lookup key (named_parameters (example_net 2 3 2)) = Some t →
        ∃ p t',
          dict_lookup key (named_parameters (policy_net_ _ d')) = Some p
          ∧ dict_lookup key (named_parameters (target_net_ _ d')) = Some t'
          ∧ sizes t' = sizes t
          ∧ length (data t') = length (data t)
          ∧ ∀ i y, data t !! i = Some y →
              ∃ x, data p !! i = Some x
                ∧ data t' !! i = Some (0.005 * x + (1 - 0.005) * y)%Q.
Proof.
  exact (train_soft_updates_target unit example_backward example_clip
           example_adam_step example_adam_step_wf (example_dqn 1 2)
           example_states example_actions example_rewards example_next_states
           example_dones 2 example_dqn_wf example_batch_wf).
Defined.

End DQNFacts.

(** ** The environment: speed *)

Section VehicleFacts.
Import Trainer.

Lemma clamp_speed_range (s m : Q) :
  (0 <= m)%Q →
  (- m * 0.5 <= clamp_speed s m <= m)%Q.
Proof.
  intros Hm. unfold clamp_speed.
  destruct (Qltb m s) eqn:H1;
    [apply Qltb_true in H1|apply Qltb_false in H1];
    match goal with |- context [Qltb ?p ?q] => destruct (Qltb p q) eqn:H2 end;
    try apply Qltb_true in H2; try apply Qltb_false in H2; lra.
Qed.

Section Physics.
Variable cos sin : Q → Q.
Variable trackImage : Image.

(** One pass through the physics, from any vehicle state: the clamp leaves
    the speed within the bounds of the surface, and with or without the
    wall bounce the speed ends in [[-150, 300]]. *)
Lemma physics_step_speed_range (dt : Q) (action : Z) (v : Vehicle) :
  (-150 <= speed (vehicle (physics_step cos sin trackImage dt action v)) <= 300)%Q.
Proof.
  unfold physics_step.
  destruct (action_inputs action) as [accelerationInput steeringInput].
  set (m := if Qltb 2 (surface_friction trackImage (position v))
            then (MAX_SPEED * 0.5)%Q else MAX_SPEED).
  match goal with |- context [clamp_speed ?s m] => set (s0 := s) end.
  assert (Hm : (0 <= m)%Q ∧ (m <= 300)%Q).
  { unfold m, MAX_SPEED. destruct (Qltb _ _); lra. }
  pose proof (clamp_speed_range s0 m (proj1 Hm)) as Hc.
  destruct Hm as [Hm0 Hm1].
  match goal with |- context [if ?c then mkPhysics _ _ _ else _] =>
    destruct c end; simpl; lra.
Qed.

Variable sqrtf : Q → Q.

(** What an iteration of the training loop leaves of the vehicle and of
    the race: either both as they were (the stuck detector broke out), or
    the vehicle after the physics and the race after the checkpoint
    block. *)
Lemma train_step_inv (e e' : TrainEpisode) (action : Z) (ex : LoopExit) :
  train_step cos sin sqrtf trackImage e action = Some (e', ex) →
  (train_vehicle e' = train_vehicle e ∧ train_race e' = train_race e)
  ∨ (train_vehicle e'
       = vehicle (physics_step cos sin trackImage DT action (train_vehicle e))
     ∧ ∃ stmts reward,
         checkpoint_block true (train_race e) (position (train_vehicle e))
           (position (train_vehicle e')) = Some stmts
         ∧ train_race e' = fst (exec stmts (train_race e, reward))).
Proof.
  unfold train_step. intros H.
  destruct (stuck_check sqrtf e) as [[sc lp]|].
  - right.
    unbind H. unbind H.
    destruct (checkpoint_block _ _ _ _) as [stmts|] eqn:Hb; simpl in H;
      [|discriminate].
    match type of H with context [exec stmts ?s] =>
      destruct (exec stmts s) as [race' reward'] eqn:Hexec end.
    unbind H. injection H as <- _. simpl.
    split; [reflexivity|]. eexists _, _. split; [exact Hb|].
    rewrite Hexec. reflexivity.
  - left. injection H as <- _. by split.
Qed.

Lemma eval_step_inv (dt : Q) (e e' : EvalEpisode) (action : Z) :
  eval_step cos sin trackImage dt e action = Some e' →
  eval_vehicle e'
    = vehicle (physics_step cos sin trackImage dt action (eval_vehicle e))
  ∧ steps e' = steps e + 1
  ∧ ∃ stmts,
      checkpoint_block false (eval_race e) (position (eval_vehicle e))
        (position (eval_vehicle e')) = Some stmts
      ∧ eval_race e' = fst (exec stmts (eval_race e, 0%Q)).
Proof.
  unfold eval_step. intros H.
  destruct (checkpoint_block _ _ _ _) as [stmts|] eqn:Hb; simpl in H;
    [|discriminate].
  injection H as <-. simpl.
  split; [reflexivity|]. split; [reflexivity|]. by exists stmts.
Qed.

(** A property of the training episode kept by every iteration holds all
    along the trace. *)
Lemma train_trace_Forall (P : TrainEpisode → Prop) :
  (∀ e e' action ex,
     P e → train_step cos sin sqrtf trackImage e action = Some (e', ex) → P e') →
  ∀ actions e, P e →
    Forall P (train_trace cos sin sqrtf trackImage actions e).
Proof.
  intros Hstep actions.
  induction actions as [|action rest IH]; intros e He; simpl; [constructor|].
  destruct (_ || _); [constructor|].
  destruct (train_step _ _ _ _ e action) as [[e' ex]|] eqn:Hs; [|constructor].
  pose proof (Hstep _ _ _ _ He Hs) as He'.
  destruct ex; constructor; auto.
Qed.

Lemma eval_trace_Forall (P : EvalEpisode → Prop) (dt : Q) (max_steps : Z) :
  (∀ e e' action,
     P e → eval_step cos sin trackImage dt e action = Some e' → P e') →
  ∀ actions e, P e →
    Forall P (eval_trace cos sin trackImage dt max_steps actions e).
Proof.
  intros Hstep actions.
  induction actions as [|action rest IH]; intros e He; simpl; [constructor|].
  destruct (_ || _); [constructor|].
  destruct (eval_step _ _ _ _ e action) as [e'|] eqn:Hs; [|constructor].
  pose proof (Hstep _ _ _ He Hs) as He'.
  constructor; auto.
Qed.

(** C10. The clamp leaves the speed between minus half the maximum speed
    of the surface and that maximum; one pass through the physics, with or
    without the wall bounce, leaves the speed in [[-150, 300]] whatever the
    vehicle state before; and so the speed is in [[-150, 300]] at the start
    and after every iteration of the training loop and of the evaluation
    loop. *)
Theorem speed_within_bounds (checkpointsTemplate : list Checkpoint)
    (dt : Q) (eval_max_steps : Z) (actions : list Z) :
  (∀ s m, (0 <= m)%Q → (- m * 0.5 <= clamp_speed s m <= m)%Q)
  ∧ (∀ action v,
       speed_in_range (vehicle (physics_step cos sin trackImage dt action v)))
  ∧ Forall (λ e, speed_in_range (train_vehicle e))
      (train_states cos sin sqrtf trackImage checkpointsTemplate actions)
  ∧ Forall (λ e, speed_in_range (eval_vehicle e))
      (eval_states cos sin trackImage checkpointsTemplate dt eval_max_steps
         actions).
Proof.
  unfold train_states, eval_states.
  assert (H0 : speed_in_range vehicle_reset).
  { unfold speed_in_range. simpl. lra. }
  split; [exact clamp_speed_range|].
  split; [intros; apply physics_step_speed_range|].
  split.
  - constructor; [exact H0|].
    apply train_trace_Forall; [|exact H0].
    intros e e' action ex He Hs.
    apply train_step_inv in Hs as [[-> _]|[-> _]]; [exact He|].
    apply physics_step_speed_range.
  - constructor; [exact H0|].
    apply eval_trace_Forall; [|exact H0].
    intros e e' action He Hs.
    apply eval_step_inv in Hs as [-> _].
    apply physics_step_speed_range.
Qed.

End Physics.
End VehicleFacts.

(** ** The checkpoint and lap state machine *)

Section RaceFacts.
Import Trainer.

Lemma race_reset_inv (checkpointsTemplate : list Checkpoint) :
  (2 ≤ length checkpointsTemplate)%nat →
  race_inv (length checkpointsTemplate) (race_reset checkpointsTemplate).
Proof.
  intros Hn. unfold race_inv, race_reset, finish_flag. simpl.
  rewrite length_fmap. split; [reflexivity|]. split; [lia|].
  destruct checkpointsTemplate; reflexivity.
Qed.

Lemma exec_app (l1 l2 : list Stmt) (s : Race * Q) :
  exec (l1 ++ l2) s = exec l2 (exec l1 s).
Proof. unfold exec. apply foldl_app. Qed.

Lemma exec_trace_app (l1 l2 : list Stmt) (s : Race * Q) :
  exec_trace (l1 ++ l2) s = exec_trace l1 s ++ exec_trace l2 (exec l1 s).
Proof.
  revert s. induction l1 as [|f l1 IH]; intros s; simpl; [reflexivity|].
  by rewrite IH.
Qed.

Lemma exec_keeps_clear (stmts : list Stmt) :
  Forall keeps_clear stmts →
  ∀ s, finish_flag (fst s) = false →
    finish_flag (fst (exec stmts s)) = false
    ∧ Forall (λ mid, finish_flag (fst mid) = false) (exec_trace stmts s).
Proof.
  induction 1 as [|f stmts Hf _ IH]; intros s Hs; simpl.
  - split; [exact Hs|constructor].
  - destruct (IH (f s) (Hf s Hs)) as [H1 H2].
    split; [exact H1|]. constructor; [exact (Hf s Hs)|exact H2].
Qed.

Lemma set_crossed_keeps_clear (i : nat) (v : bool) :
  i ≠ 0%nat ∨ v = false → keeps_clear (set_crossed i v).
Proof.
  intros Hiv [race rwd] Hs. unfold finish_flag in *. simpl in *.
  destruct (checkpoints race) as [|cp cps]; [reflexivity|].
  destruct i as [|i]; simpl; [|exact Hs].
  destruct Hiv as [Hi|Hv]; [congruence|rewrite Hv; reflexivity].
Qed.

Lemma set_currentLap_keeps_clear (f : Z → Z) : keeps_clear (set_currentLap f).
Proof. intros s Hs. exact Hs. Qed.

Lemma set_nextCheckpoint_keeps_clear (f : Race → Z) :
  keeps_clear (set_nextCheckpoint f).
Proof. intros s Hs. exact Hs. Qed.

Lemma reward_stmt_keeps_clear (training : bool) (q : Q) :
  Forall keeps_clear (reward_stmt training q).
Proof.
  destruct training; simpl; repeat constructor. intros s Hs. exact Hs.
Qed.

(** The reset loop clears every flag and touches nothing else. *)
Lemma exec_reset_crossed (todo : list Checkpoint) :
  ∀ (done : list Checkpoint) (lap next : Z) (fin : bool) (rwd : Q),
  exec ((λ i, set_crossed i false) <$> seq (length done) (length todo))
       (mkRace (done ++ todo) lap next fin, rwd)
  = (mkRace (done ++ (set_crossed_flag false <$> todo)) lap next fin, rwd).
Proof.
  induction todo as [|cp todo IH]; intros done lap next fin rwd.
  - reflexivity.
  - simpl. unfold set_crossed at 2. simpl.
    replace (length done) with (length done + 0)%nat at 2 by lia.
    rewrite alter_app_r. simpl.
    replace (S (length done)) with (length (done ++ [set_crossed_flag false cp]))
      by (rewrite length_app; simpl; lia).
    rewrite (cons_middle _ done todo).
    rewrite app_assoc. unfold exec in IH |- *. rewrite IH.
    rewrite <- app_assoc. reflexivity.
Qed.

Lemma set_crossed_flag_idemp (v : bool) (cps : list Checkpoint) (i : nat) :
  set_crossed_flag false <$> alter (set_crossed_flag v) i cps
  = set_crossed_flag false <$> cps.
Proof.
  revert i. induction cps as [|cp cps IH]; intros [|i]; simpl;
    try reflexivity.
  f_equal. apply IH.
Qed.

(** The statements of a lap completion: the flags end up all clear, the
    lap count one higher, the next checkpoint 1. *)
Lemma lap_completion_exec (training : bool) (race : Race) (rwd : Q)
    (stmts : list Stmt) :
  stmts = [set_crossed 0 true] ++ reward_stmt training 50
          ++ [set_currentLap (λ lap, lap + 1)] ++ reward_stmt training 200
          ++ reset_crossed (length (checkpoints race))
          ++ [set_nextCheckpoint (λ _, 1); finish_check training] →
  ∃ rwd',
    exec stmts (race, rwd)
    = (mkRace (set_crossed_flag false <$> checkpoints race)
              (currentLap race + 1) 1
              (raceFinished race || (totalLaps <=? currentLap race + 1)),
       rwd').
Proof.
  intros ->. destruct race as [cps lap next fin]. simpl.
  assert (Hreset : ∀ rwd0,
    exec (reset_crossed (length cps))
         (mkRace (alter (set_crossed_flag true) 0%nat cps) (lap + 1) next fin, rwd0)
    = (mkRace (set_crossed_flag false <$> cps) (lap + 1) next fin, rwd0)).
  { intros rwd0. unfold reset_crossed.
    pose proof (exec_reset_crossed (alter (set_crossed_flag true) 0%nat cps)
                  [] (lap + 1) next fin rwd0) as E.
    simpl in E. rewrite length_alter in E. rewrite E.
    by rewrite set_crossed_flag_idemp. }
  destruct training; simpl; rewrite !exec_app; simpl;
    unfold add_reward, set_currentLap, set_crossed; simpl;
    rewrite Hreset; unfold set_nextCheckpoint, finish_check; simpl;
    destruct (totalLaps <=? lap + 1); simpl;
    rewrite ?orb_true_r, ?orb_false_r; eexists; reflexivity.
Qed.

Ltac keeps_clear_tac :=
  repeat first
    [ apply Forall_app; split
    | apply reward_stmt_keeps_clear
    | apply Forall_cons; split
    | apply Forall_nil; exact I
    | apply set_currentLap_keeps_clear
    | apply set_nextCheckpoint_keeps_clear
    | apply set_crossed_keeps_clear; first [right; reflexivity | left; lia] ].

Ltac race_fields training :=
  destruct training; unfold exec; simpl; rewrite ?length_alter; simpl.

(** The checkpoint block on race variables that satisfy the invariant: it
    is defined; it keeps the invariant; it does not lower the lap count;
    and either it is a lap completion -- the finish line was the next
    checkpoint, a lap was under way, every other checkpoint was flagged,
    and the block ends with the lap count one higher and every flag
    clear -- or no statement of it leaves the finish flag set. *)
Lemma checkpoint_block_spec (training : bool) (n : nat) (race : Race)
    (prevPosition position : Vector2) (rwd : Q) :
  (2 ≤ n)%nat → race_inv n race →
  ∃ stmts,
    checkpoint_block training race prevPosition position = Some stmts
    ∧ race_inv n (fst (exec stmts (race, rwd)))
    ∧ currentLap race ≤ currentLap (fst (exec stmts (race, rwd)))
    ∧ ((nextCheckpoint race = 0 ∧ 0 < currentLap race
        ∧ forallb crossed (drop 1 (checkpoints race)) = true
        ∧ currentLap (fst (exec stmts (race, rwd))) = currentLap race + 1
        ∧ Forall (λ cp, crossed cp = false)
                 (checkpoints (fst (exec stmts (race, rwd)))))
       ∨ Forall (λ mid, finish_flag (fst mid) = false)
                (exec_trace stmts (race, rwd))).
Proof.
  intros Hn (Hlen & Hnext & Hflag).
  unfold checkpoint_block.
  destruct (Z.ltb_spec (nextCheckpoint race) 0) as [?|_]; [lia|].
  destruct (lookup_lt_is_Some_2 (checkpoints race)
              (Z.to_nat (nextCheckpoint race))) as [cp Hcp]; [lia|].
  rewrite Hcp. cbv beta iota delta [mbind option_bind].
  eexists. split; [reflexivity|].
  destruct (CheckCrossing cp prevPosition position).
  2:{ simpl. split; [exact (conj Hlen (conj Hnext Hflag))|].
      split; [lia|]. right. constructor. }
  destruct (Z.eqb_spec (nextCheckpoint race) 0) as [H0|H0].
  - rewrite H0. change (Z.to_nat 0) with 0%nat.
    destruct (Z.ltb_spec 0 (currentLap race)) as [Hlap|Hlap].
    + destruct (forallb crossed (drop 1 (checkpoints race))) eqn:Hall.
      * match goal with |- context [exec ?l (race, rwd)] =>
          destruct (lap_completion_exec training race rwd l eq_refl)
            as [rwd' E]
        end.
        rewrite E. simpl.
        assert (Hclear : Forall (λ cp, crossed cp = false)
                           (set_crossed_flag false <$> checkpoints race)).
        { apply Forall_fmap, Forall_forall. intros ? _. reflexivity. }
        split.
        { unfold race_inv, finish_flag. simpl. rewrite length_fmap.
          split; [exact Hlen|]. split; [lia|].
          destruct (checkpoints race); reflexivity. }
        split; [lia|]. left. by repeat split.
      * assert (Hk : Forall keeps_clear [set_crossed 0 false])
          by keeps_clear_tac.
        destruct (exec_keeps_clear _ Hk (race, rwd) Hflag) as [Hf Ht].
        split; [|split; [simpl; lia|right; exact Ht]].
        split; [|split; [|exact Hf]]; simpl; rewrite ?length_alter; lia.
    + assert (Hk : Forall keeps_clear
                [set_currentLap (λ _, 1); set_crossed 0 false;
                 set_nextCheckpoint (λ _, 1)])
        by keeps_clear_tac.
      destruct (exec_keeps_clear _ Hk (race, rwd) Hflag) as [Hf Ht].
      split; [|split; [simpl; lia|right; exact Ht]].
      split; [|split; [|exact Hf]]; simpl; rewrite ?length_alter; lia.
  - assert (Hidx : Z.to_nat (nextCheckpoint race) ≠ 0%nat) by lia.
    destruct (Z.ltb_spec 0 (currentLap race)) as [Hlap|Hlap]; cbn [andb negb].
    + match goal with |- context [exec ?l _] =>
        assert (Hk : Forall keeps_clear l) by keeps_clear_tac end.
      destruct (exec_keeps_clear _ Hk (race, rwd) Hflag) as [Hf Ht].
      split; [|split; [race_fields training; lia|right; exact Ht]].
      split; [|split; [|exact Hf]]; race_fields training; try lia.
      * rewrite Hlen. apply Z.rem_bound_pos; lia.
      * rewrite Hlen. apply Z.rem_bound_pos; lia.
    + match goal with |- context [exec ?l _] =>
        assert (Hk : Forall keeps_clear l) by keeps_clear_tac end.
      destruct (exec_keeps_clear _ Hk (race, rwd) Hflag) as [Hf Ht].
      split; [|split; [simpl; lia|right; exact Ht]].
      split; [|split; [|exact Hf]]; simpl; rewrite ?length_alter; lia.
Qed.

Lemma race_inv_discipline (training : bool) (n : nat) (race : Race) :
  (2 ≤ n)%nat → race_inv n race → finish_flag_discipline training race.
Proof.
  intros Hn Hinv. split; [apply Hinv|].
  intros prevPosition position rwd.
  destruct (checkpoint_block_spec training n race prevPosition position rwd
              Hn Hinv) as (stmts & Hb & _ & _ & Hcases).
  exists stmts. split; [exact Hb|].
  intros mid Hmid Hset.
  destruct Hcases as [(_ & _ & Hall & Hlap & Hclear)|Hnever].
  - split; [|split; [exact Hlap|]].
    + intros i cp Hi Hcp.
      rewrite forallb_forall in Hall. apply Hall.
      apply list_elem_of_In, list_elem_of_lookup. exists (i - 1)%nat.
      rewrite lookup_drop. rewrite <- Hcp. f_equal. lia.
    + intros cp Hcp. rewrite Forall_forall in Hclear. by apply Hclear.
  - rewrite Forall_forall in Hnever. rewrite (Hnever mid Hmid) in Hset.
    discriminate.
Qed.

(** How the checkpoint block changes the lap count, whatever the race
    variables it starts from: not at all, or by one when a lap was under
    way, or to 1 when none was. *)
Lemma checkpoint_block_lap_cases (training : bool) (race : Race)
    (prevPosition position : Vector2) (rwd : Q) (stmts : list Stmt) :
  checkpoint_block training race prevPosition position = Some stmts →
  currentLap (fst (exec stmts (race, rwd))) = currentLap race
  ∨ (0 < currentLap race
     ∧ currentLap (fst (exec stmts (race, rwd))) = currentLap race + 1)
  ∨ (currentLap race ≤ 0 ∧ currentLap (fst (exec stmts (race, rwd))) = 1).
Proof.
  unfold checkpoint_block. intros H.
  destruct (nextCheckpoint race <? 0); [discriminate|].
  destruct (checkpoints race !! _) as [cp|];
    cbv beta iota delta [mbind option_bind] in H; [|discriminate].
  injection H as <-.
  destruct (CheckCrossing _ _ _); [|by left].
  destruct (Z.eqb_spec (nextCheckpoint race) 0) as [H0|H0].
  - rewrite H0. change (Z.to_nat 0) with 0%nat.
    destruct (Z.ltb_spec 0 (currentLap race)) as [Hlap|Hlap].
    + destruct (forallb crossed (drop 1 (checkpoints race))).
      * match goal with |- context [exec ?l (race, rwd)] =>
          destruct (lap_completion_exec training race rwd l eq_refl)
            as [rwd' Hexec]
        end.
        rewrite Hexec. simpl. right. left. by split.
      * by left.
    + right. right. by split.
  - left. destruct (_ && _); race_fields training; reflexivity.
Qed.

Section Loops.
Variable cos sin sqrtf : Q → Q.
Variable trackImage : Image.

Lemma train_trace_race_inv (checkpointsTemplate : list Checkpoint)
    (actions : list Z) :
  (2 ≤ length checkpointsTemplate)%nat →
  Forall (λ e, race_inv (length checkpointsTemplate) (train_race e))
    (train_reset checkpointsTemplate
       :: train_trace cos sin sqrtf trackImage actions
            (train_reset checkpointsTemplate)).
Proof.
  intros Hn. constructor; [by apply race_reset_inv|].
  apply train_trace_Forall; [|by apply race_reset_inv].
  intros e e' action ex He Hs.
  apply train_step_inv in Hs as [[_ ->]|[_ (stmts & rwd & Hb & ->)]];
    [exact He|].
  destruct (checkpoint_block_spec true _ (train_race e)
              (position (train_vehicle e)) (position (train_vehicle e')) rwd
              Hn He) as (stmts' & Hb' & Hinv & _).
  rewrite Hb in Hb'. injection Hb' as <-. exact Hinv.
Qed.

Lemma eval_trace_race_inv (checkpointsTemplate : list Checkpoint)
    (dt : Q) (eval_max_steps : Z) (actions : list Z) :
  (2 ≤ length checkpointsTemplate)%nat →
  Forall (λ e, race_inv (length checkpointsTemplate) (eval_race e))
    (eval_reset checkpointsTemplate
       :: eval_trace cos sin trackImage dt eval_max_steps actions
            (eval_reset checkpointsTemplate)).
Proof.
  intros Hn. constructor; [by apply race_reset_inv|].
  apply eval_trace_Forall; [|by apply race_reset_inv].
  intros e e' action He Hs.
  apply eval_step_inv in Hs as (_ & _ & stmts & Hb & ->).
  destruct (checkpoint_block_spec false _ (eval_race e)
              (position (eval_vehicle e)) (position (eval_vehicle e')) 0%Q
              Hn He) as (stmts' & Hb' & Hinv & _).
  rewrite Hb in Hb'. injection Hb' as <-. exact Hinv.
Qed.

(** C3. An episode starts with every flag clear.  At the start and after
    every iteration of the training loop, and of the evaluation loop, the
    finish flag is clear, and in the checkpoint block of the next
    iteration, whatever the move of the vehicle, a statement leaves the
    finish flag set only if every other checkpoint was flagged on entry,
    and then the same block raises the lap count by one and clears every
    flag before it ends. *)
Theorem finish_flag_set_only_within_lap_completion
    (checkpointsTemplate : list Checkpoint) (dt : Q) (eval_max_steps : Z)
    (actions : list Z) :
  (2 ≤ length checkpointsTemplate)%nat →
  Forall (λ cp, crossed cp = false)
    (checkpoints (race_reset checkpointsTemplate))
  ∧ Forall (λ e, finish_flag_discipline true (train_race e))
      (train_states cos sin sqrtf trackImage checkpointsTemplate actions)
  ∧ Forall (λ e, finish_flag_discipline false (eval_race e))
      (eval_states cos sin trackImage checkpointsTemplate dt eval_max_steps
         actions).
Proof.
  unfold train_states, eval_states.
  intros Hn. split; [|split].
  - simpl. apply Forall_fmap, Forall_forall. intros ? _. reflexivity.
  - eapply Forall_impl; [apply train_trace_race_inv; exact Hn|].
    intros e. simpl. by apply race_inv_discipline.
  - eapply Forall_impl; [apply eval_trace_race_inv; exact Hn|].
    intros e. simpl. by apply race_inv_discipline.
Qed.

(** Successive states of the training trace are one iteration apart. *)
Lemma train_trace_adjacent (actions : list Z) :
  ∀ (e : TrainEpisode) (i : nat) (e1 e2 : TrainEpisode),
  (e :: train_trace cos sin sqrtf trackImage actions e) !! i = Some e1 →
  (e :: train_trace cos sin sqrtf trackImage actions e) !! S i = Some e2 →
  ∃ action ex, train_step cos sin sqrtf trackImage e1 action = Some (e2, ex).
Proof.
  induction actions as [|action rest IH]; intros e i e1 e2 H1 H2; simpl in *.
  - destruct i; discriminate.
  - destruct (_ || _); [destruct i; discriminate|].
    destruct (train_step _ _ _ _ e action) as [[e' ex]|] eqn:Hs;
      [|destruct i; discriminate].
    destruct i as [|i].
    + injection H1 as <-. exists action, ex.
      destruct ex; simpl in H2; injection H2 as <-; exact Hs.
    + destruct ex.
      * apply (IH e' i e1 e2); assumption.
      * destruct i; discriminate.
Qed.

Lemma train_step_lap_cases (e e' : TrainEpisode) (action : Z) (ex : LoopExit) :
  train_step cos sin sqrtf trackImage e action = Some (e', ex) →
  currentLap (train_race e') = currentLap (train_race e)
  ∨ (0 < currentLap (train_race e)
     ∧ currentLap (train_race e') = currentLap (train_race e) + 1)
  ∨ (currentLap (train_race e) ≤ 0 ∧ currentLap (train_race e') = 1).
Proof.
  intros Hs.
  apply train_step_inv in Hs as [[_ ->]|[_ (stmts & rwd & Hb & ->)]];
    [by left|].
  eapply checkpoint_block_lap_cases; exact Hb.
Qed.

Section Statistics.
Variable AdamState : Type.

(** C4, where the code leaves the claim.  The lap counter of an episode
    starts at -1, not at 0, and is never 0 afterwards; it never decreases
    from one iteration of the training loop to the next; and the
    statistics log receives the counter as the loop left it, so that an
    episode without a crossing of the finish line is logged with -1
    laps. *)
Theorem lap_counter_starts_at_minus_one_and_never_decreases
    (checkpointsTemplate : list Checkpoint) (actions : list Z)
    (t : Trainer AdamState) (total_loss : Q) (loss_count : Z) :
  head (currentLap ∘ train_race
          <$> train_states cos sin sqrtf trackImage checkpointsTemplate actions)
    = Some (-1)
  ∧ Forall (λ e, currentLap (train_race e) ≠ 0)
      (train_states cos sin sqrtf trackImage checkpointsTemplate actions)
  ∧ (∀ i e1 e2,
       train_states cos sin sqrtf trackImage checkpointsTemplate actions !! i
         = Some e1 →
       train_states cos sin sqrtf trackImage checkpointsTemplate actions !! S i
         = Some e2 →
       currentLap (train_race e1) ≤ currentLap (train_race e2))
  ∧ (∀ e,
       last (train_states cos sin sqrtf trackImage checkpointsTemplate actions)
         = Some e →
       episode_laps (stats _ (after_episode _ t e total_loss loss_count))
       = episode_laps (stats _ t) ++ [currentLap (train_race e)]).
Proof.
  unfold train_states.
  set (trace := train_reset checkpointsTemplate :: _).
  split; [reflexivity|]. split; [|split].
  - assert (H : Forall (λ e, currentLap (train_race e) = -1
                             ∨ 1 ≤ currentLap (train_race e)) trace).
    { constructor; [by left|].
      apply train_trace_Forall; [|by left].
      intros e e' action ex He Hs.
      apply train_step_lap_cases in Hs. lia. }
    eapply Forall_impl; [exact H|]. intros e He. simpl in He. lia.
  - intros i e1 e2 H1 H2.
    destruct (train_trace_adjacent actions _ i e1 e2 H1 H2) as (action & ex & Hs).
    apply train_step_lap_cases in Hs. lia.
  - intros e _. unfold after_episode, lr_schedule. simpl.
    repeat (match goal with |- context [if ?c then _ else _] =>
              destruct c end; simpl); reflexivity.
Qed.

(** At the start of every episode the lap counter on the track of [main]
    is not 0. *)
Lemma lap_counter_does_not_start_at_zero :
  currentLap (train_race (train_reset checkpointsTemplate)) ≠ 0.
Proof. simpl. lia. Qed.

End Statistics.

End Loops.

End RaceFacts.

(** ** Best-model selection *)

Section SelectionFacts.
Import Trainer.

(** C5, at the failing milestone.  The first evaluation sets the
    best-score record (score -7500, finish rate 0).  The second has a
    higher score (-7000, within the margin) and a higher finish rate (1):
    the rule as specified replaces the record, and so does the code's own
    test on the records as the milestone found them; the code does not,
    because the finish-rate block of the same milestone has already
    overwritten [best_finish_rate] with the new finish rate. *)
Lemma best_score_not_replaced_after_finish_rate_update :
  best_score after_first_milestone == -7500
  ∧ best_finish_rate after_first_milestone == 0
  ∧ avg_score second_eval == -7000
  ∧ finish_rate second_eval == 1
  ∧ save_score_as_specified (Some first_eval) second_eval = true
  ∧ save_score after_first_milestone second_eval = true
  ∧ saved_finish_rate (snd (select_best after_first_milestone second_eval)) = true
  ∧ saved_score (snd (select_best after_first_milestone second_eval)) = false
  ∧ best_score (fst (select_best after_first_milestone second_eval)) == -7500.
Proof. vm_compute. repeat split; congruence. Qed.

Lemma Qltb_irrefl (q : Q) : Qltb q q = false.
Proof.
  unfold Qltb. apply negb_false_iff, Qle_bool_iff, Qle_refl.
Qed.

Lemma round_inject_Z (q : Q) (k : Z) :
  0 ≤ k → q == inject_Z k → round q = k.
Proof.
  intros Hk Hq. unfold round.
  assert (H0 : Qle_bool 0 q = true).
  { apply Qle_bool_iff. rewrite Hq. unfold Qle. simpl. lia. }
  rewrite H0.
  assert (Hq' : (q + 0.5 == inject_Z k + 0.5)%Q) by (rewrite Hq; reflexivity).
  rewrite (Qfloor_comp _ _ Hq'). unfold Qfloor, Qplus, inject_Z. simpl.
  symmetry. apply Z.div_unique with (r := 5); lia.
Qed.

(** On records and results as the trainer produces them -- finish rates
    are finish counts over the twenty evaluation episodes, and the record
    is -1 or an earlier finish rate -- the third test of the best-score
    block never decides: by the time it runs, [best_finish_rate] is at
    least the new finish rate.  The block accepts on its first two tests
    alone. *)
Lemma saved_score_never_by_finish_rate (best : BestRecords)
    (eval : EvalResult) (k : Z) :
  best_finish_rate best == -1
    ∨ (0 ≤ k ∧ best_finish_rate best == inject_Z k / 20) →
  finish_rate eval == inject_Z (finishes eval) / 20 →
  saved_score (snd (select_best best eval))
  = Qle_bool (best_score best) (-1e17)
    || Qltb (best_score best + SCORE_MIN_IMPROVEMENT) (avg_score eval).
Proof.
  intros Hbest Hrate. unfold select_best. simpl.
  assert (Hdead :
    Qltb (best_finish_rate
            (if save_finish_rate best eval
             then mkBestRecords (finish_rate eval)
                    (best_time_avg_steps_finish best) (best_score best)
             else best))
         (finish_rate eval) = false).
  { destruct (save_finish_rate best eval) eqn:Hsave; simpl;
      [apply Qltb_irrefl|].
    unfold save_finish_rate in Hsave.
    destruct (Qltb (best_finish_rate best) 0) eqn:Hneg; [discriminate|].
    destruct Hbest as [Hm|[Hk Hb]].
    { apply Qltb_false in Hneg. rewrite Hm in Hneg.
      unfold Qle in Hneg. simpl in Hneg. lia. }
    rewrite (round_inject_Z _ k Hk) in Hsave.
    2:{ rewrite Hb. unfold EVAL_EPISODES. field. }
    destruct (Z.leb_spec (k + FINISH_RATE_MIN_IMPROVEMENT) (finishes eval));
      [discriminate|].
    destruct (Qltb (best_finish_rate best) (finish_rate eval)) eqn:Hlt;
      [|reflexivity].
    simpl in Hsave.
    destruct (Z.ltb_spec k (finishes eval)) as [Hkf|Hkf]; [discriminate|].
    apply Qltb_true in Hlt. rewrite Hb, Hrate in Hlt.
    exfalso. apply (Qlt_not_le _ _ Hlt).
    apply Qmult_le_compat_r; [|unfold Qle; simpl; lia].
    unfold Qle. simpl. lia. }
  match type of Hdead with Qltb (best_finish_rate ?b) _ = _ =>
    assert (Hscore : best_score b = best_score best)
      by (destruct (save_finish_rate best eval); reflexivity);
    set (b1 := b) in *
  end.
  match goal with |- save_score ?b eval = _ =>
    assert (H2 : best_finish_rate b = best_finish_rate b1
                 ∧ best_score b = best_score b1)
      by (destruct (save_time b1 eval); split; reflexivity);
    set (b2 := b) in *
  end.
  destruct H2 as [Hr2 Hs2].
  unfold save_score. rewrite Hr2, Hs2, Hscore, Hdead, andb_false_r.
  destruct (Qle_bool (best_score best) (-1e17)); [reflexivity|].
  destruct (Qltb (best_score best + SCORE_MIN_IMPROVEMENT) (avg_score eval));
    reflexivity.
Qed.

End SelectionFacts.

(** ** The learning-rate schedule *)

Section ScheduleFacts.
Import Trainer.

Section AnyOptimiser.
Variable AdamState : Type.

(** A drop that has fired stays fired: the schedule never re-arms. *)
Lemma lr_schedule_never_rearms (t : Trainer AdamState) (raceFinished : bool) :
  (lr_dropped_once _ t = true →
   lr_dropped_once _ (lr_schedule _ t raceFinished) = true)
  ∧ (lr_dropped_twice _ t = true →
     lr_dropped_twice _ (lr_schedule _ t raceFinished) = true).
Proof.
  unfold lr_schedule.
  destruct t as [d eps st bst once twice]. simpl.
  split; intros ->; simpl; rewrite ?andb_false_r; simpl;
    repeat (match goal with |- context [if ?c then _ else _] =>
              destruct c end; simpl); reflexivity.
Qed.

(** The schedule changes the learning rate only as it fires a drop, and
    each drop fires only while its flag is down: at most two changes in a
    run. *)
Lemma lr_schedule_changes_with_a_drop (t : Trainer AdamState)
    (raceFinished : bool) :
  lr_dropped_once _ (lr_schedule _ t raceFinished) = lr_dropped_once _ t →
  lr_dropped_twice _ (lr_schedule _ t raceFinished) = lr_dropped_twice _ t →
  dqn _ (lr_schedule _ t raceFinished) = dqn _ t.
Proof.
  unfold lr_schedule.
  destruct t as [d eps st bst once twice]. simpl.
  destruct raceFinished, once, twice; simpl;
    repeat (match goal with |- context [if ?c then _ else _] =>
              destruct c end; simpl);
    intros; congruence.
Qed.

(** The first finished race of a run sets the learning rate to [3e-4],
    whatever it was. *)
Lemma first_finish_sets_learning_rate (t : Trainer AdamState)
    (e : TrainEpisode) (total_loss : Q) (loss_count : Z) :
  lr_dropped_once _ t = false →
  raceFinished (train_race e) = true →
  (length (episode_finishes (stats _ t)) < 19)%nat →
  DQN.get_learning_rate _
    (dqn _ (after_episode _ t e total_loss loss_count)) = 3e-4%Q.
Proof.
  intros Honce Hfin Hlen. unfold after_episode, lr_schedule. simpl.
  rewrite Honce, Hfin. simpl. rewrite length_app. simpl.
  destruct (Z.leb_spec 20 (Z.of_nat (length (episode_finishes (stats _ t)) + 1)));
    [lia|].
  rewrite andb_false_r. reflexivity.
Qed.

End AnyOptimiser.

(** C6, at the failing input.  After the setup of [main] the learning
    rate is [1e-4]; the first episode that finishes the race sets it to
    [3e-4], which is higher. *)
Lemma learning_rate_raised_by_first_finish :
  match resumed_trainer with
  | Some t =>
      DQN.get_learning_rate _ (dqn _ t) = 1e-4%Q
      ∧ DQN.param_groups _ (DQN.optimizer_ _ (dqn _ t)) = [1e-4%Q]
      ∧ DQN.get_learning_rate _
          (dqn _ (after_episode _ t finished_episode 0 0)) = 3e-4%Q
      ∧ DQN.param_groups _
          (DQN.optimizer_ _ (dqn _ (after_episode _ t finished_episode 0 0)))
        = [3e-4%Q]
  | None => False
  end
  ∧ (1e-4 < 3e-4)%Q.
Proof. vm_compute. repeat split; reflexivity. Qed.

End ScheduleFacts.

(** ** A concrete track and run *)

Section ConcreteRun.
Import Trainer.

Lemma finish_flag_set_only_within_lap_completion_witness :
  Forall (λ cp, crossed cp = false)
    (checkpoints (race_reset checkpointsTemplate))
  ∧ Forall (λ e, finish_flag_discipline true (train_race e))
      (train_states example_cos example_sin example_sqrtf example_image
         checkpointsTemplate throttle_actions)
  ∧ Forall (λ e, finish_flag_discipline false (eval_race e))
      (eval_states example_cos example_sin example_image checkpointsTemplate
         DT max_steps throttle_actions).
Proof.
  apply (finish_flag_set_only_within_lap_completion example_cos example_sin
           example_sqrtf example_image checkpointsTemplate DT max_steps
           throttle_actions).
  simpl. lia.
Defined.

(** On the track each throttle step gains [150/60 - 50/60] of speed. *)
Example throttle_speeds :
  (λ e, Qred (speed (train_vehicle e)))
    <$> train_trace example_cos example_sin example_sqrtf example_image
          throttle_actions (train_reset checkpointsTemplate)
  = [5 # 3; 10 # 3; 5; 20 # 3; 25 # 3]%Q.
Proof. vm_compute. reflexivity. Qed.

(** An episode that ends before the vehicle has crossed the finish line,
    here at an interrupt after five steps of throttle, is logged with -1
    laps. *)
Example episode_without_crossing_logs_minus_one :
  (e ← last (train_states example_cos example_sin example_sqrtf
               example_image checkpointsTemplate throttle_actions);
   Some (episode_steps e,
         episode_laps (stats _ (after_episode _ example_trainer e 0 0))))
  = Some (5, [-1]).
Proof. vm_compute. reflexivity. Qed.

(** The first crossing of the finish line starts lap 1 and sets no flag;
    the seven checkpoints are then flagged in turn, and the finish line is
    the next one. *)
Example lap_in_progress :
  race_summary <$> race_run true lap_moves (race_reset checkpointsTemplate)
  = Some (1, 0, false, false :: replicate 7 true).
Proof. vm_compute. reflexivity. Qed.

(** Crossing the finish line then completes the lap: inside the block the
    finish flag is set once, with the seven others; the block ends with
    lap 2, every flag clear and checkpoint 1 next.  A second lap ends the
    race. *)
Example lap_completion :
  (race ← race_run true lap_moves (race_reset checkpointsTemplate);
   stmts ← checkpoint_block true race (mkVector2 449 92) (mkVector2 451 92);
   Some ((λ mid, crossed <$> checkpoints (fst mid))
           <$> take 1 (exec_trace stmts (race, 0%Q)),
         race_summary (fst (exec stmts (race, 0%Q)))))
  = Some ([replicate 8 true], (2, 1, false, replicate 8 false))
  ∧ race_summary
      <$> race_run true (lap_moves ++ lap_moves ++ [move 449 92 451 92])
            (race_reset checkpointsTemplate)
    = Some (3, 1, true, replicate 8 false).
Proof. vm_compute. split; reflexivity. Qed.

(** Crossing the finish line again before the other checkpoints does not
    count: nothing changes. *)
Example early_finish_line_crossing_ignored :
  race_summary
    <$> race_run true [move 449 92 451 92; move 451 92 449 92]
          (race_reset checkpointsTemplate)
  = Some (1, 1, false, replicate 8 false).
Proof. vm_compute. reflexivity. Qed.

End ConcreteRun.

(** * Further properties of the code *)

(** ** The replay buffer: size, the sampling gate, sampling beyond it *)

Section ReplayBufferMore.
Import ReplayBuffer.

(** X1. After any sequence of [add] calls on a buffer constructed with
    capacity [C], [size] is the smaller of the number of calls and [C],
    and [can_sample(batch_size)] holds exactly for the batch sizes from 0
    to that size: a negative [int] is converted to [size_t] in the
    comparison and exceeds every size. *)
Theorem can_sample_after_adds (C : Z) (es : list Experience) (batch_size : Z) :
  1 ≤ C ≤ INT_MAX →
  - INT_MAX - 1 ≤ batch_size ≤ INT_MAX →
  ∃ rb0 rb, new C = Some rb0 ∧ add_all rb0 es = Some rb
    ∧ size rb = Z.min (Z.of_nat (length es)) C
    ∧ (can_sample rb batch_size = true
       ↔ 0 ≤ batch_size ≤ Z.min (Z.of_nat (length es)) C).
Proof.
  intros HC Hb. exists (mk C []).
  destruct (add_all_spec es (mk C []) HC) as (rb & Hall & Hcap & Hbuf).
  { unfold size; simpl; lia. }
  simpl in Hcap, Hbuf. exists rb.
  split. { unfold new. destruct (Z.ltb_spec C 0); [lia|reflexivity]. }
  split; [exact Hall|].
  assert (Hsz : size rb = Z.min (Z.of_nat (length es)) C).
  { unfold size. rewrite Hbuf, length_drop. lia. }
  split; [exact Hsz|].
  unfold can_sample, to_size_t. fold (size rb). rewrite Hsz.
  unfold INT_MAX in *.
  destruct (Z.leb_spec (batch_size mod 2 ^ 64)
              (Z.min (Z.of_nat (length es)) C)) as [Hle|Hgt].
  - split; [intros _|reflexivity].
    destruct (Z.lt_ge_cases batch_size 0) as [Hneg|Hpos].
    + exfalso.
      rewrite <- (Z.mod_add _ 1) in Hle by lia.
      rewrite Z.mod_small in Hle by lia. lia.
    + rewrite Z.mod_small in Hle by lia. lia.
  - split; [discriminate|]. intros Hr.
    rewrite Z.mod_small in Hgt by lia. lia.
Qed.

Lemma can_sample_after_adds_witness :
  ∃ rb0 rb, new 4 = Some rb0
    ∧ add_all rb0 (map sample_experience [1; 2; 3; 4; 5; 6]) = Some rb
    ∧ size rb = 4
    ∧ (can_sample rb (-1) = true ↔ 0 ≤ -1 ≤ 4).
Proof.
  apply (can_sample_after_adds 4 (map sample_experience [1; 2; 3; 4; 5; 6])
           (-1)); unfold INT_MAX; lia.
Defined.

Section SamplingMore.
Variable Gen : Type.
Variable mt19937 : Gen → Z * Gen.

(** X2. [sample] does not need [can_sample]: on a buffer that is not
    empty it returns [batch_size] stored transitions for every
    [batch_size >= 0], drawing with repetition; a batch larger than the
    buffer repeats a transition. *)
Theorem sample_draws_with_repetition (rb : t) (batch_size : Z) (out : Batch)
    (seed : Gen) :
  buffer_ rb ≠ [] → 0 ≤ batch_size →
  ∃ drawn, sample Gen mt19937 rb batch_size out seed = Some (batch_of drawn, rb)
    ∧ Z.of_nat (length drawn) = batch_size
    ∧ Forall (λ e, e ∈ buffer_ rb) drawn
    ∧ (size rb < batch_size → ¬ NoDup drawn).
Proof.
  intros Hne Hb.
  destruct (sample_spec Gen mt19937 rb batch_size out seed Hne Hb)
    as (ds & Hrun & Hl & Hall).
  exists ds. split; [exact Hrun|]. split; [exact Hl|]. split; [exact Hall|].
  intros Hlt Hnd. unfold size in Hlt.
  assert (Hsub : ds ⊆+ buffer_ rb).
  { apply NoDup_submseteq; [exact Hnd|]. rewrite Forall_forall in Hall.
    exact Hall. }
  apply submseteq_length in Hsub. lia.
Qed.

(** X3. [sample] is not defined for a negative [batch_size] ([reserve]
    throws), nor on an empty buffer for a positive one (the distribution
    is constructed on the range [0 .. -1], and the index drawn is outside
    the vector). *)
Theorem sample_undefined_on_empty_or_negative (rb : t) (batch_size : Z)
    (out : Batch) (seed : Gen) :
  batch_size < 0 ∨ (buffer_ rb = [] ∧ 1 ≤ batch_size) →
  sample Gen mt19937 rb batch_size out seed = None.
Proof.
  intros [Hneg|[Hempty Hpos]]; unfold sample.
  - destruct (Z.ltb_spec batch_size 0); [reflexivity|lia].
  - destruct (Z.ltb_spec batch_size 0); [reflexivity|].
    rewrite Hempty. reflexivity.
Qed.

End SamplingMore.

Lemma sample_draws_with_repetition_witness :
  ∃ drawn,
    sample Z counter_gen (mk 4 (map sample_experience [1; 2])) 3 clear 5
      = Some (batch_of drawn, mk 4 (map sample_experience [1; 2]))
    ∧ Z.of_nat (length drawn) = 3
    ∧ Forall (λ e, e ∈ map sample_experience [1; 2]) drawn
    ∧ (size (mk 4 (map sample_experience [1; 2])) < 3 → ¬ NoDup drawn).
Proof.
  apply (sample_draws_with_repetition Z counter_gen
           (mk 4 (map sample_experience [1; 2])) 3 clear 5);
    [discriminate|lia].
Defined.

Lemma sample_undefined_on_empty_or_negative_witness :
  sample Z counter_gen (mk 4 []) 2 clear 5 = None.
Proof.
  apply (sample_undefined_on_empty_or_negative Z counter_gen (mk 4 []) 2
           clear 5).
  right. split; [reflexivity|lia].
Defined.

End ReplayBufferMore.

(** ** The learner: prediction, construction, target updates, training *)

Section DQNMore.
Import DQN.

Lemma from_blob_single {A} (s : list A) :
  from_blob s [1; Z.of_nat (length s)]
    = Some (mkTensor [1%nat; length s] s).
Proof.
  unfold from_blob. simpl.
  destruct (Z.leb_spec 0 (Z.of_nat (length s))); [|lia]. simpl.
  rewrite Nat2Z.id.
  rewrite decide_True by lia. rewrite take_ge by lia. reflexivity.
Qed.

Lemma Qsquare_nonneg (a : Q) : (0 <= a * a)%Q.
Proof.
  destruct (Qlt_le_dec a 0) as [Ha|Ha].
  - assert (E : (a * a == (- a) * (- a))%Q) by ring.
    rewrite E. apply Qmult_le_0_compat; lra.
  - by apply Qmult_le_0_compat.
Qed.

Lemma squared_errors_nonneg (cur tgt : list Q) :
  (0 <= foldr Qplus 0 (zip_with squared_error cur tgt))%Q.
Proof.
  revert tgt. induction cur as [|x cur IH]; intros [|y tgt]; simpl;
    try apply Qle_refl.
  specialize (IH tgt). unfold squared_error at 1.
  pose proof (Qsquare_nonneg (x - y)). lra.
Qed.

Lemma blend_between (tau x y : Q) :
  (0 <= tau <= 1)%Q →
  ((x <= tau * x + (1 - tau) * y <= y)%Q
   ∨ (y <= tau * x + (1 - tau) * y <= x)%Q)
  ∧ (tau == 1 → tau * x + (1 - tau) * y == x)%Q
  ∧ (tau == 0 → tau * x + (1 - tau) * y == y)%Q.
Proof.
  intros Htau. split; [|split].
  - destruct (Qlt_le_dec x y) as [Hxy|Hxy]; [left|right]; nra.
  - intros ->. ring.
  - intros ->. ring.
Qed.

Section LearnerMore.
Variable AdamState : Type.
Variable adam_init : AdamState.

(** [predict] accepts the observations of [state_size_] values, and
    only those. *)
Lemma predict_spec (d : DQN.t AdamState) (state : list Q) :
  dqn_wf d →
  (length state = Z.to_nat (state_size_ _ d) →
   predict _ d state = Some (forward_row (policy_net_ _ d) state)
   ∧ length (forward_row (policy_net_ _ d) state)
     = Z.to_nat (action_size_ _ d))
  ∧ (length state ≠ Z.to_nat (state_size_ _ d) → predict _ d state = None).
Proof.
  intros (Hss & Has & Hp & _). unfold predict. rewrite from_blob_single.
  simpl. split.
  - intros Hlen. rewrite Hlen.
    destruct (forward_single _ _ _ state Hp Hlen) as [E L].
    rewrite E. simpl.
    destruct (Z.ltb_spec (action_size_ _ d) 0); [lia|].
    rewrite decide_True by lia. rewrite take_ge by lia. by split.
  - intros Hlen. destruct Hp as [Hsz _].
    destruct (policy_net_ _ d) as [[w1 b1] [w2 b2] [w3 b3]].
    unfold param_sizes, DQNNet_sizes in Hsz. simpl in Hsz.
    injection Hsz as Hw1 Hb1 _ _ _ _.
    unfold forward, Linear_forward. simpl. rewrite Hw1, Hb1.
    rewrite decide_False by (intros [? _]; contradiction). reflexivity.
Qed.

(** X4. [predict] on a learner as constructed: an observation of
    [state_size_] values gives the [action_size_] Q-values of the policy
    network; an observation of any other length is reported and then
    refused by the first linear layer, so the call throws. *)
Theorem predict_defined_iff_state_size (d : DQN.t AdamState) (state : list Q) :
  dqn_wf d →
  (length state = Z.to_nat (state_size_ _ d) →
   predict _ d state = Some (forward_row (policy_net_ _ d) state)
   ∧ length (forward_row (policy_net_ _ d) state)
     = Z.to_nat (action_size_ _ d))
  ∧ (length state ≠ Z.to_nat (state_size_ _ d) → predict _ d state = None).
Proof. exact (predict_spec d state). Qed.

(** X5. The constructor on two freshly initialised networks: the learner
    starts with the target network equal to the policy network, the
    initial weights of the target being overwritten; the learning rate is
    that of the one parameter group of the optimiser. *)
Theorem new_target_is_policy (state_size action_size : Z)
    (learning_rate gamma : Q) (policy_init target_init : DQNNet) :
  0 ≤ state_size → 1 ≤ action_size →
  net_wf state_size action_size policy_init →
  net_wf state_size action_size target_init →
  ∃ d, DQN.new _ adam_init state_size action_size learning_rate gamma
         policy_init target_init = Some d
    ∧ policy_net_ _ d = policy_init
    ∧ target_net_ _ d = policy_init
    ∧ get_learning_rate _ d = learning_rate
    ∧ param_groups _ (optimizer_ _ d) = [learning_rate]
    ∧ gamma_ _ d = gamma
    ∧ dqn_wf d.
Proof.
  intros Hss Has Hp Ht. unfold DQN.new.
  rewrite (copy_weights_same_sizes policy_init target_init)
    by (destruct Hp as [-> _], Ht as [-> _]; reflexivity).
  simpl. eexists. split; [reflexivity|]. simpl.
  repeat (split; [reflexivity|]). unfold dqn_wf. simpl. tauto.
Qed.

(** X6. [update_target_network] makes the target network the policy
    network and changes nothing else; the Q-values [predict] returns are
    the same before and after. *)
Theorem update_target_network_copies_policy (d : DQN.t AdamState) :
  dqn_wf d →
  ∃ d', update_target_network _ d = Some d'
    ∧ target_net_ _ d' = policy_net_ _ d
    ∧ policy_net_ _ d' = policy_net_ _ d
    ∧ optimizer_ _ d' = optimizer_ _ d
    ∧ get_learning_rate _ d' = get_learning_rate _ d
    ∧ dqn_wf d'
    ∧ ∀ state, predict _ d' state = predict _ d state.
Proof.
  intros (Hss & Has & Hp & Ht). unfold update_target_network.
  rewrite (copy_weights_same_sizes (policy_net_ _ d) (target_net_ _ d))
    by (destruct Hp as [-> _], Ht as [-> _]; reflexivity).
  simpl. eexists. split; [reflexivity|]. simpl.
  repeat (split; [reflexivity|]). split; [|reflexivity].
  unfold dqn_wf. simpl. tauto.
Qed.

(** X7. [soft_update_target(tau)] with [tau] between 0 and 1 moves every
    element of every target parameter to a value between its old value and
    the element of the policy parameter; with [tau = 1] it is the hard
    update, with [tau = 0] it changes no value.  The policy network is not
    touched. *)
Theorem soft_update_target_between (d : DQN.t AdamState) (tau : Q) :
  dqn_wf d → (0 <= tau <= 1)%Q →
  ∃ d', soft_update_target _ d tau = Some d'
    ∧ policy_net_ _ d' = policy_net_ _ d
    ∧ dqn_wf d'
    ∧ ∀ key t,
        dict_lookup key (named_parameters (target_net_ _ d)) = Some t →
        ∃ p t',
          dict_lookup key (named_parameters (policy_net_ _ d)) = Some p
          ∧ dict_lookup key (named_parameters (target_net_ _ d')) = Some t'
          ∧ ∀ i y, data t !! i = Some y →
              ∃ x z, data p !! i = Some x ∧ data t' !! i = Some z
                ∧ ((x <= z <= y)%Q ∨ (y <= z <= x)%Q)
                ∧ (tau == 1 → z == x)%Q
                ∧ (tau == 0 → z == y)%Q.
Proof.
  intros (Hss & Has & [Hsz Hdat] & [Ht Htd]) Htau.
  rewrite soft_update_target_spec by congruence.
  eexists. split; [reflexivity|]. split; [reflexivity|].
  destruct d as [ss acs gm policy target opt lr].
  unfold with_target.
  cbn [policy_net_ target_net_ state_size_ action_size_] in *.
  destruct policy as [[w1 b1] [w2 b2] [w3 b3]].
  destruct target as [[w1' b1'] [w2' b2'] [w3' b3']].
  unfold param_sizes in Hsz, Ht.
  pose proof Ht as Ht0. rewrite <- Hsz in Ht. simpl in Ht.
  injection Ht as H1 H2 H3 H4 H5 H6.
  simpl in Hdat, Htd.
  pose proof Hdat as Hdat0. pose proof Htd as Htd0.
  repeat (apply Forall_cons in Hdat as [? Hdat]).
  repeat (apply Forall_cons in Htd as [? Htd]).
  simpl in * |-.
  split.
  { unfold dqn_wf, net_wf, param_sizes. simpl.
    split; [exact Hss|]. split; [exact Has|].
    split; [split; [exact Hsz|exact Hdat0]|].
    split; [exact Ht0|].
    assert (length (data w1) = length (data w1')) by congruence.
    assert (length (data b1) = length (data b1')) by congruence.
    assert (length (data w2) = length (data w2')) by congruence.
    assert (length (data b2) = length (data b2')) by congruence.
    assert (length (data w3) = length (data w3')) by congruence.
    assert (length (data b3) = length (data b3')) by congruence.
    repeat (apply Forall_cons; split; [|]); [..|apply Forall_nil; exact I];
      simpl; rewrite length_zip_with, !length_fmap; lia. }
  intros key t Hkey.
  unfold named_parameters, blend_net in Hkey |- *.
  cbn [dict_lookup fc1 fc2 fc3 weight bias] in Hkey |- *.
  repeat match type of Hkey with
  | (if String.eqb ?k key then _ else _) = _ =>
      destruct (String.eqb k key);
        [injection Hkey as <-; eexists _, _;
         split; [reflexivity|]; split; [reflexivity|];
         intros i y Hy;
         match goal with |- context [blend tau ?p ?t] =>
           destruct (blend_spec tau p t ltac:(congruence)) as (_ & _ & Hb)
         end;
         destruct (Hb i y Hy) as (x & Hx & Hz);
         exists x; eexists; split; [exact Hx|]; split; [exact Hz|];
         apply blend_between; exact Htau|]
  end.
  discriminate.
Qed.

End LearnerMore.

Section TrainMore.
Variable AdamState : Type.
Variable backward :
  DQNNet → Tensor Q → Tensor Z → Tensor Q → list (string * Tensor Q).
Variable clip_grad_norm_ :
  list (string * Tensor Q) → Q → list (string * Tensor Q).
Variable adam_step :
  list Q → AdamState → DQNNet → list (string * Tensor Q) → DQNNet * AdamState.

(** The fields of the learner [train] does not write. *)
Lemma train_fields (d d' : DQN.t AdamState) (states : list (list Q))
    (actions : list Z) (rewards : list Q) (next_states : list (list Q))
    (dones : list bool) (batch_size : Z) (loss : Q) :
  train _ backward clip_grad_norm_ adam_step d states actions rewards
    next_states dones batch_size = Some (loss, d') →
  state_size_ _ d' = state_size_ _ d
  ∧ action_size_ _ d' = action_size_ _ d
  ∧ gamma_ _ d' = gamma_ _ d
  ∧ current_lr_ _ d' = current_lr_ _ d
  ∧ param_groups _ (optimizer_ _ d') = param_groups _ (optimizer_ _ d).
Proof.
  unfold train. intros H.
  do 8 unbind H.
  destruct (mse_loss _ _) as [l|]; simpl in H; [|discriminate H].
  destruct (adam_step _ _ _ _) as [policy st].
  destruct (soft_update_target _ _ _) as [d2|] eqn:Es; simpl in H;
    [|discriminate H].
  injection H as _ <-. unfold soft_update_target in Es.
  destruct (for_each_param _ _ _) as [tg|]; simpl in Es; [|discriminate Es].
  injection Es as <-. by repeat split.
Qed.

Hypothesis adam_step_wf : ∀ state_size action_size lrs st net grads,
  net_wf state_size action_size net →
  net_wf state_size action_size (fst (adam_step lrs st net grads)).

(** What [train] does on a well-formed batch, for the statements below
    and for the loop of [main]. *)
Lemma train_outcome (d : DQN.t AdamState)
    (states : list (list Q)) (actions : list Z) (rewards : list Q)
    (next_states : list (list Q)) (dones : list bool) (batch_size : Z) :
  dqn_wf d →
  batch_wf d states actions rewards next_states dones batch_size →
  ∃ loss d',
    train _ backward clip_grad_norm_ adam_step d states actions rewards
      next_states dones batch_size = Some (loss, d')
    ∧ dqn_wf d'
    ∧ state_size_ _ d' = state_size_ _ d
    ∧ action_size_ _ d' = action_size_ _ d
    ∧ gamma_ _ d' = gamma_ _ d
    ∧ get_learning_rate _ d' = get_learning_rate _ d
    ∧ param_groups _ (optimizer_ _ d') = param_groups _ (optimizer_ _ d)
    ∧ (0 <= loss)%Q.
Proof.
  intros Hwf Hb.
  destruct (train_spec _ backward clip_grad_norm_ adam_step adam_step_wf d
              states actions rewards next_states dones batch_size Hwf Hb)
    as (cur & d' & _ & Htrain & Hpol & Htgt).
  eexists _, d'. split; [exact Htrain|].
  destruct (train_fields _ _ _ _ _ _ _ _ _ Htrain)
    as (Hss & Has & Hg & Hlr & Hpg).
  assert (Hwf' : dqn_wf d').
  { destruct Hwf as (H1 & H2 & [Hp1 Hp2] & [Ht1 Ht2]).
    unfold dqn_wf. rewrite Hss, Has.
    split; [exact H1|]. split; [exact H2|]. split; [exact Hpol|].
    rewrite Htgt. destruct Hpol as [Hq1 Hq2].
    destruct (policy_net_ _ d') as [[w1 b1] [w2 b2] [w3 b3]].
    destruct (target_net_ _ d) as [[w1' b1'] [w2' b2'] [w3' b3']].
    unfold net_wf, param_sizes in *. simpl in *.
    split; [exact Ht1|].
    rewrite <- Hq1 in Ht1. injection Ht1 as E1 E2 E3 E4 E5 E6.
    repeat (apply Forall_cons in Hq2 as [? Hq2]).
    repeat (apply Forall_cons in Ht2 as [? Ht2]).
    simpl in * |-.
    assert (length (data w1) = length (data w1')) by congruence.
    assert (length (data b1) = length (data b1')) by congruence.
    assert (length (data w2) = length (data w2')) by congruence.
    assert (length (data b2) = length (data b2')) by congruence.
    assert (length (data w3) = length (data w3')) by congruence.
    assert (length (data b3) = length (data b3')) by congruence.
    repeat (apply Forall_cons; split; [|]); [..|apply Forall_nil; exact I];
      simpl; rewrite length_zip_with, !length_fmap; lia. }
  split; [exact Hwf'|].
  repeat (split; [assumption|]).
  destruct Hb as (HB & _).
  apply Qle_shift_div_l.
  - unfold Qlt. simpl. lia.
  - rewrite Qmult_0_l. apply squared_errors_nonneg.
Qed.

(** X8. [train] on a well-formed batch leaves a learner of the same
    dimensions, discount and learning rate, in the optimiser too, whose
    two networks have the sizes of their construction: it can be called
    again on the next batch. *)
Theorem train_keeps_learner_well_formed (d : DQN.t AdamState)
    (states : list (list Q)) (actions : list Z) (rewards : list Q)
    (next_states : list (list Q)) (dones : list bool) (batch_size : Z) :
  dqn_wf d →
  batch_wf d states actions rewards next_states dones batch_size →
  ∃ loss d',
    train _ backward clip_grad_norm_ adam_step d states actions rewards
      next_states dones batch_size = Some (loss, d')
    ∧ dqn_wf d'
    ∧ state_size_ _ d' = state_size_ _ d
    ∧ action_size_ _ d' = action_size_ _ d
    ∧ gamma_ _ d' = gamma_ _ d
    ∧ get_learning_rate _ d' = get_learning_rate _ d
    ∧ param_groups _ (optimizer_ _ d') = param_groups _ (optimizer_ _ d)
    ∧ batch_wf d' states actions rewards next_states dones batch_size.
Proof.
  intros Hwf Hb.
  destruct (train_outcome d states actions rewards next_states dones
              batch_size Hwf Hb)
    as (loss & d' & Htrain & Hwf' & Hss & Has & Hg & Hlr & Hpg & _).
  exists loss, d'. split; [exact Htrain|]. split; [exact Hwf'|].
  repeat (split; [assumption|]).
  unfold batch_wf in *. rewrite Hss, Has. exact Hb.
Qed.

(** X9. The loss [train] returns is not negative. *)
Theorem train_loss_nonnegative (d : DQN.t AdamState)
    (states : list (list Q)) (actions : list Z) (rewards : list Q)
    (next_states : list (list Q)) (dones : list bool) (batch_size : Z) :
  dqn_wf d →
  batch_wf d states actions rewards next_states dones batch_size →
  ∃ loss d',
    train _ backward clip_grad_norm_ adam_step d states actions rewards
      next_states dones batch_size = Some (loss, d')
    ∧ (0 <= loss)%Q.
Proof.
  intros Hwf Hb.
  destruct (train_outcome d states actions rewards next_states dones
              batch_size Hwf Hb) as (loss & d' & Htrain & Hrest).
  exists loss, d'. split; [exact Htrain|].
  do 6 destruct Hrest as [_ Hrest]. exact Hrest.
Qed.

End TrainMore.

Lemma example_net_wf (seed : Z) : net_wf 2 3 (example_net 2 3 seed).
Proof.
  unfold net_wf. split; [reflexivity|]. simpl. repeat constructor.
Qed.

Lemma predict_defined_iff_state_size_witness :
  predict _ (example_dqn 1 2) [0.5; -0.25]%Q
    = Some (forward_row (policy_net_ _ (example_dqn 1 2)) [0.5; -0.25]%Q)
  ∧ predict _ (example_dqn 1 2) [0.5]%Q = None.
Proof.
  split.
  - apply (proj1 (predict_defined_iff_state_size unit (example_dqn 1 2)
                    [0.5; -0.25]%Q example_dqn_wf)).
    reflexivity.
  - apply (proj2 (predict_defined_iff_state_size unit (example_dqn 1 2)
                    [0.5]%Q example_dqn_wf)).
    simpl. lia.
Defined.

Lemma new_target_is_policy_witness :
  ∃ d, DQN.new unit tt 2 3 0.001%Q 0.99%Q (example_net 2 3 5)
         (example_net 2 3 6) = Some d
    ∧ policy_net_ _ d = example_net 2 3 5
    ∧ target_net_ _ d = example_net 2 3 5
    ∧ get_learning_rate _ d = 0.001%Q
    ∧ param_groups _ (optimizer_ _ d) = [0.001%Q]
    ∧ gamma_ _ d = 0.99%Q
    ∧ dqn_wf d.
Proof.
  apply (new_target_is_policy unit tt 2 3 0.001%Q 0.99%Q (example_net 2 3 5)
           (example_net 2 3 6)); try lia; apply example_net_wf.
Defined.

Lemma update_target_network_copies_policy_witness :
  ∃ d', update_target_network _ (example_dqn 1 2) = Some d'
    ∧ target_net_ _ d' = policy_net_ _ (example_dqn 1 2)
    ∧ policy_net_ _ d' = policy_net_ _ (example_dqn 1 2)
    ∧ optimizer_ _ d' = optimizer_ _ (example_dqn 1 2)
    ∧ get_learning_rate _ d' = get_learning_rate _ (example_dqn 1 2)
    ∧ dqn_wf d'
    ∧ ∀ state, predict _ d' state = predict _ (example_dqn 1 2) state.
Proof.
  exact (update_target_network_copies_policy unit (example_dqn 1 2)
           example_dqn_wf).
Defined.

Lemma soft_update_target_between_witness :
  ∃ d', soft_update_target _ (example_dqn 1 2) 0.5 = Some d'
    ∧ policy_net_ _ d' = policy_net_ _ (example_dqn 1 2)
    ∧ dqn_wf d'
    ∧ ∀ key t,
        dict_lookup key (named_parameters (target_net_ _ (example_dqn 1 2)))
          = Some t →
        ∃ p t',
          dict_lookup key (named_parameters (policy_net_ _ (example_dqn 1 2)))
            = Some p
          ∧ dict_lookup key (named_parameters (target_net_ _ d')) = Some t'
          ∧ ∀ i y, data t !! i = Some y →
              ∃ x z, data p !! i = Some x ∧ data t' !! i = Some z
                ∧ ((x <= z <= y)%Q ∨ (y <= z <= x)%Q)
                ∧ (0.5 == 1 → z == x)%Q
                ∧ (0.5 == 0 → z == y)%Q.
Proof.
  apply (soft_update_target_between unit (example_dqn 1 2) 0.5
           example_dqn_wf).
  split; unfold Qle; simpl; lia.
Defined.

Lemma train_keeps_learner_well_formed_witness :
  ∃ loss d',
    train unit example_backward example_clip example_adam_step
      (example_dqn 1 2) example_states example_actions example_rewards
      example_next_states example_dones 2 = Some (loss, d')
    ∧ dqn_wf d'
    ∧ state_size_ _ d' = 2
    ∧ action_size_ _ d' = 3
    ∧ gamma_ _ d' = 0.99%Q
    ∧ get_learning_rate _ d' = 0.001%Q
    ∧ param_groups _ (optimizer_ _ d') = [0.001%Q]
    ∧ batch_wf d' example_states example_actions example_rewards
        example_next_states example_dones 2.
Proof.
  exact (train_keeps_learner_well_formed unit example_backward example_clip
           example_adam_step example_adam_step_wf (example_dqn 1 2)
           example_states example_actions example_rewards example_next_states
           example_dones 2 example_dqn_wf example_batch_wf).
Defined.

Lemma train_loss_nonnegative_witness :
  ∃ loss d',
    train unit example_backward example_clip example_adam_step
      (example_dqn 1 2) example_states example_actions example_rewards
      example_next_states example_dones 2 = Some (loss, d')
    ∧ (0 <= loss)%Q.
Proof.
  exact (train_loss_nonnegative unit example_backward example_clip
           example_adam_step example_adam_step_wf (example_dqn 1 2)
           example_states example_actions example_rewards example_next_states
           example_dones 2 example_dqn_wf example_batch_wf).
Defined.

End DQNMore.

(** ** Checkpoint crossing *)

Section CrossingFacts.
Import Trainer.

Lemma Qle_bool_true (p q : Q) : Qle_bool p q = true → (p <= q)%Q.
Proof. apply Qle_bool_iff. Qed.

Lemma Qabs_small_zero (q : Q) : (q == 0)%Q → Qltb (Qabs q) 0.001 = true.
Proof.
  intros Hq. unfold Qltb. apply negb_true_iff.
  destruct (Qle_bool 0.001 (Qabs q)) eqn:H; [|reflexivity].
  apply Qle_bool_iff in H. rewrite Hq in H. simpl in H.
  unfold Qle in H. simpl in H. lia.
Qed.

(** What [CheckCrossing] computes: the move and the checkpoint segment
    are not (nearly) parallel, and they have a common point. *)
Lemma CheckCrossing_meets (cp : Checkpoint) (p q : Vector2) :
  CheckCrossing cp p q = true
  ↔ (0.001 <= Qabs (cross_denom p q (start cp) (end_ cp)))%Q
    ∧ segments_meet p q (start cp) (end_ cp).
Proof.
  unfold CheckCrossing, segments_meet, cross_denom.
  destruct cp as [[x3 y3] [x4 y4] c], p as [x1 y1], q as [x2 y2].
  cbn [x y start end_].
  set (denom := ((x1 - x2) * (y3 - y4) - (y1 - y2) * (x3 - x4))%Q).
  set (nt := ((x1 - x3) * (y3 - y4) - (y1 - y3) * (x3 - x4))%Q).
  set (nu := (- ((x1 - x2) * (y1 - y3) - (y1 - y2) * (x1 - x3)))%Q).
  destruct (Qltb (Qabs denom) 0.001) eqn:Hd.
  - split; [discriminate|]. intros [Hge _].
    apply Qltb_true in Hd. lra.
  - apply Qltb_false in Hd.
    assert (Hnz : ¬ (denom == 0)%Q).
    { intros H0. rewrite H0 in Hd. simpl in Hd.
      unfold Qle in Hd. simpl in Hd. lia. }
    split.
    + intros H. apply andb_prop in H as [H Hu1].
      apply andb_prop in H as [H Hu0]. apply andb_prop in H as [Ht0 Ht1].
      apply Qle_bool_iff in Ht0, Ht1, Hu0, Hu1.
      split; [exact Hd|].
      exists (nt / denom)%Q, (nu / denom)%Q.
      split; [by split|]. split; [by split|].
      unfold nt, nu, denom in *. split; field; exact Hnz.
    + intros [_ (t & u & [Ht0 Ht1] & [Hu0 Hu1] & Ex & Ey)].
      assert (Hx : (x1 - x3 == u * (x4 - x3) - t * (x2 - x1))%Q) by lra.
      assert (Hy : (y1 - y3 == u * (y4 - y3) - t * (y2 - y1))%Q) by lra.
      assert (Et : (nt / denom == t)%Q).
      { assert (E : (nt == t * denom)%Q).
        { unfold nt, denom. rewrite Hx, Hy. ring. }
        rewrite E. field. exact Hnz. }
      assert (Eu : (nu / denom == u)%Q).
      { assert (E : (nu == u * denom)%Q).
        { unfold nu, denom. rewrite Hx, Hy. ring. }
        rewrite E. field. exact Hnz. }
      repeat (apply andb_true_intro; split); apply Qle_bool_iff;
        rewrite ?Et, ?Eu; assumption.
Qed.

(** X10. [CheckCrossing] answers whether the move of the vehicle, the
    segment from [prevPos] to [currentPos], meets the segment of the
    checkpoint, moves nearly parallel to the checkpoint (a denominator
    below 0.001 in absolute value) never counting. *)
Theorem CheckCrossing_iff_segments_meet (cp : Checkpoint) (p q : Vector2) :
  CheckCrossing cp p q = true
  ↔ (0.001 <= Qabs (cross_denom p q (start cp) (end_ cp)))%Q
    ∧ segments_meet p q (start cp) (end_ cp).
Proof. apply CheckCrossing_meets. Qed.

Lemma segments_meet_reverse (p q a b : Vector2) :
  segments_meet p q a b → segments_meet q p a b.
Proof.
  intros (t & u & [Ht0 Ht1] & Hu & Ex & Ey).
  exists (1 - t)%Q, u. split; [split; lra|]. split; [exact Hu|].
  split; [rewrite <- Ex|rewrite <- Ey]; ring.
Qed.

Lemma cross_denom_reverse (p q a b : Vector2) :
  (cross_denom q p a b == - cross_denom p q a b)%Q.
Proof. unfold cross_denom. ring. Qed.

(** X11. A checkpoint is crossed in either direction of travel: the
    answer is the same for a move and its reverse; and a vehicle that has
    not moved has crossed nothing. *)
Theorem CheckCrossing_either_direction (cp : Checkpoint) (p q : Vector2) :
  CheckCrossing cp q p = CheckCrossing cp p q
  ∧ CheckCrossing cp p p = false.
Proof.
  split.
  - apply eq_true_iff_eq. rewrite !CheckCrossing_meets.
    rewrite cross_denom_reverse, Qabs_opp.
    split; intros [H1 H2]; (split; [exact H1|]);
      by apply segments_meet_reverse.
  - unfold CheckCrossing. rewrite Qabs_small_zero; [reflexivity|]. ring.
Qed.

End CrossingFacts.

(** ** Sensors *)

Section SensorFacts.
Import Trainer.
Variable cos sin : Q → Q.
Variable trackImage : Image.

Lemma ray_distance_value (k : nat) :
  (ray_distance k == inject_Z (2 * Z.of_nat k))%Q.
Proof.
  induction k as [|k IH].
  - reflexivity.
  - change (ray_distance (S k)) with (ray_distance k + 2)%Q. rewrite IH.
    replace (2 * Z.of_nat (S k)) with (2 * Z.of_nat k + 2) by lia.
    rewrite inject_Z_plus. reflexivity.
Qed.

Lemma ray_distance_lt (j k : nat) :
  (ray_distance j < ray_distance k)%Q → (j < k)%nat.
Proof.
  rewrite !ray_distance_value, <- Zlt_Qlt. lia.
Qed.

(** The loop of [CastLIDARRay] from the distance after [k] steps, no
    sample point before it being blocked, with fuel for the rest. *)
Lemma CastLIDARRay_loop_spec (position : Vector2) (angle maxDistance : Q) :
  ∀ (fuel k : nat),
  (1 ≤ fuel)%nat →
  (maxDistance - ray_distance k <= inject_Z (2 * (Z.of_nat fuel - 1)))%Q →
  (∀ j, (j < k)%nat →
     ray_blocked cos sin trackImage position angle (ray_distance j) = false) →
  ∃ d, CastLIDARRay_loop cos sin trackImage fuel position angle maxDistance
         (ray_distance k) = Some d
    ∧ ((d = maxDistance
        ∧ ∀ j, (ray_distance j < maxDistance)%Q →
            ray_blocked cos sin trackImage position angle (ray_distance j)
            = false)
       ∨ (∃ k', d = ray_distance k' ∧ (d < maxDistance)%Q
            ∧ ray_blocked cos sin trackImage position angle d = true
            ∧ ∀ j, (j < k')%nat →
                ray_blocked cos sin trackImage position angle (ray_distance j)
                = false)).
Proof.
  induction fuel as [|fuel IH]; intros k Hf Hfuel Hfree; [lia|].
  simpl.
  destruct (Qltb (ray_distance k) maxDistance) eqn:Hlt.
  - apply Qltb_true in Hlt.
    pose proof (Hblocked := eq_refl
      (ray_blocked cos sin trackImage position angle (ray_distance k))).
    unfold ray_blocked at 2 in Hblocked.
    destruct (in_image _ _ _); cbn [negb orb] in Hblocked |- *.
    + destruct (IsWall _).
      * eexists. split; [reflexivity|]. right. exists k. by repeat split.
      * apply (IH (S k)).
        -- assert (0 < inject_Z (2 * (Z.of_nat (S fuel) - 1)))%Q by lra.
           rewrite <- (Zlt_Qlt 0) in H. lia.
        -- change (ray_distance (S k)) with (ray_distance k + 2)%Q.
           replace (2 * (Z.of_nat (S fuel) - 1))
             with (2 * (Z.of_nat fuel - 1) + 2) in Hfuel by lia.
           rewrite inject_Z_plus in Hfuel.
           change (inject_Z 2) with 2%Q in Hfuel.
           set (c := inject_Z (2 * (Z.of_nat fuel - 1))) in *. lra.
        -- intros j Hj. destruct (decide (j = k)) as [->|]; [exact Hblocked|].
           apply Hfree. lia.
    + eexists. split; [reflexivity|]. right. exists k. by repeat split.
  - apply Qltb_false in Hlt.
    eexists. split; [reflexivity|]. left. split; [reflexivity|].
    intros j Hj. apply Hfree. apply ray_distance_lt. lra.
Qed.

Lemma ray_distance_nonneg (k : nat) : (0 <= ray_distance k)%Q.
Proof.
  rewrite ray_distance_value. rewrite <- (Zle_Qle 0). lia.
Qed.

Lemma CastLIDARRay_spec (position : Vector2) (angle maxDistance : Q) :
  ∃ d, CastLIDARRay cos sin trackImage position angle maxDistance = Some d
    ∧ ((d = maxDistance
        ∧ ∀ j, (ray_distance j < maxDistance)%Q →
            ray_blocked cos sin trackImage position angle (ray_distance j)
            = false)
       ∨ (∃ k, d = ray_distance k ∧ (d < maxDistance)%Q
            ∧ ray_blocked cos sin trackImage position angle d = true
            ∧ ∀ j, (j < k)%nat →
                ray_blocked cos sin trackImage position angle (ray_distance j)
                = false))
    ∧ ((0 <= maxDistance)%Q → (0 <= d <= maxDistance)%Q).
Proof.
  unfold CastLIDARRay.
  destruct (CastLIDARRay_loop_spec position angle maxDistance
              (S (Z.to_nat (Qceiling (maxDistance / 2)))) 0)
    as (d & Hd & Hcases).
  - lia.
  - change (ray_distance 0) with 0%Q.
    pose proof (Qle_ceiling (maxDistance / 2)) as Hc.
    set (c := Qceiling (maxDistance / 2)) in *.
    replace (2 * (Z.of_nat (S (Z.to_nat c)) - 1)) with (2 * Z.max 0 c) by lia.
    rewrite inject_Z_mult.
    assert (inject_Z c <= inject_Z (Z.max 0 c))%Q
      by (rewrite <- Zle_Qle; lia).
    assert (maxDistance == 2 * (maxDistance / 2))%Q by field.
    change (inject_Z 2) with 2%Q. lra.
  - intros j Hj. lia.
  - exists d. split; [exact Hd|]. split; [exact Hcases|].
    intros Hmax. destruct Hcases as [[-> _]|(k & -> & Hlt & _)].
    + split; [exact Hmax|apply Qle_refl].
    + split; [apply ray_distance_nonneg|lra].
Qed.

(** X12. [CastLIDARRay] returns: either [maxDistance], no sample point
    below it being blocked, or the distance of the first sample point, in
    steps of 2 from 0, whose pixel is outside the image or a wall.  For a
    [maxDistance] that is not negative the result lies between 0 and
    [maxDistance]. *)
Theorem CastLIDARRay_first_obstacle (position : Vector2)
    (angle maxDistance : Q) :
  ∃ d, CastLIDARRay cos sin trackImage position angle maxDistance = Some d
    ∧ ((d = maxDistance
        ∧ ∀ j, (ray_distance j < maxDistance)%Q →
            ray_blocked cos sin trackImage position angle (ray_distance j)
            = false)
       ∨ (∃ k, d = ray_distance k ∧ (d < maxDistance)%Q
            ∧ ray_blocked cos sin trackImage position angle d = true
            ∧ ∀ j, (j < k)%nat →
                ray_blocked cos sin trackImage position angle (ray_distance j)
                = false))
    ∧ ((0 <= maxDistance)%Q → (0 <= d <= maxDistance)%Q).
Proof. apply CastLIDARRay_spec. Qed.


Lemma mapM_total {A B} (f : A → option B) (P : B → Prop) (l : list A) :
  (∀ a, ∃ b, f a = Some b ∧ P b) →
  ∃ bs, mapM f l = Some bs ∧ length bs = length l ∧ Forall P bs.
Proof.
  intros Hf. induction l as [|a l (bs & E & Hl & HP)].
  - exists []. by repeat split.
  - destruct (Hf a) as (b & Eb & Pb).
    exists (b :: bs). simpl. rewrite Eb. simpl. rewrite E. simpl.
    split; [reflexivity|]. split; [by rewrite Hl|by constructor].
Qed.

Lemma GetState_spec (position : Vector2) (angle speed : Q) :
  ∃ short long,
    GetState cos sin trackImage position angle speed
      = Some ([ (speed / MAX_SPEED)%Q; sin angle; cos angle;
                (x position / inject_Z (width trackImage))%Q;
                (y position / inject_Z (height trackImage))%Q ]
              ++ short ++ long)
    ∧ length short = 13%nat ∧ length long = 5%nat
    ∧ Forall (λ v, (10 # 41 <= v <= 1)%Q) short
    ∧ Forall (λ v, (0 <= v <= 1)%Q) long.
Proof.
  unfold GetState.
  match goal with |- context [mapM ?f angleOffsets] =>
    destruct (mapM_total f (λ v, (10 # 41 <= v <= 1)%Q) angleOffsets)
      as (short & Es & Ls & Ps)
  end.
  { intros offset.
    destruct (CastLIDARRay_spec position (angle + offset)%Q LIDAR_RANGE)
      as (d & -> & _ & Hd).
    unfold LIDAR_RANGE in Hd. specialize (Hd ltac:(lra)).
    eexists. split; [reflexivity|].
    unfold REFERENCE_DIST.
    set (t := (d / 50 + 0.1)%Q).
    assert (Ht : (0.1 <= t <= 4.1)%Q).
    { unfold t. assert (d / 50 == d * (1 # 50))%Q by reflexivity. lra. }
    assert (Hdanger : (10 # 41 <= 1 / t)%Q).
    { apply Qle_shift_div_l; lra. }
    unfold std_min.
    destruct (Qltb (1 / t) 1) eqn:Hlt;
      [apply Qltb_true in Hlt|apply Qltb_false in Hlt]; lra. }
  match goal with |- context [mapM ?f anticipateOffsets] =>
    destruct (mapM_total f (λ v, (0 <= v <= 1)%Q) anticipateOffsets)
      as (long & El & Ll & Pl)
  end.
  { intros offset.
    destruct (CastLIDARRay_spec position (angle + offset)%Q LONG_RANGE)
      as (d & -> & _).
    eexists. split; [reflexivity|]. cbv zeta.
    destruct (Qltb (d / LONG_RANGE) 0) eqn:H0;
      [apply Qltb_true in H0|apply Qltb_false in H0];
      match goal with |- context [Qltb 1 ?v] =>
        destruct (Qltb 1 v) eqn:H1;
          [apply Qltb_true in H1|apply Qltb_false in H1]
      end; lra. }
  exists short, long. rewrite Es, El. simpl.
  split; [reflexivity|]. by repeat split.
Qed.

(** X13. [GetState] returns [STATE_SIZE] = 23 features, so the size
    check of [main] never fails: the speed over [MAX_SPEED], between -1/2
    and 1 for a speed in range, the sine and cosine of the heading, the
    position, thirteen short-range danger values between 10/41 and 1, and
    five long-range distances between 0 and 1. *)
Theorem GetState_features (position : Vector2) (angle speed : Q) :
  ∃ state, GetState cos sin trackImage position angle speed = Some state
    ∧ Z.of_nat (length state) = STATE_SIZE
    ∧ take 3 state = [(speed / MAX_SPEED)%Q; sin angle; cos angle]
    ∧ (∀ i v, (5 ≤ i < 18)%nat → state !! i = Some v →
         (10 # 41 <= v <= 1)%Q)
    ∧ (∀ i v, (18 ≤ i < 23)%nat → state !! i = Some v → (0 <= v <= 1)%Q)
    ∧ ((-150 <= speed <= 300)%Q → (- (1 # 2) <= speed / MAX_SPEED <= 1)%Q).
Proof.
  destruct (GetState_spec position angle speed)
    as (short & long & E & Ls & Ll & Ps & Pl).
  eexists. split; [exact E|].
  split; [rewrite !length_app, Ls, Ll; reflexivity|].
  split; [reflexivity|]. split; [|split].
  - intros i v Hi Hv.
    rewrite lookup_app_r in Hv by (simpl; lia).
    rewrite lookup_app_l in Hv by (simpl; lia).
    rewrite Forall_forall in Ps. apply Ps.
    eapply list_elem_of_lookup_2; exact Hv.
  - intros i v Hi Hv.
    rewrite lookup_app_r in Hv by (simpl; lia).
    rewrite lookup_app_r in Hv by (simpl; lia).
    rewrite Forall_forall in Pl. apply Pl.
    eapply list_elem_of_lookup_2; exact Hv.
  - intros Hs. unfold MAX_SPEED.
    assert (speed / 300 == speed * (1 # 300))%Q by reflexivity. lra.
Qed.

End SensorFacts.

(** ** The choice of an action *)

Section ChoiceFacts.
Import Trainer.

Lemma argmax_from_first (l : list Q) : ∀ (i bi : nat) (b : Q),
  (bi < i)%nat →
  (fst (DQN.argmax_from l i bi b) = bi
   ∨ ((b < snd (DQN.argmax_from l i bi b))%Q
      ∧ (i ≤ fst (DQN.argmax_from l i bi b))%nat))
  ∧ ∀ j q, l !! j = Some q → (i + j < fst (DQN.argmax_from l i bi b))%nat →
      (q < snd (DQN.argmax_from l i bi b))%Q.
Proof.
  induction l as [|x l IH]; intros i bi b Hbi; simpl.
  - split; [by left|]. intros j q Hq. discriminate.
  - destruct (Qltb b x) eqn:Hlt.
    + apply Qltb_true in Hlt.
      destruct (IH (S i) i x ltac:(lia)) as [Hr Hbefore].
      destruct (argmax_from_spec l (S i) i x) as (Hx & _).
      split.
      * right. split; [lra|]. destruct Hr as [->|[_ ?]]; lia.
      * intros [|j] q Hq Hj; simpl in Hq.
        -- injection Hq as <-. destruct Hr as [Hr|[? _]]; [lia|assumption].
        -- apply (Hbefore j q Hq). lia.
    + apply Qltb_false in Hlt.
      destruct (IH (S i) bi b ltac:(lia)) as [Hr Hbefore].
      split.
      * destruct Hr as [->|[? ?]]; [by left|right; split; [assumption|lia]].
      * intros [|j] q Hq Hj; simpl in Hq.
        -- injection Hq as <-. destruct Hr as [Hr|[? _]]; [lia|lra].
        -- apply (Hbefore j q Hq). lia.
Qed.

(** [max_element] on a vector that is not empty: the index is in range,
    holds a greatest element, and every element before it is smaller. *)
Lemma max_element_index_spec (v : list Q) :
  v ≠ [] →
  0 ≤ max_element_index v < Z.of_nat (length v)
  ∧ ∃ m, v !! Z.to_nat (max_element_index v) = Some m
      ∧ (∀ j q, v !! j = Some q → (q <= m)%Q)
      ∧ (∀ j q, v !! j = Some q →
           (j < Z.to_nat (max_element_index v))%nat → (q < m)%Q).
Proof.
  intros Hne.
  destruct (argmax_total_spec v Hne) as [Hidx Hmax].
  destruct v as [|x v]; [congruence|].
  unfold max_element_index. unfold argmax_total in *.
  rewrite Nat2Z.id.
  split; [apply lookup_lt_Some in Hidx; lia|].
  eexists. split; [exact Hidx|]. split; [exact Hmax|].
  intros j q Hq Hj.
  destruct (argmax_from_first v 1 0 x ltac:(lia)) as [Hr Hbefore].
  destruct j as [|j]; simpl in Hq.
  - injection Hq as <-. destruct Hr as [Hr|[? _]]; [lia|assumption].
  - apply (Hbefore j q Hq). lia.
Qed.

Section Choice.
Variable AdamState : Type.
Variable RAND_MAX : Z.
Variable cos sin : Q → Q.
Variable trackImage : Image.

(** X14. For a learner of the dimensions of [main], the observation
    [GetState] returns is accepted by [predict]; the greedy action is the
    index of the first greatest Q-value; and the action chosen, greedy or
    random, is one of the [ACTION_SIZE] = 7 cases of the action switch. *)
Theorem chosen_action_in_range (d : DQN.t AdamState) (epsilon : Q)
    (r1 r2 : Z) (position : Vector2) (angle speed : Q) :
  dqn_wf d →
  DQN.state_size_ _ d = STATE_SIZE → DQN.action_size_ _ d = ACTION_SIZE →
  0 ≤ r2 →
  ∃ state q_values g a,
    GetState cos sin trackImage position angle speed = Some state
    ∧ DQN.predict _ d state = Some q_values
    ∧ greedy_choice _ d state = Some g
    ∧ 0 ≤ g < ACTION_SIZE
    ∧ (∃ m, q_values !! Z.to_nat g = Some m
         ∧ (∀ j q, q_values !! j = Some q → (q <= m)%Q)
         ∧ (∀ j q, q_values !! j = Some q → (j < Z.to_nat g)%nat →
              (q < m)%Q))
    ∧ choose_action _ RAND_MAX d epsilon r1 r2 state = Some a
    ∧ 0 ≤ a < ACTION_SIZE.
Proof.
  intros Hwf Hss Has Hr2.
  destruct (GetState_spec cos sin trackImage position angle speed)
    as (short & long & E & Ls & Ll & _).
  set (state := _ ++ short ++ long) in E.
  assert (Hlen : length state = Z.to_nat (DQN.state_size_ _ d)).
  { unfold state. rewrite Hss, !length_app, Ls, Ll. reflexivity. }
  destruct (proj1 (predict_spec _ d state Hwf) Hlen) as [Ep Lp].
  set (q_values := forward_row _ _) in *.
  assert (Hne : q_values ≠ []).
  { intros H0. rewrite H0, Has in Lp. discriminate. }
  destruct (max_element_index_spec q_values Hne) as [Hidx Hmax].
  rewrite Lp, Has in Hidx.
  assert (Hg : greedy_choice _ d state = Some (max_element_index q_values)).
  { unfold greedy_choice. rewrite Ep. reflexivity. }
  exists state, q_values, (max_element_index q_values).
  unfold choose_action. rewrite Hg.
  destruct (Qltb _ epsilon).
  - exists (Z.rem r2 ACTION_SIZE).
    repeat (split; [assumption || reflexivity|]).
    unfold ACTION_SIZE in *. apply Z.rem_bound_pos; lia.
  - exists (max_element_index q_values).
    repeat (split; [assumption || reflexivity|]). exact Hidx.
Qed.

End Choice.
End ChoiceFacts.

(** ** The vehicle on the track *)

Section TrackFacts.
Import Trainer.
Variable cos sin sqrtf : Q → Q.
Variable trackImage : Image.

(** A property kept by the iterations the loop condition lets through
    holds all along the trace; [Pend] is what it leaves after an
    iteration that ends the loop. *)
Lemma train_trace_guarded (P Pend : TrainEpisode → Prop) :
  (∀ e e' action,
     P e → raceFinished (train_race e) = false → episode_steps e < max_steps →
     train_step cos sin sqrtf trackImage e action = Some (e', Continue) →
     P e') →
  (∀ e e' action,
     P e → raceFinished (train_race e) = false → episode_steps e < max_steps →
     train_step cos sin sqrtf trackImage e action = Some (e', Break) →
     Pend e') →
  (∀ e, P e → Pend e) →
  ∀ actions e, P e →
    Forall Pend (train_trace cos sin sqrtf trackImage actions e).
Proof.
  intros Hcont Hbreak Hweak actions.
  induction actions as [|action rest IH]; intros e He; simpl; [constructor|].
  destruct (raceFinished (train_race e)) eqn:Hfin; [constructor|].
  destruct (Z.leb_spec max_steps (episode_steps e)) as [?|Hlt];
    [constructor|]. simpl.
  destruct (train_step _ _ _ _ e action) as [[e' ex]|] eqn:Hs; [|constructor].
  destruct ex.
  - pose proof (Hcont _ _ _ He Hfin Hlt Hs) as He'.
    constructor; [by apply Hweak|by apply IH].
  - constructor; [|constructor]. exact (Hbreak _ _ _ He Hfin Hlt Hs).
Qed.

Lemma eval_trace_guarded (P : EvalEpisode → Prop) (dt : Q) (max_steps : Z) :
  (∀ e e' action,
     P e → raceFinished (eval_race e) = false → steps e < max_steps →
     eval_step cos sin trackImage dt e action = Some e' → P e') →
  ∀ actions e, P e →
    Forall P (eval_trace cos sin trackImage dt max_steps actions e).
Proof.
  intros Hstep actions.
  induction actions as [|action rest IH]; intros e He; simpl; [constructor|].
  destruct (raceFinished (eval_race e)) eqn:Hfin; [constructor|].
  destruct (Z.leb_spec max_steps (steps e)) as [?|Hlt]; [constructor|]. simpl.
  destruct (eval_step _ _ _ _ e action) as [e'|] eqn:Hs; [|constructor].
  pose proof (Hstep _ _ _ He Hfin Hlt Hs) as He'.
  constructor; [exact He'|by apply IH].
Qed.

(** The wall bounce puts the vehicle back where it was: after one pass
    through the physics the vehicle is where it started, or at a pixel
    inside the image that is not a wall. *)
Lemma physics_step_off_wall (dt : Q) (action : Z) (v : Vehicle) :
  off_wall trackImage (position v) →
  off_wall trackImage
    (position (vehicle (physics_step cos sin trackImage dt action v))).
Proof.
  intros Hv. unfold physics_step.
  destruct (action_inputs action) as [accelerationInput steeringInput].
  cbv zeta.
  match goal with |- context [if ?c then mkPhysics _ _ _ else _] =>
    destruct c eqn:Hhit end; cbn [vehicle position]; [exact Hv|].
  unfold off_wall. cbn [x y] in Hhit |- *.
  match type of Hhit with (if ?c then _ else _) = _ =>
    destruct c; [|discriminate] end.
  by split.
Qed.

Lemma off_wall_surface (p : Vector2) :
  off_wall trackImage p →
  (surface_friction trackImage p = 1%Q ∨ surface_friction trackImage p = 3%Q)
  ∧ Qltb 2 (surface_friction trackImage p)
    = IsGrass (GetImageColor trackImage (int_of_float (x p))
                 (int_of_float (y p))).
Proof.
  intros [Hin Hwall]. unfold surface_friction, GetFrictionMultiplier.
  rewrite Hin, Hwall.
  destruct (IsGrass _); [by split; [right|]|].
  destruct (IsTrack _); by split; [left|].
Qed.

(** X15. The vehicle never rests on a wall: if the start position is a
    pixel inside the image that is not a wall, so is the position at the
    start and after every iteration of the training loop and of the
    evaluation loop.  At such a position the surface friction is 1 or 3,
    and the test [surfaceFriction > 2.0f] holds exactly on grass. *)
Theorem vehicle_stays_off_walls (checkpointsTemplate : list Checkpoint)
    (dt : Q) (eval_max_steps : Z) (actions : list Z) :
  off_wall trackImage (position vehicle_reset) →
  Forall (λ e, off_wall trackImage (position (train_vehicle e)))
    (train_states cos sin sqrtf trackImage checkpointsTemplate actions)
  ∧ Forall (λ e, off_wall trackImage (position (eval_vehicle e)))
      (eval_states cos sin trackImage checkpointsTemplate dt eval_max_steps
         actions)
  ∧ ∀ p, off_wall trackImage p →
      (surface_friction trackImage p = 1%Q
       ∨ surface_friction trackImage p = 3%Q)
      ∧ Qltb 2 (surface_friction trackImage p)
        = IsGrass (GetImageColor trackImage (int_of_float (x p))
                     (int_of_float (y p))).
Proof.
  intros H0. unfold train_states, eval_states. split; [|split].
  - constructor; [exact H0|].
    apply train_trace_Forall; [|exact H0].
    intros e e' action ex He Hs.
    apply train_step_inv in Hs as [[-> _]|[-> _]]; [exact He|].
    by apply physics_step_off_wall.
  - constructor; [exact H0|].
    apply eval_trace_Forall; [|exact H0].
    intros e e' action He Hs.
    apply eval_step_inv in Hs as [-> _].
    by apply physics_step_off_wall.
  - exact off_wall_surface.
Qed.

End TrackFacts.

(** ** Checkpoints in order, laps, and the end of the race *)

Section OrderFacts.
Import Trainer.

Lemma race_reset_in_order (checkpointsTemplate : list Checkpoint) :
  flags_in_order (race_reset checkpointsTemplate).
Proof.
  left. unfold race_reset. simpl. repeat split.
  apply Forall_fmap, Forall_forall. intros ? _. reflexivity.
Qed.

(** The checkpoint block keeps the order of the flags, while the race is
    not finished. *)
Lemma checkpoint_block_order (training : bool) (n : nat) (race : Race)
    (prevPosition position : Vector2) (rwd : Q) (stmts : list Stmt) :
  (2 ≤ n)%nat → race_inv n race → flags_in_order race →
  raceFinished race = false →
  checkpoint_block training race prevPosition position = Some stmts →
  flags_in_order (fst (exec stmts (race, rwd))).
Proof.
  intros Hn (Hlen & Hnext & Hflag) Hord Hfin Hb.
  unfold checkpoint_block in Hb.
  destruct (Z.ltb_spec (nextCheckpoint race) 0) as [?|_]; [lia|].
  destruct (checkpoints race !! Z.to_nat (nextCheckpoint race)) as [cp|] eqn:Hcp;
    cbv beta iota delta [mbind option_bind] in Hb; [|discriminate].
  injection Hb as <-.
  destruct (CheckCrossing cp prevPosition position); [|exact Hord].
  destruct (Z.eqb_spec (nextCheckpoint race) 0) as [H0|H0].
  - rewrite H0 in *. change (Z.to_nat 0) with 0%nat in *.
    destruct (Z.ltb_spec 0 (currentLap race)) as [Hlap|Hlap].
    + destruct Hord as [(Hl & _)|(Hl & Hf & Hcr)]; [lia|].
      assert (Hall : forallb crossed (drop 1 (checkpoints race)) = true).
      { apply forallb_forall. intros c Hc.
        apply list_elem_of_In, list_elem_of_lookup in Hc as [i Hi].
        rewrite lookup_drop in Hi. apply (Hcr _ _ Hi). split; [lia|by left]. }
      rewrite Hall.
      match goal with |- context [exec ?l (race, rwd)] =>
        destruct (lap_completion_exec training race rwd l eq_refl) as [rwd' E]
      end.
      rewrite E. cbn [fst]. right. cbn [currentLap raceFinished checkpoints
        nextCheckpoint].
      assert (Hne : currentLap race ≠ totalLaps).
      { intros Heq. apply Hf in Heq. congruence. }
      split; [lia|]. split.
      { rewrite Hfin. simpl.
        destruct (Z.leb_spec totalLaps (currentLap race + 1));
          split; intros; try lia; try discriminate; reflexivity. }
      intros i c Hi. rewrite list_lookup_fmap in Hi.
      destruct (checkpoints race !! i); [|discriminate].
      injection Hi as <-. simpl. split; [discriminate|]. lia.
    + destruct Hord as [(Hl & Hn0 & _ & Hclear)|(Hl & _)]; [|lia].
      unfold exec. simpl. right. unfold totalLaps.
      cbn [currentLap raceFinished checkpoints nextCheckpoint].
      split; [lia|]. split; [rewrite Hfin; split; [discriminate|lia]|].
      intros i c Hi.
      assert (Hc : crossed c = false).
      { destruct (decide (i = 0%nat)) as [->|Hi0].
        - rewrite list_lookup_alter in Hi.
          destruct (checkpoints race !! 0%nat); [|discriminate].
          by injection Hi as <-.
        - rewrite list_lookup_alter_ne in Hi by done.
          rewrite Forall_forall in Hclear. apply Hclear.
          eapply list_elem_of_lookup_2; exact Hi. }
      rewrite Hc. split; [discriminate|]. lia.
  - destruct Hord as [(_ & Hn0 & _)|(Hl & Hf & Hcr)]; [contradiction|].
    destruct (Z.ltb_spec 0 (currentLap race)) as [_|?]; [|lia].
    cbn [andb negb].
    set (idx := Z.to_nat (nextCheckpoint race)) in *.
    assert (Hrace :
      fst (exec (set_crossed idx true :: reward_stmt training 50
                 ++ [set_nextCheckpoint
                       (λ race, Z.rem (nextCheckpoint race + 1)
                                  (Z.of_nat (length (checkpoints race))))])
             (race, rwd))
      = mkRace (alter (set_crossed_flag true) idx (checkpoints race))
               (currentLap race)
               (Z.rem (nextCheckpoint race + 1) (Z.of_nat n))
               (raceFinished race)).
    { destruct training; unfold exec; simpl; rewrite length_alter;
        by rewrite Hlen. }
    rewrite Hrace. clear Hrace. right.
    cbn [currentLap raceFinished checkpoints nextCheckpoint].
    split; [exact Hl|]. split; [exact Hf|].
    intros i c Hi.
    assert (Hi_lt : (i < n)%nat).
    { apply lookup_lt_Some in Hi. rewrite length_alter in Hi. lia. }
    assert (Hrem :
      (nextCheckpoint race + 1 < Z.of_nat n
       ∧ Z.rem (nextCheckpoint race + 1) (Z.of_nat n) = nextCheckpoint race + 1)
      ∨ (nextCheckpoint race + 1 = Z.of_nat n
         ∧ Z.rem (nextCheckpoint race + 1) (Z.of_nat n) = 0)).
    { destruct (Z.lt_ge_cases (nextCheckpoint race + 1) (Z.of_nat n)).
      - left. split; [assumption|]. apply Z.rem_small. lia.
      - right. assert (E : nextCheckpoint race + 1 = Z.of_nat n) by lia.
        split; [exact E|]. rewrite E. apply Z.rem_same. lia. }
    destruct (decide (i = idx)) as [->|Hne].
    + rewrite list_lookup_alter, Hcp in Hi. simpl in Hi.
      rewrite decide_True in Hi by done.
      injection Hi as <-. simpl.
      split; [intros _|reflexivity].
      destruct Hrem as [[_ ->]|[_ ->]]; lia.
    + rewrite list_lookup_alter_ne in Hi by done.
      rewrite (Hcr i c Hi).
      destruct Hrem as [[? ->]|[? ->]]; lia.
Qed.

Section Loops.
Variable cos sin sqrtf : Q → Q.
Variable trackImage : Image.

Lemma train_trace_in_order (checkpointsTemplate : list Checkpoint)
    (actions : list Z) :
  (2 ≤ length checkpointsTemplate)%nat →
  Forall (λ e, race_inv (length checkpointsTemplate) (train_race e)
               ∧ flags_in_order (train_race e))
    (train_states cos sin sqrtf trackImage checkpointsTemplate actions).
Proof.
  intros Hn. unfold train_states.
  assert (H0 : race_inv (length checkpointsTemplate)
                 (train_race (train_reset checkpointsTemplate))
               ∧ flags_in_order (train_race (train_reset checkpointsTemplate))).
  { split; [by apply race_reset_inv|apply race_reset_in_order]. }
  constructor; [exact H0|].
  assert (Hstep : ∀ e e' action ex,
    race_inv (length checkpointsTemplate) (train_race e)
    ∧ flags_in_order (train_race e) →
    raceFinished (train_race e) = false →
    train_step cos sin sqrtf trackImage e action = Some (e', ex) →
    race_inv (length checkpointsTemplate) (train_race e')
    ∧ flags_in_order (train_race e')).
  { intros e e' action ex [Hinv Hord] Hfin Hs.
    apply train_step_inv in Hs as [[_ ->]|[_ (stmts & rwd & Hb & ->)]];
      [by split|].
    destruct (checkpoint_block_spec true _ (train_race e)
                (position (train_vehicle e)) (position (train_vehicle e')) rwd
                Hn Hinv) as (stmts' & Hb' & Hinv' & _).
    rewrite Hb in Hb'. injection Hb' as <-.
    split; [exact Hinv'|].
    eapply checkpoint_block_order; eassumption. }
  set (J := λ e : TrainEpisode,
              race_inv (length checkpointsTemplate) (train_race e)
              ∧ flags_in_order (train_race e)) in *.
  apply (train_trace_guarded cos sin sqrtf trackImage J J);
    [| |auto|exact H0].
  - intros e e' action He Hfin _ Hs. exact (Hstep _ _ _ _ He Hfin Hs).
  - intros e e' action He Hfin _ Hs. exact (Hstep _ _ _ _ He Hfin Hs).
Qed.

Lemma eval_trace_in_order (checkpointsTemplate : list Checkpoint)
    (dt : Q) (eval_max_steps : Z) (actions : list Z) :
  (2 ≤ length checkpointsTemplate)%nat →
  Forall (λ e, race_inv (length checkpointsTemplate) (eval_race e)
               ∧ flags_in_order (eval_race e))
    (eval_states cos sin trackImage checkpointsTemplate dt eval_max_steps
       actions).
Proof.
  intros Hn. unfold eval_states.
  assert (H0 : race_inv (length checkpointsTemplate)
                 (eval_race (eval_reset checkpointsTemplate))
               ∧ flags_in_order (eval_race (eval_reset checkpointsTemplate))).
  { split; [by apply race_reset_inv|apply race_reset_in_order]. }
  constructor; [exact H0|].
  set (J := λ e : EvalEpisode,
              race_inv (length checkpointsTemplate) (eval_race e)
              ∧ flags_in_order (eval_race e)) in *.
  apply (eval_trace_guarded cos sin trackImage J dt eval_max_steps);
    [|exact H0].
  intros e e' action [Hinv Hord] Hfin _ Hs. unfold J.
  apply eval_step_inv in Hs as (_ & _ & stmts & Hb & ->).
  destruct (checkpoint_block_spec false _ (eval_race e)
              (position (eval_vehicle e)) (position (eval_vehicle e')) 0%Q
              Hn Hinv) as (stmts' & Hb' & Hinv' & _).
  rewrite Hb in Hb'. injection Hb' as <-.
  split; [exact Hinv'|].
  eapply checkpoint_block_order; eassumption.
Qed.

(** X16. Checkpoints are taken in order.  At the start and after every
    iteration of either loop the flagged checkpoints are exactly those
    from 1 up to the next one (all of them when the finish line is next),
    and none before the first crossing of the finish line.  So whenever
    the finish line is next in a lap under way, every other checkpoint is
    flagged: the test [allCrossed] cannot fail. *)
Theorem checkpoints_flagged_in_order (checkpointsTemplate : list Checkpoint)
    (dt : Q) (eval_max_steps : Z) (actions : list Z) :
  (2 ≤ length checkpointsTemplate)%nat →
  Forall (λ e, flags_in_order (train_race e))
    (train_states cos sin sqrtf trackImage checkpointsTemplate actions)
  ∧ Forall (λ e, flags_in_order (eval_race e))
      (eval_states cos sin trackImage checkpointsTemplate dt eval_max_steps
         actions)
  ∧ ∀ race, flags_in_order race →
      nextCheckpoint race = 0 → 0 < currentLap race →
      forallb crossed (drop 1 (checkpoints race)) = true.
Proof.
  intros Hn. split; [|split].
  - eapply Forall_impl; [apply train_trace_in_order; exact Hn|].
    intros e [_ H]. exact H.
  - eapply Forall_impl; [apply eval_trace_in_order; exact Hn|].
    intros e [_ H]. exact H.
  - intros race [(Hl & _)|(_ & _ & Hcr)] H0 Hlap; [lia|].
    apply forallb_forall. intros c Hc.
    apply list_elem_of_In, list_elem_of_lookup in Hc as [i Hi].
    rewrite lookup_drop in Hi. apply (Hcr _ _ Hi). split; [lia|by left].
Qed.


Lemma flags_in_order_laps (race : Race) :
  flags_in_order race →
  (currentLap race = -1 ∨ currentLap race = 1 ∨ currentLap race = 2
   ∨ currentLap race = 3)
  ∧ (raceFinished race = true ↔ currentLap race = 3).
Proof.
  unfold flags_in_order, totalLaps.
  intros [(Hl & _ & Hf & _)|(Hl & Hf & _)].
  - split; [by left|]. rewrite Hf, Hl. split; [discriminate|lia].
  - split; [lia|exact Hf].
Qed.

Section Statistics.
Variable AdamState : Type.

(** X17. The lap counter only takes the values -1, 1, 2 and 3, and the
    race is finished exactly when it is 3, in both loops.  The statistics
    log receives a finished flag of 1 exactly with a lap count of 3. *)
Theorem race_finished_exactly_at_lap_three
    (checkpointsTemplate : list Checkpoint) (dt : Q) (eval_max_steps : Z)
    (actions : list Z) (t : Trainer AdamState) (total_loss : Q)
    (loss_count : Z) :
  (2 ≤ length checkpointsTemplate)%nat →
  Forall (λ e, (currentLap (train_race e) = -1 ∨ currentLap (train_race e) = 1
                ∨ currentLap (train_race e) = 2
                ∨ currentLap (train_race e) = 3)
               ∧ (raceFinished (train_race e) = true
                  ↔ currentLap (train_race e) = 3))
    (train_states cos sin sqrtf trackImage checkpointsTemplate actions)
  ∧ Forall (λ e, (currentLap (eval_race e) = -1 ∨ currentLap (eval_race e) = 1
                  ∨ currentLap (eval_race e) = 2
                  ∨ currentLap (eval_race e) = 3)
                 ∧ (raceFinished (eval_race e) = true
                    ↔ currentLap (eval_race e) = 3))
      (eval_states cos sin trackImage checkpointsTemplate dt eval_max_steps
         actions)
  ∧ ∀ e, e ∈ train_states cos sin sqrtf trackImage checkpointsTemplate actions →
      ∃ laps finished,
        episode_laps (stats _ (after_episode _ t e total_loss loss_count))
        = episode_laps (stats _ t) ++ [laps]
        ∧ episode_finishes (stats _ (after_episode _ t e total_loss loss_count))
          = episode_finishes (stats _ t) ++ [finished]
        ∧ ((finished = 1 ∧ laps = 3) ∨ (finished = 0 ∧ laps ≠ 3)).
Proof.
  intros Hn.
  pose proof (train_trace_in_order checkpointsTemplate actions Hn) as Ht.
  pose proof (eval_trace_in_order checkpointsTemplate dt eval_max_steps
                actions Hn) as He.
  split; [|split].
  - eapply Forall_impl; [exact Ht|].
    intros e [_ H]. by apply flags_in_order_laps.
  - eapply Forall_impl; [exact He|].
    intros e [_ H]. by apply flags_in_order_laps.
  - intros e Hin. rewrite Forall_forall in Ht.
    destruct (Ht e Hin) as [_ Hord].
    apply flags_in_order_laps in Hord as [_ Hfin].
    exists (currentLap (train_race e)),
           (if raceFinished (train_race e) then 1 else 0).
    split; [|split].
    + unfold after_episode, lr_schedule. simpl.
      repeat (match goal with |- context [if ?c then _ else _] =>
                destruct c end; simpl); reflexivity.
    + unfold after_episode, lr_schedule. simpl.
      repeat (match goal with |- context [if ?c then _ else _] =>
                destruct c end; simpl); reflexivity.
    + destruct (raceFinished (train_race e)).
      * left. split; [reflexivity|]. by apply Hfin.
      * right. split; [reflexivity|]. intros H3. apply Hfin in H3.
        discriminate.
Qed.

End Statistics.

End Loops.
End OrderFacts.

(** ** The length of an episode and the stuck detector *)

Section StuckFacts.
Import Trainer.
Variable cos sin sqrtf : Q → Q.
Variable trackImage : Image.

Lemma rem_zero_multiple (s m : Z) :
  0 ≤ s → 0 < m → Z.rem s m = 0 → ∃ q, s = q * m.
Proof.
  intros Hs Hm Hrem. rewrite Z.rem_mod_nonneg in Hrem by lia.
  apply Z.mod_divide in Hrem; [|lia]. exact Hrem.
Qed.

Lemma train_step_counters (e e' : TrainEpisode) (action : Z) (ex : LoopExit) :
  counters_running e → episode_steps e < max_steps →
  train_step cos sin sqrtf trackImage e action = Some (e', ex) →
  counters_step e e' ex ∧ (ex = Continue → counters_running e').
Proof.
  unfold counters_running, counters_step, train_step, stuck_check,
    STUCK_STRIKES_MAX, STUCK_CHECK_INTERVAL, max_steps.
  intros (Hs & Hc & Hk) Hlt H.
  destruct (Z.eqb_spec (Z.rem (episode_steps e) 75) 0) as [Hrem|Hrem];
    destruct (Z.ltb_spec 0 (episode_steps e)) as [Hpos|Hpos];
    cbn [andb] in H.
  1: destruct (Qltb _ STUCK_DIST_THRESHOLD).
  1: destruct (Z.leb_spec 3 (stuckCounter e + 1)) as [Hmax|Hmax].
  1: { injection H as <- <-. simpl. split; [|discriminate].
       right. repeat split; try reflexivity; try exact Hrem; try lia.
       destruct (rem_zero_multiple _ 75 (proj1 Hs) eq_refl Hrem)
         as [mult Hmult].
       lia. }
  all: unbind H; unbind H;
    destruct (checkpoint_block _ _ _ _) as [stmts|]; simpl in H;
      [|discriminate];
    match type of H with context [exec stmts ?s] =>
      destruct (exec stmts s) as [race' reward'] end;
    unbind H; injection H as <- <-; simpl;
    (split; [left|]).
  all: try (split; [reflexivity|]; split; [lia|]).
  all: try (intros Hex;
            destruct (raceFinished race'); simpl in Hex;
              [by left|];
            destruct (Z.leb_spec 7500 (episode_steps e + 1));
              [right; lia|discriminate]).
  all: intros _; repeat split; try lia.
  all: try (destruct (rem_zero_multiple _ 75 (proj1 Hs) eq_refl Hrem)
              as [mult Hmult]; lia).
Qed.

(** An iteration that does not break out of the loop leaves its
    condition true. *)
Lemma train_step_continue (e e' : TrainEpisode) (action : Z) :
  train_step cos sin sqrtf trackImage e action = Some (e', Continue) →
  raceFinished (train_race e') = false ∧ episode_steps e' < max_steps.
Proof.
  unfold train_step. intros H.
  destruct (stuck_check sqrtf e) as [[sc lp]|]; [|discriminate H].
  unbind H. unbind H.
  destruct (checkpoint_block _ _ _ _) as [stmts|]; simpl in H;
    [|discriminate].
  match type of H with context [exec stmts ?s] =>
    destruct (exec stmts s) as [race' reward'] end.
  unbind H.
  destruct (raceFinished race') eqn:Hfin; [discriminate H|].
  destruct (Z.leb_spec max_steps (episode_steps e + 1)) as [?|Hlt];
    [discriminate H|].
  cbn [orb] in H. injection H as <-. cbn [train_race episode_steps].
  split; [exact Hfin|exact Hlt].
Qed.

(** Two consecutive states of the training loop: the loop condition held
    at the first, the second is the training step of the first on the
    action of that iteration, and the exit flag of that step tells whether
    the loop went on. *)
Lemma train_trace_counters (actions : list Z) : ∀ (e : TrainEpisode),
  counters_running e →
  ∀ i e1 e2,
    (e :: train_trace cos sin sqrtf trackImage actions e) !! i = Some e1 →
    (e :: train_trace cos sin sqrtf trackImage actions e) !! S i = Some e2 →
    raceFinished (train_race e1) = false
    ∧ episode_steps e1 < max_steps
    ∧ ∃ action ex,
        actions !! i = Some action
        ∧ train_step cos sin sqrtf trackImage e1 action = Some (e2, ex)
        ∧ counters_step e1 e2 ex
        ∧ (ex = Break →
           (e :: train_trace cos sin sqrtf trackImage actions e) !! S (S i)
           = None)
        ∧ (ex = Continue →
           raceFinished (train_race e2) = false
           ∧ episode_steps e2 < max_steps).
Proof.
  induction actions as [|action rest IH]; intros e He i e1 e2 H1 H2;
    simpl in *; [destruct i; discriminate|].
  destruct (raceFinished (train_race e)) eqn:Hfin;
    [destruct i; discriminate|].
  destruct (Z.leb_spec max_steps (episode_steps e)) as [?|Hlt];
    [destruct i; discriminate|]. simpl in *.
  destruct (train_step _ _ _ _ e action) as [[e' ex]|] eqn:Hs;
    [|destruct i; discriminate].
  destruct (train_step_counters _ _ _ _ He Hlt Hs) as [Hstep Hrun].
  destruct ex.
  - destruct i as [|i].
    + injection H1 as <-. injection H2 as <-.
      split; [exact Hfin|]. split; [exact Hlt|].
      exists action, Continue. split; [reflexivity|]. split; [exact Hs|].
      split; [exact Hstep|]. split; [discriminate|].
      intros _. exact (train_step_continue _ _ _ Hs).
    + exact (IH e' (Hrun eq_refl) i e1 e2 H1 H2).
  - destruct i as [|i]; [|destruct i; discriminate].
    injection H1 as <-. injection H2 as <-.
    split; [exact Hfin|]. split; [exact Hlt|].
    exists action, Break. split; [reflexivity|]. split; [exact Hs|].
    split; [exact Hstep|]. split; [reflexivity|discriminate].
Qed.

(** X18. An episode of the training loop counts at most [max_steps]
    steps.  Between two consecutive states of the loop its condition held
    and one training step was made, on the action of that iteration.  The
    step counts one step, and breaks out of the loop exactly when it
    leaves the race finished or [max_steps] reached -- or it is the stuck
    detector that breaks out: with the strike counter at its maximum of
    3, at a step that is a multiple of 75 and at least 225, taking 50 off
    the episode reward and leaving the step count, the vehicle and the
    race as they were.  Nothing follows the step that breaks out of the
    loop. *)
Theorem episode_length_and_stuck_break
    (checkpointsTemplate : list Checkpoint) (actions : list Z) :
  Forall (λ e, 0 ≤ episode_steps e ≤ max_steps
               ∧ 0 ≤ stuckCounter e ≤ STUCK_STRIKES_MAX)
    (train_states cos sin sqrtf trackImage checkpointsTemplate actions)
  ∧ ∀ i e1 e2,
      train_states cos sin sqrtf trackImage checkpointsTemplate actions !! i
        = Some e1 →
      train_states cos sin sqrtf trackImage checkpointsTemplate actions !! S i
        = Some e2 →
      raceFinished (train_race e1) = false
      ∧ episode_steps e1 < max_steps
      ∧ ∃ action ex,
          actions !! i = Some action
          ∧ train_step cos sin sqrtf trackImage e1 action = Some (e2, ex)
          ∧ counters_step e1 e2 ex
          ∧ (ex = Break →
             train_states cos sin sqrtf trackImage checkpointsTemplate actions
               !! S (S i) = None)
          ∧ (ex = Continue →
             raceFinished (train_race e2) = false
             ∧ episode_steps e2 < max_steps).
Proof.
  assert (H0 : counters_running (train_reset checkpointsTemplate)).
  { unfold counters_running, max_steps, STUCK_STRIKES_MAX. simpl. lia. }
  unfold train_states. split.
  - constructor.
    { unfold max_steps, STUCK_STRIKES_MAX. simpl. lia. }
    apply (train_trace_guarded cos sin sqrtf trackImage counters_running
             (λ e, 0 ≤ episode_steps e ≤ max_steps
                   ∧ 0 ≤ stuckCounter e ≤ STUCK_STRIKES_MAX)).
    + intros e e' action He _ Hlt Hs.
      by apply (train_step_counters _ _ _ _ He Hlt Hs).
    + intros e e' action He _ Hlt Hs.
      destruct (train_step_counters _ _ _ _ He Hlt Hs) as [Hstep _].
      unfold counters_running, counters_step, max_steps,
        STUCK_STRIKES_MAX in *. lia.
    + unfold counters_running. lia.
    + exact H0.
  - apply train_trace_counters. exact H0.
Qed.

End StuckFacts.

(** ** Greedy evaluation *)

Section EvaluationFacts.
Import Trainer.
Variable cos sin : Q → Q.
Variable trackImage : Image.
Variable greedy_action : Vehicle → Z.

Lemma eval_step_running (n : nat) (dt : Q) (max_steps : Z) (e : EvalEpisode)
    (action : Z) :
  (2 ≤ n)%nat → eval_running n max_steps e →
  raceFinished (eval_race e) = false → steps e < max_steps →
  ∃ e', eval_step cos sin trackImage dt e action = Some e'
    ∧ eval_running n max_steps e'.
Proof.
  intros Hn (Hinv & Hord & Hs & Hw & Hg) Hfin Hlt. unfold eval_step.
  set (ph := physics_step cos sin trackImage dt action (eval_vehicle e)).
  destruct (checkpoint_block_spec false n (eval_race e)
              (position (eval_vehicle e)) (position (vehicle ph)) 0%Q Hn Hinv)
    as (stmts & Hb & Hinv' & _).
  rewrite Hb. simpl. eexists. split; [reflexivity|].
  unfold eval_running. simpl.
  split; [exact Hinv'|]. split.
  { eapply checkpoint_block_order; eassumption. }
  destruct (hitWall ph), (Qltb 2 (surfaceFriction ph)); lia.
Qed.

Lemma eval_loop_spec (n : nat) (dt : Q) (max_steps : Z) :
  (2 ≤ n)%nat →
  ∀ (fuel : nat) (e : EvalEpisode),
  eval_running n max_steps e →
  max_steps - steps e ≤ Z.of_nat fuel →
  ∃ e', eval_loop cos sin trackImage greedy_action fuel dt max_steps e
          = Some e'
    ∧ eval_running n max_steps e'
    ∧ (raceFinished (eval_race e') = true ∨ max_steps ≤ steps e').
Proof.
  intros Hn. induction fuel as [|fuel IH]; intros e He Hfuel; simpl.
  - exists e. split; [reflexivity|]. split; [exact He|]. right. lia.
  - destruct (raceFinished (eval_race e)) eqn:Hfin; simpl.
    { exists e. split; [reflexivity|]. split; [exact He|]. by left. }
    destruct (Z.leb_spec max_steps (steps e)) as [Hge|Hlt].
    { exists e. split; [reflexivity|]. split; [exact He|]. by right. }
    destruct (eval_step_running n dt max_steps e
                (greedy_action (eval_vehicle e)) Hn He Hfin Hlt)
      as (e1 & Hs & He1).
    rewrite Hs. simpl. apply IH; [exact He1|].
    apply eval_step_inv in Hs as (_ & -> & _). lia.
Qed.

Lemma eval_reset_running (checkpointsTemplate : list Checkpoint)
    (max_steps : Z) :
  (2 ≤ length checkpointsTemplate)%nat →
  eval_running (length checkpointsTemplate) max_steps
    (eval_reset checkpointsTemplate).
Proof.
  intros Hn. unfold eval_running. simpl.
  split; [by apply race_reset_inv|].
  split; [apply race_reset_in_order|]. lia.
Qed.

Lemma eval_episode_spec (checkpointsTemplate : list Checkpoint) (dt : Q)
    (max_steps : Z) :
  (2 ≤ length checkpointsTemplate)%nat →
  ∃ e, eval_loop cos sin trackImage greedy_action (Z.to_nat max_steps) dt
         max_steps (eval_reset checkpointsTemplate) = Some e
    ∧ eval_running (length checkpointsTemplate) max_steps e
    ∧ (raceFinished (eval_race e) = true ∨ max_steps ≤ steps e).
Proof.
  intros Hn. apply eval_loop_spec; [exact Hn| |simpl; lia].
  by apply eval_reset_running.
Qed.

Lemma episode_score_bounds (n : nat) (max_steps : Z) (e : EvalEpisode) :
  eval_running n max_steps e →
  (episode_score e
   == (if raceFinished (eval_race e) then 100000 else 0)
      - inject_Z (steps e + 200 * wallHits e + 50 * grassFrames e))%Q
  ∧ (- inject_Z (251 * steps e) <= episode_score e)%Q
  ∧ (episode_score e <= 100000 - inject_Z (steps e))%Q
  ∧ (raceFinished (eval_race e) = false →
     (episode_score e <= - inject_Z (steps e))%Q).
Proof.
  intros (_ & _ & Hs & Hw & Hg).
  assert (E : (episode_score e
     == (if raceFinished (eval_race e) then 100000 else 0)
        - inject_Z (steps e + 200 * wallHits e + 50 * grassFrames e))%Q).
  { unfold episode_score, FINISH_BONUS, STEP_PENALTY, WALL_HIT_PENALTY,
      GRASS_PENALTY.
    rewrite !inject_Z_plus, !inject_Z_mult.
    destruct (raceFinished (eval_race e)); ring. }
  split; [exact E|]. rewrite E.
  assert (Hlo : (inject_Z (steps e + 200 * wallHits e + 50 * grassFrames e)
                 <= inject_Z (251 * steps e))%Q)
    by (rewrite <- Zle_Qle; lia).
  assert (Hhi : (inject_Z (steps e)
                 <= inject_Z (steps e + 200 * wallHits e + 50 * grassFrames e))%Q)
    by (rewrite <- Zle_Qle; lia).
  set (a := inject_Z (steps e + 200 * wallHits e + 50 * grassFrames e)) in *.
  set (b := inject_Z (251 * steps e)) in *.
  set (c := inject_Z (steps e)) in *.
  destruct (raceFinished (eval_race e)); repeat split; lra.
Qed.

(** X19. An evaluation episode ends: the loop of [EvaluateGreedy] returns
    after at most [max_steps] iterations, with the race finished or
    [max_steps] steps counted.  Wall hits and grass frames are at most the
    steps; the race is finished exactly at lap 3; the score of the episode
    is at least [-251 * steps], at most [100000 - steps], and at most
    [- steps] when the race is not finished. *)
Theorem evaluation_episode_ends (checkpointsTemplate : list Checkpoint)
    (dt : Q) (max_steps : Z) :
  (2 ≤ length checkpointsTemplate)%nat →
  ∃ e, eval_loop cos sin trackImage greedy_action (Z.to_nat max_steps) dt
         max_steps (eval_reset checkpointsTemplate) = Some e
    ∧ (raceFinished (eval_race e) = true ∨ max_steps ≤ steps e)
    ∧ 0 ≤ steps e ≤ Z.max 0 max_steps
    ∧ 0 ≤ wallHits e ≤ steps e
    ∧ 0 ≤ grassFrames e ≤ steps e
    ∧ (raceFinished (eval_race e) = true ↔ currentLap (eval_race e) = 3)
    ∧ (- inject_Z (251 * steps e) <= episode_score e)%Q
    ∧ (episode_score e <= 100000 - inject_Z (steps e))%Q
    ∧ (raceFinished (eval_race e) = false →
       (episode_score e <= - inject_Z (steps e))%Q).
Proof.
  intros Hn.
  destruct (eval_episode_spec checkpointsTemplate dt max_steps Hn)
    as (e & Hloop & Hrun & Hexit).
  exists e. split; [exact Hloop|]. split; [exact Hexit|].
  pose proof (episode_score_bounds _ _ _ Hrun) as (_ & Hlo & Hhi & Hun).
  destruct Hrun as (_ & Hord & Hs & Hw & Hg).
  apply flags_in_order_laps in Hord as [_ Hfin].
  split; [lia|]. split; [lia|]. split; [lia|]. split; [exact Hfin|].
  split; [exact Hlo|]. split; [exact Hhi|exact Hun].
Qed.


Lemma mapM_const {A B} (o : option B) (b : B) (l : list A) :
  o = Some b → mapM (λ _, o) l = Some (replicate (length l) b).
Proof.
  intros ->. induction l as [|a l IH]; simpl; [reflexivity|].
  rewrite IH. reflexivity.
Qed.

Lemma sumZ_replicate (f : EvalEpisode → Z) (n : nat) (e : EvalEpisode) :
  sumZ (f <$> replicate n e) = Z.of_nat n * f e.
Proof.
  induction n as [|n IH]; [unfold sumZ; simpl; lia|].
  unfold sumZ in *. cbn [replicate fmap list_fmap foldr]. rewrite IH. lia.
Qed.

Lemma sumQ_replicate (g : EvalEpisode → Q) (n : nat) (e : EvalEpisode) :
  (sumQ (g <$> replicate n e) == inject_Z (Z.of_nat n) * g e)%Q.
Proof.
  induction n as [|n IH].
  - simpl. unfold sumQ. simpl. ring.
  - unfold sumQ in *. cbn [replicate fmap list_fmap foldr]. rewrite IH.
    replace (Z.of_nat (S n)) with (Z.of_nat n + 1) by lia.
    rewrite inject_Z_plus. ring.
Qed.

Lemma filter_finished_replicate (n : nat) (e : EvalEpisode) :
  filter (λ e, raceFinished (eval_race e) = true) (replicate n e)
  = if raceFinished (eval_race e) then replicate n e else [].
Proof.
  induction n as [|n IH]; simpl; [by destruct (raceFinished _)|].
  rewrite filter_cons, IH.
  destruct (raceFinished (eval_race e)) eqn:Hf.
  - rewrite decide_True by reflexivity. reflexivity.
  - rewrite decide_False by discriminate. reflexivity.
Qed.

Lemma average_of_equal_Z (z : Z) (N : Z) :
  1 ≤ N → (average (inject_Z (N * z)) N == inject_Z z)%Q.
Proof.
  intros HN. unfold average. destruct (Z.ltb_spec 0 N); [|lia].
  rewrite inject_Z_mult.
  field. intros H0. apply (inject_Z_injective N 0) in H0. lia.
Qed.

Lemma average_sumQ_replicate (g : EvalEpisode → Q) (N : Z) (e : EvalEpisode) :
  1 ≤ N → (average (sumQ (g <$> replicate (Z.to_nat N) e)) N == g e)%Q.
Proof.
  intros HN. unfold average. destruct (Z.ltb_spec 0 N); [|lia].
  rewrite sumQ_replicate, Z2Nat.id by lia.
  field. intros H0. apply (inject_Z_injective N 0) in H0. lia.
Qed.

(** The result for [N >= 1] episodes that all end in the state [e]. *)
Lemma aggregate_replicate (N : Z) (e : EvalEpisode) :
  1 ≤ N →
  let eval := aggregate N (replicate (Z.to_nat N) e) in
  episodes eval = N
  ∧ finishes eval = (if raceFinished (eval_race e) then N else 0)
  ∧ (finish_rate eval == if raceFinished (eval_race e) then 1 else 0)%Q
  ∧ (avg_laps eval == inject_Z (currentLap (eval_race e)))%Q
  ∧ (avg_steps_finish eval
     == if raceFinished (eval_race e) then inject_Z (steps e) else 0)%Q
  ∧ (avg_steps_all eval == inject_Z (steps e))%Q
  ∧ (avg_wall_hits eval == inject_Z (wallHits e))%Q
  ∧ (avg_grass_frames eval == inject_Z (grassFrames e))%Q
  ∧ (avg_score eval == episode_score e)%Q.
Proof.
  intros HN. unfold aggregate. cbv zeta.
  cbn [episodes finishes finish_rate avg_laps avg_steps_finish avg_steps_all
       avg_wall_hits avg_grass_frames avg_score].
  rewrite filter_finished_replicate.
  rewrite !sumZ_replicate.
  assert (Hlen : Z.of_nat (length (replicate (Z.to_nat N) e)) = N)
    by (rewrite length_replicate; lia).
  rewrite !Z2Nat.id by lia.
  split; [reflexivity|].
  destruct (raceFinished (eval_race e)) eqn:Hfin.
  - rewrite Hlen, sumZ_replicate, Z2Nat.id by lia.
    split; [reflexivity|].
    split. { rewrite <- (Z.mul_1_r N) at 1. by apply average_of_equal_Z. }
    repeat split; try (by apply average_of_equal_Z).
    by apply average_sumQ_replicate.
  - cbn [length]. split; [reflexivity|].
    split. { unfold average. destruct (0 <? N); reflexivity. }
    split; [by apply average_of_equal_Z|].
    split; [reflexivity|].
    repeat split; try (by apply average_of_equal_Z).
    by apply average_sumQ_replicate.
Qed.

Lemma aggregate_no_episode (N : Z) :
  N ≤ 0 →
  aggregate N [] = mkEvalResult N 0 0 0 0 0 0 0 0.
Proof.
  intros HN. unfold aggregate, average. simpl.
  destruct (Z.ltb_spec 0 N); [lia|]. reflexivity.
Qed.

Lemma EvaluateGreedy_spec (checkpointsTemplate : list Checkpoint)
    (evalEpisodes max_steps : Z) (dt : Q) :
  (2 ≤ length checkpointsTemplate)%nat →
  ∃ e, eval_loop cos sin trackImage greedy_action (Z.to_nat max_steps) dt
         max_steps (eval_reset checkpointsTemplate) = Some e
    ∧ eval_running (length checkpointsTemplate) max_steps e
    ∧ (raceFinished (eval_race e) = true ∨ max_steps ≤ steps e)
    ∧ EvaluateGreedy cos sin trackImage greedy_action checkpointsTemplate
        evalEpisodes max_steps dt
      = Some (aggregate evalEpisodes (replicate (Z.to_nat evalEpisodes) e)).
Proof.
  intros Hn.
  destruct (eval_episode_spec checkpointsTemplate dt max_steps Hn)
    as (e & Hloop & Hrun & Hexit).
  exists e. split; [exact Hloop|]. split; [exact Hrun|].
  split; [exact Hexit|].
  unfold EvaluateGreedy.
  rewrite (mapM_const _ e _ Hloop). simpl. by rewrite length_seq.
Qed.

(** X20. [EvaluateGreedy] runs the same episode [evalEpisodes] times:
    nothing is carried from one episode to the next and nothing is drawn
    at random.  For [evalEpisodes >= 1] the number of finishes is
    [evalEpisodes] or 0, the finish rate 1 or 0, and every average is the
    value of the one episode; for [evalEpisodes <= 0] the result is all
    zero. *)
Theorem EvaluateGreedy_repeats_one_episode
    (checkpointsTemplate : list Checkpoint) (evalEpisodes max_steps : Z)
    (dt : Q) :
  (2 ≤ length checkpointsTemplate)%nat →
  ∃ e eval,
    eval_loop cos sin trackImage greedy_action (Z.to_nat max_steps) dt
      max_steps (eval_reset checkpointsTemplate) = Some e
    ∧ EvaluateGreedy cos sin trackImage greedy_action checkpointsTemplate
        evalEpisodes max_steps dt = Some eval
    ∧ episodes eval = evalEpisodes
    ∧ (1 ≤ evalEpisodes →
       finishes eval = (if raceFinished (eval_race e) then evalEpisodes else 0)
       ∧ (finish_rate eval == if raceFinished (eval_race e) then 1 else 0)%Q
       ∧ (avg_laps eval == inject_Z (currentLap (eval_race e)))%Q
       ∧ (avg_steps_finish eval
          == if raceFinished (eval_race e) then inject_Z (steps e) else 0)%Q
       ∧ (avg_steps_all eval == inject_Z (steps e))%Q
       ∧ (avg_wall_hits eval == inject_Z (wallHits e))%Q
       ∧ (avg_grass_frames eval == inject_Z (grassFrames e))%Q
       ∧ (avg_score eval == episode_score e)%Q)
    ∧ (evalEpisodes ≤ 0 →
       eval = mkEvalResult evalEpisodes 0 0 0 0 0 0 0 0).
Proof.
  intros Hn.
  destruct (EvaluateGreedy_spec checkpointsTemplate evalEpisodes max_steps dt
              Hn) as (e & Hloop & _ & _ & Heval).
  exists e. eexists. split; [exact Hloop|]. split; [exact Heval|].
  split; [reflexivity|]. split.
  - intros HN. apply (aggregate_replicate evalEpisodes e HN).
  - intros HN. replace (Z.to_nat evalEpisodes) with 0%nat by lia.
    by apply aggregate_no_episode.
Qed.

End EvaluationFacts.

(** ** Best-model selection on an evaluation *)

Section SelectionMore.
Import Trainer.

Lemma round_lower (q : Q) : (q - (1 # 2) <= inject_Z (round q))%Q.
Proof.
  unfold round. destruct (Qle_bool 0 q).
  - pose proof (Qlt_floor (q + 0.5)) as H.
    rewrite inject_Z_plus in H. change (inject_Z 1) with 1%Q in H. lra.
  - pose proof (Qle_ceiling (q - 0.5)) as H. lra.
Qed.

Section OnEvaluation.
Variable cos sin : Q → Q.
Variable trackImage : Image.
Variable greedy_action : Vehicle → Z.

(** X21. At a milestone of [main] each of the three best records
    changes only to a strictly better value of the evaluation: the best
    finish rate to a higher one, the best time to a lower average of steps
    (and only when the evaluation finished a race), the best score to a
    higher one; a record that is not replaced is left as it was. *)
Theorem best_records_only_improve (checkpointsTemplate : list Checkpoint) :
  (2 ≤ length checkpointsTemplate)%nat →
  ∃ eval,
    EvaluateGreedy cos sin trackImage greedy_action checkpointsTemplate
      EVAL_EPISODES max_steps DT = Some eval
    ∧ ∀ best,
        (if saved_finish_rate (snd (select_best best eval))
         then best_finish_rate (fst (select_best best eval)) = finish_rate eval
              ∧ (best_finish_rate best < finish_rate eval)%Q
         else best_finish_rate (fst (select_best best eval))
              = best_finish_rate best)
        ∧ (if saved_time (snd (select_best best eval))
           then best_time_avg_steps_finish (fst (select_best best eval))
                = avg_steps_finish eval
                ∧ (avg_steps_finish eval < best_time_avg_steps_finish best)%Q
                ∧ 0 < finishes eval
           else best_time_avg_steps_finish (fst (select_best best eval))
                = best_time_avg_steps_finish best)
        ∧ (if saved_score (snd (select_best best eval))
           then best_score (fst (select_best best eval)) = avg_score eval
                ∧ (best_score best < avg_score eval)%Q
           else best_score (fst (select_best best eval)) = best_score best).
Proof.
  intros Hn.
  destruct (EvaluateGreedy_spec cos sin trackImage greedy_action
              checkpointsTemplate EVAL_EPISODES max_steps DT Hn)
    as (e & _ & Hrun & _ & Heval).
  eexists. split; [exact Heval|].
  pose proof (aggregate_replicate EVAL_EPISODES e ltac:(unfold EVAL_EPISODES; lia))
    as (_ & Hfin & Hrate & _ & Htime & _ & _ & _ & Hscore).
  cbv zeta in *.
  set (eval := aggregate EVAL_EPISODES _) in *. clearbody eval.
  pose proof (episode_score_bounds _ _ _ Hrun) as (_ & Hlo & _).
  destruct Hrun as (_ & _ & Hs & _).
  assert (Hsteps : (0 <= inject_Z (steps e) <= 7500)%Q).
  { unfold max_steps in Hs. split.
    - rewrite <- (Zle_Qle 0). lia.
    - change 7500%Q with (inject_Z 7500). rewrite <- Zle_Qle. lia. }
  assert (Hlow : (-1882500 <= avg_score eval)%Q).
  { rewrite Hscore. eapply Qle_trans; [|exact Hlo].
    change (-1882500)%Q with (- inject_Z (251 * 7500))%Q.
    apply Qopp_le_compat. rewrite <- Zle_Qle. unfold max_steps in Hs. lia. }
  intros best. unfold select_best. cbv zeta. cbn [fst snd saved_finish_rate
    saved_time saved_score].
  set (b1 := if save_finish_rate best eval then _ else best).
  set (b2 := if save_time b1 eval then _ else b1).
  assert (Hb1 : best_time_avg_steps_finish b1 = best_time_avg_steps_finish best
                ∧ best_score b1 = best_score best).
  { unfold b1. by destruct (save_finish_rate best eval). }
  assert (Hb2 : best_finish_rate b2 = best_finish_rate b1
                ∧ best_score b2 = best_score b1).
  { unfold b2. by destruct (save_time b1 eval). }
  split; [|split].
  - destruct (save_score b2 eval);
      cbn [best_finish_rate]; rewrite ?(proj1 Hb2); unfold b1;
      destruct (save_finish_rate best eval) eqn:Hsave;
      cbn [best_finish_rate]; try reflexivity;
      (split; [reflexivity|]).
    all: unfold save_finish_rate in Hsave.
    all: destruct (Qltb (best_finish_rate best) 0) eqn:Hneg;
      [apply Qltb_true in Hneg; rewrite Hrate;
       destruct (raceFinished (eval_race e)); lra|].
    all: apply Qltb_false in Hneg.
    all: pose proof (round_lower (best_finish_rate best * inject_Z EVAL_EPISODES))
      as Hround.
    all: unfold EVAL_EPISODES, FINISH_RATE_MIN_IMPROVEMENT in *.
    all: change (inject_Z 20) with 20%Q in Hround, Hsave.
    all: destruct (Z.leb_spec
                (round (best_finish_rate best * 20) + 2) (finishes eval))
      as [Hle|_];
      [rewrite Hfin in Hle; rewrite Hrate;
       rewrite Zle_Qle, inject_Z_plus in Hle;
       change (inject_Z 2) with 2%Q in Hle;
       destruct (raceFinished (eval_race e));
         [change (inject_Z 20) with 20%Q in Hle|
          change (inject_Z 0) with 0%Q in Hle]; lra|].
    all: destruct (Qltb (best_finish_rate best) (finish_rate eval)) eqn:Hlt;
      [|discriminate].
    all: by apply Qltb_true in Hlt.
  - destruct (save_score b2 eval);
      cbn [best_time_avg_steps_finish]; unfold b2;
      destruct (save_time b1 eval) eqn:Hsave;
      cbn [best_time_avg_steps_finish]; rewrite ?(proj1 Hb1);
      try reflexivity; (split; [reflexivity|]).
    all: unfold save_time in Hsave; rewrite (proj1 Hb1) in Hsave.
    all: destruct (Z.ltb_spec 0 (finishes eval)) as [Hpos|]; [|discriminate].
    all: split; [|exact Hpos].
    all: rewrite Hfin in Hpos.
    all: destruct (raceFinished (eval_race e)); [|lia].
    all: rewrite Htime.
    all: destruct (Qle_bool 1e17 (best_time_avg_steps_finish best)) eqn:Hbig;
      [apply Qle_bool_iff in Hbig;
       eapply Qle_lt_trans; [apply Hsteps|];
       eapply Qlt_le_trans; [|exact Hbig]; reflexivity|].
    all: destruct (Qltb _ (best_time_avg_steps_finish best)) eqn:Hlt;
      [|discriminate].
    all: apply Qltb_true in Hlt; rewrite Htime in Hlt; lra.
  - destruct (save_score b2 eval) eqn:Hsave; cbn [best_score];
      [|rewrite (proj2 Hb2), (proj2 Hb1); reflexivity].
    split; [reflexivity|].
    unfold save_score in Hsave.
    rewrite (proj2 Hb2), (proj2 Hb1) in Hsave.
    destruct (Qle_bool (best_score best) (-1e17)) eqn:Hbig.
    { apply Qle_bool_iff in Hbig.
      eapply Qle_lt_trans; [exact Hbig|].
      eapply Qlt_le_trans; [|exact Hlow]. reflexivity. }
    destruct (Qltb (best_score best + SCORE_MIN_IMPROVEMENT) (avg_score eval))
      eqn:Hlt.
    { apply Qltb_true in Hlt. unfold SCORE_MIN_IMPROVEMENT in Hlt. lra. }
    destruct (Qltb (best_score best) (avg_score eval)) eqn:Hlt';
      [|discriminate].
    by apply Qltb_true in Hlt'.
Qed.

End OnEvaluation.
End SelectionMore.

(** ** The orchestrator: exploration rate, learning rate, snapshots *)

Section OrchestratorFacts.
Import Trainer.

Lemma Qmax_bounds (p q : Q) : (p <= Qmax p q)%Q ∧ (q <= Qmax p q)%Q.
Proof.
  unfold Qmax. destruct (Qltb p q) eqn:H;
    [apply Qltb_true in H|apply Qltb_false in H]; split; lra.
Qed.

Lemma Qmax_cases (p q : Q) :
  ((p < q)%Q ∧ Qmax p q = q) ∨ ((q <= p)%Q ∧ Qmax p q = p).
Proof.
  unfold Qmax. destruct (Qltb p q) eqn:H;
    [apply Qltb_true in H; by left|apply Qltb_false in H; by right].
Qed.

Lemma Qmax_compat (p q q' : Q) : (q == q')%Q → (Qmax p q == Qmax p q')%Q.
Proof.
  intros E.
  destruct (Qmax_cases p q) as [[H ->]|[H ->]],
           (Qmax_cases p q') as [[H' ->]|[H' ->]]; lra.
Qed.

Lemma decay_power_bounds (n : nat) :
  (0 < EPSILON_DECAY ^ Z.of_nat n <= 1)%Q.
Proof.
  induction n as [|n IH].
  - simpl. lra.
  - replace (Z.of_nat (S n)) with (Z.of_nat n + 1) by lia.
    rewrite Qpower_plus by (unfold EPSILON_DECAY; lra).
    change (EPSILON_DECAY ^ 1)%Q with EPSILON_DECAY.
    unfold EPSILON_DECAY at 2 4.
    set (d := (EPSILON_DECAY ^ Z.of_nat n)%Q) in *. nra.
Qed.

Section AnyOptimiser.
Variable AdamState : Type.
Variable backward :
  DQN.DQNNet → DQN.Tensor Q → DQN.Tensor Z → DQN.Tensor Q
  → list (string * DQN.Tensor Q).
Variable clip_grad_norm_ :
  list (string * DQN.Tensor Q) → Q → list (string * DQN.Tensor Q).
Variable adam_step :
  list Q → AdamState → DQN.DQNNet → list (string * DQN.Tensor Q)
  → DQN.DQNNet * AdamState.

(** The learning steps of an episode leave the learning rate alone. *)
Lemma learn_keeps_learning_rate (batches : list ReplayBuffer.Batch) :
  ∀ (d d' : DQN.t AdamState) (total_loss total_loss' : Q)
    (loss_count loss_count' : Z),
  learn _ backward clip_grad_norm_ adam_step d batches total_loss loss_count
    = Some (d', total_loss', loss_count') →
  DQN.get_learning_rate _ d' = DQN.get_learning_rate _ d
  ∧ DQN.param_groups _ (DQN.optimizer_ _ d')
    = DQN.param_groups _ (DQN.optimizer_ _ d)
  ∧ loss_count' = loss_count + Z.of_nat (length batches).
Proof.
  induction batches as [|batch rest IH];
    intros d d' tl tl' lc lc' H; simpl in H.
  - injection H as <- _ <-. repeat split. simpl. lia.
  - destruct (DQN.train _ _ _ _ _ _ _ _ _ _ _) as [[loss d1]|] eqn:Ht;
      simpl in H; [|discriminate].
    apply train_fields in Ht as (_ & _ & _ & Hlr & Hpg).
    apply IH in H as (H1 & H2 & H3).
    unfold DQN.get_learning_rate in *.
    split; [congruence|]. split; [congruence|]. simpl. lia.
Qed.

Lemma after_episode_epsilon (t : Trainer AdamState) (e : TrainEpisode)
    (total_loss : Q) (loss_count : Z) :
  epsilon _ (after_episode _ t e total_loss loss_count)
  = Qmax EPSILON_END (epsilon _ t * EPSILON_DECAY)%Q.
Proof.
  unfold after_episode, lr_schedule. simpl.
  repeat (match goal with |- context [if ?c then _ else _] =>
            destruct c end; simpl); reflexivity.
Qed.

Lemma episode_epsilon (t t' : Trainer AdamState)
    (batches : list ReplayBuffer.Batch) (e : TrainEpisode) :
  episode _ backward clip_grad_norm_ adam_step t batches e = Some t' →
  epsilon _ t' = Qmax EPSILON_END (epsilon _ t * EPSILON_DECAY)%Q.
Proof.
  unfold episode. intros H.
  destruct (learn _ _ _ _ _ _ _ _) as [[[d tl] lc]|]; simpl in H;
    [|discriminate].
  injection H as <-. by rewrite after_episode_epsilon.
Qed.

(** X22. Over any sequence of episodes the exploration rate never rises
    and never falls below [EPSILON_END]: after [n] episodes it is the
    greater of [EPSILON_END] and the rate before them times
    [EPSILON_DECAY] to the power [n]. *)
Theorem epsilon_decays_to_its_floor (t t' : Trainer AdamState)
    (episodes : list (list ReplayBuffer.Batch * TrainEpisode)) :
  (EPSILON_END <= epsilon _ t)%Q →
  run _ backward clip_grad_norm_ adam_step t episodes = Some t' →
  (EPSILON_END <= epsilon _ t' <= epsilon _ t)%Q
  ∧ (epsilon _ t'
     == Qmax EPSILON_END
          (epsilon _ t * EPSILON_DECAY ^ Z.of_nat (length episodes)))%Q.
Proof.
  revert t. induction episodes as [|[batches e] rest IH]; intros t Ht H;
    simpl in H.
  - injection H as <-. split; [split; [exact Ht|apply Qle_refl]|].
    simpl. destruct (Qmax_cases EPSILON_END (epsilon _ t * 1)%Q)
      as [[? ->]|[? ->]]; lra.
  - destruct (episode _ _ _ _ t batches e) as [t1|] eqn:He; simpl in H;
      [|discriminate].
    apply episode_epsilon in He.
    pose proof (Qmax_bounds EPSILON_END (epsilon _ t * EPSILON_DECAY)%Q)
      as [Hb1 Hb2].
    rewrite <- He in Hb1, Hb2.
    destruct (IH t1 Hb1 H) as [[Hlo Hhi] Hform].
    assert (Hstep : (epsilon _ t1 <= epsilon _ t)%Q).
    { rewrite He.
      destruct (Qmax_cases EPSILON_END (epsilon _ t * EPSILON_DECAY)%Q)
        as [[? ->]|[? ->]]; [|exact Ht].
      unfold EPSILON_DECAY, EPSILON_END in *. lra. }
    split; [split; [exact Hlo|lra]|].
    rewrite Hform.
    pose proof (decay_power_bounds (length rest)) as [Hp0 Hp1].
    assert (Epow :
      (epsilon _ t * EPSILON_DECAY ^ Z.of_nat (length ((batches, e) :: rest))
       == epsilon _ t * (EPSILON_DECAY
                         * EPSILON_DECAY ^ Z.of_nat (length rest)))%Q).
    { replace (Z.of_nat (length ((batches, e) :: rest)))
        with (1 + Z.of_nat (length rest)) by (simpl; lia).
      rewrite Qpower_plus by (unfold EPSILON_DECAY; lra). reflexivity. }
    rewrite (Qmax_compat _ _ _ Epow). clear Epow.
    set (p := (EPSILON_DECAY ^ Z.of_nat (length rest))%Q) in *.
    rewrite He.
    destruct (Qmax_cases EPSILON_END (epsilon _ t * EPSILON_DECAY)%Q)
      as [[Hc ->]|[Hc ->]].
    + apply Qmax_compat. ring.
    + assert (H1 : (EPSILON_END * p <= EPSILON_END)%Q).
      { unfold EPSILON_END. nra. }
      assert (H2 : (epsilon _ t * (EPSILON_DECAY * p) <= EPSILON_END)%Q).
      { assert (epsilon _ t * EPSILON_DECAY * p <= EPSILON_END * p)%Q
          by (apply Qmult_le_compat_r; lra).
        lra. }
      destruct (Qmax_cases EPSILON_END (EPSILON_END * p)%Q)
        as [[? ->]|[? ->]],
        (Qmax_cases EPSILON_END (epsilon _ t * (EPSILON_DECAY * p))%Q)
        as [[? ->]|[? ->]]; lra.
Qed.


Lemma sumZ_zeros (l : list Z) : Forall (λ f, f = 0) l → sumZ l = 0.
Proof.
  unfold sumZ. induction 1 as [|f l -> _ IH]; simpl; [reflexivity|].
  rewrite IH. reflexivity.
Qed.

Lemma set_learning_rate_fields (d : DQN.t AdamState) (lr old : Q) :
  DQN.param_groups _ (DQN.optimizer_ _ d) = [old] →
  DQN.get_learning_rate _ (DQN.set_learning_rate _ d lr) = lr
  ∧ DQN.param_groups _ (DQN.optimizer_ _ (DQN.set_learning_rate _ d lr))
    = [lr].
Proof.
  intros H. unfold DQN.set_learning_rate, DQN.get_learning_rate. simpl.
  rewrite H. by split.
Qed.

(** The statements after the [while] loop keep the learning rate in step
    with the flags. *)
Lemma after_episode_lr_by_flags (t : Trainer AdamState) (e : TrainEpisode)
    (total_loss : Q) (loss_count : Z) :
  lr_by_flags t → lr_by_flags (after_episode _ t e total_loss loss_count).
Proof.
  unfold lr_by_flags, scheduled_lr, after_episode, lr_schedule, with_dqn.
  destruct t as [d eps st bst once twice].
  cbn [dqn epsilon stats best lr_dropped_once lr_dropped_twice
       episode_finishes].
  intros (Hlr & Hpg & Hord & Hzero & Hbits).
  set (fin := raceFinished (train_race e)).
  set (fs := episode_finishes st ++ [if fin then 1 else 0]).
  assert (Hbits' : Forall (λ f, f = 0 ∨ f = 1) fs).
  { apply Forall_app. split; [exact Hbits|].
    constructor; [destruct fin; auto|constructor]. }
  assert (Hzero' : once = false → fin = false → Forall (λ f, f = 0) fs).
  { intros H1 H2. apply Forall_app. split; [by apply Hzero|].
    rewrite H2. by repeat constructor. }
  assert (Hrate : once = false → fin = false →
    Qle_bool 0.50 (inject_Z (sumZ (drop (length fs - 20) fs)) / 20) = false).
  { intros H1 H2. rewrite sumZ_zeros; [reflexivity|].
    apply Forall_drop. by apply Hzero'. }
  destruct fin eqn:Hfin, once eqn:Honce, twice eqn:Htwice;
    cbn [andb negb dqn stats lr_dropped_once lr_dropped_twice
         episode_finishes];
    try (specialize (Hord eq_refl); discriminate);
    fold fs;
    repeat match goal with
    | |- context [20 <=? ?n] => destruct (20 <=? n); cbn [andb negb]
    | |- context [Qle_bool 0.50 ?q] =>
        let H := fresh "Hq" in
        destruct (Qle_bool 0.50 q) eqn:H;
        cbn [dqn stats lr_dropped_once lr_dropped_twice episode_finishes]
    end;
    try (specialize (Hrate eq_refl eq_refl); discriminate Hrate);
    cbn [dqn stats lr_dropped_once lr_dropped_twice episode_finishes];
    repeat match goal with
    | |- context [DQN.set_learning_rate _ (DQN.set_learning_rate _ d ?a) ?b] =>
        destruct (set_learning_rate_fields d a _ Hpg) as [_ Hpg1];
        destruct (set_learning_rate_fields
                    (DQN.set_learning_rate _ d a) b _ Hpg1) as [-> ->]
    | |- context [DQN.set_learning_rate _ d ?a] =>
        destruct (set_learning_rate_fields d a _ Hpg) as [-> ->]
    end;
    repeat split; try assumption; try reflexivity; try discriminate;
    try (intros; by apply Hzero').
Qed.

Lemma episode_lr_by_flags (t t' : Trainer AdamState)
    (batches : list ReplayBuffer.Batch) (e : TrainEpisode) :
  lr_by_flags t →
  episode _ backward clip_grad_norm_ adam_step t batches e = Some t' →
  lr_by_flags t'.
Proof.
  unfold episode. intros Ht H.
  destruct (learn _ _ _ _ _ _ _ _) as [[[d tl] lc]|] eqn:Hl; simpl in H;
    [|discriminate].
  injection H as <-. apply after_episode_lr_by_flags.
  apply learn_keeps_learning_rate in Hl as (Hlr & Hpg & _).
  destruct t as [d0 eps st bst once twice].
  unfold lr_by_flags, scheduled_lr in *. simpl in *.
  destruct Ht as (H1 & H2 & H3). split; [congruence|]. split; [congruence|].
  exact H3.
Qed.

Variable adam_init : AdamState.

Lemma main_setup_lr_by_flags (policy_init target_init : DQN.DQNNet)
    (fs : DQN.FileSystem) (t : Trainer AdamState) :
  main_setup _ adam_init policy_init target_init fs = Some t →
  lr_by_flags t ∧ epsilon _ t = EPSILON_START
  ∧ stats _ t = mkTrainingStats [] [] [] [] [] ∧ best _ t = best_init.
Proof.
  unfold main_setup, DQN.new, DQN.load_model. intros H.
  destruct (DQN.copy_weights policy_init target_init) as [tg|]; simpl in H;
    [|discriminate].
  destruct (DQN.torch_load _ _ _) as [pol|]; simpl in H; [|discriminate].
  destruct (DQN.copy_weights pol tg) as [tg'|]; simpl in H; [|discriminate].
  injection H as <-. unfold lr_by_flags, scheduled_lr. simpl.
  repeat split; try discriminate; constructor.
Qed.

(** X23. From the setup of [main], over any sequence of episodes, the
    learning rate of the learner and of its optimiser is the one the two
    drop flags tell: [1e-4] before the first finished race, [3e-4] from
    then until the second drop, [1e-4] after it.  The learning steps of an
    episode do not change it, and the second drop never fires before the
    first. *)
Theorem learning_rate_follows_the_flags
    (policy_init target_init : DQN.DQNNet) (fs : DQN.FileSystem)
    (t0 t : Trainer AdamState)
    (episodes : list (list ReplayBuffer.Batch * TrainEpisode)) :
  main_setup _ adam_init policy_init target_init fs = Some t0 →
  run _ backward clip_grad_norm_ adam_step t0 episodes = Some t →
  lr_by_flags t
  ∧ (DQN.get_learning_rate _ (dqn _ t) = 1e-4%Q
     ∨ DQN.get_learning_rate _ (dqn _ t) = 3e-4%Q).
Proof.
  intros H0 Hrun. apply main_setup_lr_by_flags in H0 as [H0 _].
  assert (H : lr_by_flags t).
  { revert t0 H0 Hrun.
    induction episodes as [|[batches e] rest IH]; intros t0 H0 Hrun;
      simpl in Hrun.
    - by injection Hrun as <-.
    - destruct (episode _ _ _ _ t0 batches e) as [t1|] eqn:He;
        simpl in Hrun; [|discriminate].
      eapply IH; [|exact Hrun]. eapply episode_lr_by_flags; eassumption. }
  split; [exact H|]. destruct H as [-> _]. unfold scheduled_lr.
  destruct (lr_dropped_twice _ t), (lr_dropped_once _ t); auto.
Qed.


(** X24. The best-model blocks of a milestone write the parameters of
    the current policy network to the snapshots they select, and to these
    only: every other file is left as it was, the learner is not changed,
    and [models/best_time.pt] is written only after an evaluation that
    finished a race. *)
Theorem milestone_writes_selected_snapshots (t : Trainer AdamState)
    (eval : EvalResult) (fs : DQN.FileSystem) :
  dqn _ (fst (milestone_select _ t eval fs)) = dqn _ t
  ∧ best _ (fst (milestone_select _ t eval fs))
    = fst (select_best (best _ t) eval)
  ∧ (∀ path,
       path ≠ "models/best_finish_rate.pt"%string →
       path ≠ "models/best_time.pt"%string →
       path ≠ "models/best_score.pt"%string →
       snd (milestone_select _ t eval fs) !! path = fs !! path)
  ∧ snd (milestone_select _ t eval fs) !! "models/best_finish_rate.pt"%string
    = (if saved_finish_rate (snd (select_best (best _ t) eval))
       then Some (DQN.named_parameters (DQN.policy_net_ _ (dqn _ t)))
       else fs !! "models/best_finish_rate.pt"%string)
  ∧ snd (milestone_select _ t eval fs) !! "models/best_time.pt"%string
    = (if saved_time (snd (select_best (best _ t) eval))
       then Some (DQN.named_parameters (DQN.policy_net_ _ (dqn _ t)))
       else fs !! "models/best_time.pt"%string)
  ∧ snd (milestone_select _ t eval fs) !! "models/best_score.pt"%string
    = (if saved_score (snd (select_best (best _ t) eval))
       then Some (DQN.named_parameters (DQN.policy_net_ _ (dqn _ t)))
       else fs !! "models/best_score.pt"%string)
  ∧ (saved_time (snd (select_best (best _ t) eval)) = true →
     0 < finishes eval).
Proof.
  unfold milestone_select.
  destruct (select_best (best _ t) eval) as [best' [sfr st ss]] eqn:Hsel.
  cbn [fst snd saved_finish_rate saved_time saved_score dqn best].
  split; [reflexivity|]. split; [reflexivity|].
  unfold DQN.save_model, DQN.torch_save.
  split; [|split; [|split; [|split]]].
  - intros path H1 H2 H3.
    destruct sfr, st, ss; rewrite ?lookup_insert_ne by done; reflexivity.
  - destruct sfr, st, ss;
      rewrite ?(lookup_insert_ne _ "models/best_score.pt"%string) by done;
      rewrite ?(lookup_insert_ne _ "models/best_time.pt"%string) by done;
      rewrite ?lookup_insert_eq; reflexivity.
  - destruct sfr, st, ss;
      rewrite ?(lookup_insert_ne _ "models/best_score.pt"%string) by done;
      rewrite ?lookup_insert_eq;
      rewrite ?(lookup_insert_ne _ "models/best_finish_rate.pt"%string) by done;
      reflexivity.
  - destruct sfr, st, ss;
      rewrite ?lookup_insert_eq;
      rewrite ?(lookup_insert_ne _ "models/best_time.pt"%string) by done;
      rewrite ?(lookup_insert_ne _ "models/best_finish_rate.pt"%string) by done;
      reflexivity.
  - intros ->. unfold select_best in Hsel. injection Hsel as _ _ Hst _.
    unfold save_time in Hst.
    destruct (Z.ltb_spec 0 (finishes eval)); [assumption|discriminate].
Qed.

(** X25. [load_model] throws when there is no file at the path, and when
    the file lacks one of the six parameters of the network; [main], which
    loads [models/best_time.pt] before the first episode, cannot start
    without that file. *)
Theorem load_model_needs_every_parameter (d : DQN.t AdamState)
    (path : string) (fs : DQN.FileSystem)
    (policy_init target_init : DQN.DQNNet) :
  (fs !! path = None → DQN.load_model _ d path fs = None)
  ∧ (∀ archive key,
       fs !! path = Some archive →
       key ∈ (fst <$> DQN.named_parameters (DQN.policy_net_ _ d)) →
       DQN.dict_lookup key archive = None →
       DQN.load_model _ d path fs = None)
  ∧ (fs !! "models/best_time.pt"%string = None →
     main_setup _ adam_init policy_init target_init fs = None).
Proof.
  split; [|split].
  - intros H. unfold DQN.load_model, DQN.torch_load. rewrite H. reflexivity.
  - intros archive key Hfs Hkey Hmiss.
    unfold DQN.load_model, DQN.torch_load. rewrite Hfs. simpl.
    unfold DQN.for_each_param, DQN.named_parameters in *.
    cbn [fmap list_fmap fst] in Hkey.
    cbn [foldl fst snd].
    repeat (apply elem_of_cons in Hkey as [->|Hkey];
            [rewrite ?Hmiss; cbn [mbind option_bind];
             repeat (match goal with
                     | |- context [DQN.dict_lookup ?k archive] =>
                         destruct (DQN.dict_lookup k archive);
                         cbn [mbind option_bind DQN.set_parameter String.eqb
                              Ascii.eqb Bool.eqb]
                     end; rewrite ?Hmiss; cbn [mbind option_bind]);
             reflexivity|]).
    by apply elem_of_nil in Hkey.
  - intros H. unfold main_setup.
    destruct (DQN.new _ _ _ _ _ _ _ _) as [d0|]; simpl; [|reflexivity].
    unfold DQN.load_model, DQN.torch_load. rewrite H. reflexivity.
Qed.

End AnyOptimiser.
End OrchestratorFacts.

(** ** The learning loop of [main] *)

Section LearningFacts.
Import Trainer.
Variable cos sin sqrtf : Q → Q.
Variable trackImage : Image.

Lemma train_step_defined (n : nat) (e : TrainEpisode) (action : Z) :
  (2 ≤ n)%nat → race_inv n (train_race e) →
  ∃ e' ex, train_step cos sin sqrtf trackImage e action = Some (e', ex)
    ∧ race_inv n (train_race e').
Proof.
  intros Hn Hinv. unfold train_step.
  destruct (stuck_check sqrtf e) as [[sc lp]|].
  2: { eexists _, _. split; [reflexivity|]. exact Hinv. }
  pose proof Hinv as (Hlen & Hnext & _).
  assert (Hd : ∀ p, ∃ d, DistToCheckpointMid sqrtf (checkpoints (train_race e))
                           (nextCheckpoint (train_race e)) p = Some d).
  { intros p. unfold DistToCheckpointMid.
    destruct (Z.ltb_spec (nextCheckpoint (train_race e)) 0); [lia|].
    destruct (lookup_lt_is_Some_2 (checkpoints (train_race e))
                (Z.to_nat (nextCheckpoint (train_race e)))) as [cp ->];
      [lia|].
    simpl. eexists. reflexivity. }
  destruct (Hd (position (vehicle (physics_step cos sin trackImage DT action
                                     (train_vehicle e))))) as [d1 ->].
  destruct (Hd (position (train_vehicle e))) as [d2 ->].
  cbn [mbind option_bind].
  match goal with
  | |- context [exec _ (_, ?r)] => set (rwd := r)
  end.
  destruct (checkpoint_block_spec true n (train_race e)
              (position (train_vehicle e))
              (position (vehicle (physics_step cos sin trackImage DT action
                                    (train_vehicle e)))) rwd Hn Hinv)
    as (stmts & -> & Hinv' & _).
  cbn [mbind option_bind].
  destruct (exec stmts (train_race e, rwd)) as [race' reward'].
  cbn [fst] in Hinv'.
  pose proof Hinv' as (Hlen' & _).
  destruct (lookup_lt_is_Some_2 (checkpoints race') 0%nat) as [fl ->]; [lia|].
  cbn [mbind option_bind]. eexists _, _. split; [reflexivity|]. exact Hinv'.
Qed.

Lemma step_reward_spec (e e' : TrainEpisode) (action : Z) (ex : LoopExit)
    (w : Z * Vector2) :
  stuck_check sqrtf e = Some w →
  train_step cos sin sqrtf trackImage e action = Some (e', ex) →
  ∃ reward, step_reward cos sin sqrtf trackImage e action = Some reward
    ∧ episode_reward e' = (episode_reward e + reward)%Q
    ∧ episode_steps e' = episode_steps e + 1
    ∧ train_vehicle e'
      = vehicle (physics_step cos sin trackImage DT action (train_vehicle e))
    ∧ ex = (if raceFinished (train_race e')
               || (max_steps <=? episode_steps e')
            then Break else Continue).
Proof.
  intros Hw H. unfold train_step in H. rewrite Hw in H. destruct w as [sc lp].
  unfold step_reward.
  unbind H. unbind H.
  destruct (checkpoint_block _ _ _ _) as [stmts|]; simpl in H; [|discriminate].
  cbn [mbind option_bind].
  match type of H with context [exec stmts ?s] =>
    destruct (exec stmts s) as [race' reward'] end.
  unbind H. cbn [mbind option_bind].
  injection H as <- <-. cbn [episode_reward episode_steps train_vehicle
    train_race].
  eexists. split; [reflexivity|]. by repeat split.
Qed.


Section Learner.
Variable AdamState : Type.
Variable RAND_MAX : Z.
Variable Gen : Type.
Variable mt19937 : Gen → Z * Gen.
Variable backward :
  DQN.DQNNet → DQN.Tensor Q → DQN.Tensor Z → DQN.Tensor Q
  → list (string * DQN.Tensor Q).
Variable clip_grad_norm_ :
  list (string * DQN.Tensor Q) → Q → list (string * DQN.Tensor Q).
Variable adam_step :
  list Q → AdamState → DQN.DQNNet → list (string * DQN.Tensor Q)
  → DQN.DQNNet * AdamState.
Hypothesis adam_step_wf : ∀ state_size action_size lrs st net grads,
  net_wf state_size action_size net →
  net_wf state_size action_size (fst (adam_step lrs st net grads)).

Lemma choose_action_defined (d : DQN.t AdamState) (epsilon : Q) (r1 r2 : Z)
    (state : list Q) :
  main_sized d → Z.of_nat (length state) = STATE_SIZE → 0 ≤ r2 →
  ∃ action, choose_action _ RAND_MAX d epsilon r1 r2 state = Some action
    ∧ 0 ≤ action < ACTION_SIZE.
Proof.
  intros (Hwf & Hss & Has) Hlen Hr2. unfold choose_action.
  destruct (Qltb _ epsilon).
  - eexists. split; [reflexivity|]. unfold ACTION_SIZE.
    pose proof (Z.rem_bound_pos r2 7 Hr2 ltac:(lia)). lia.
  - unfold greedy_choice.
    destruct (proj1 (predict_spec _ d state Hwf)) as [-> Lp].
    { rewrite Hss. lia. }
    cbn [mbind option_bind]. eexists. split; [reflexivity|].
    set (q_values := forward_row _ _) in *.
    assert (Hne : q_values ≠ []).
    { intros H0. rewrite H0, Has in Lp. discriminate. }
    destruct (max_element_index_spec q_values Hne) as [Hidx _].
    rewrite Lp, Has in Hidx. unfold ACTION_SIZE in *. lia.
Qed.

Lemma add_transition (rb : ReplayBuffer.t) (tr : ReplayBuffer.Experience) :
  buffer_wf rb → transition_wf tr →
  ∃ rb', ReplayBuffer.add rb (ReplayBuffer.state tr) (ReplayBuffer.action tr)
           (ReplayBuffer.reward tr) (ReplayBuffer.next_state tr)
           (ReplayBuffer.done tr) = Some rb'
    ∧ buffer_wf rb'
    ∧ ReplayBuffer.buffer_ rb'
      = drop (length (ReplayBuffer.buffer_ rb) + 1
              - Z.to_nat REPLAY_BUFFER_SIZE)
             (ReplayBuffer.buffer_ rb ++ [tr])
    ∧ ReplayBuffer.size rb'
      = Z.min (ReplayBuffer.size rb + 1) REPLAY_BUFFER_SIZE.
Proof.
  intros (Hcap & Hsize & Hall) Htr.
  destruct (add_experience_spec rb tr) as (rb' & Hadd & Hcap' & Hbuf).
  { rewrite Hcap. unfold REPLAY_BUFFER_SIZE, INT_MAX. lia. }
  { rewrite Hcap. exact Hsize. }
  exists rb'. split; [exact Hadd|].
  rewrite Hcap in Hbuf.
  assert (Hsz : ReplayBuffer.size rb'
                = Z.min (ReplayBuffer.size rb + 1) REPLAY_BUFFER_SIZE).
  { unfold ReplayBuffer.size in *. rewrite Hbuf, length_drop, length_app.
    simpl. unfold REPLAY_BUFFER_SIZE in *. lia. }
  split; [|split; [exact Hbuf|exact Hsz]].
  split; [congruence|]. split; [lia|].
  rewrite Hbuf. apply Forall_drop, Forall_app. split; [exact Hall|].
  by constructor.
Qed.

Lemma sampled_batch_wf (d : DQN.t AdamState) (rb : ReplayBuffer.t)
    (seed : Gen) :
  main_sized d → buffer_wf rb →
  ReplayBuffer.can_sample rb BATCH_SIZE = true →
  ∃ batch,
    ReplayBuffer.sample Gen mt19937 rb BATCH_SIZE ReplayBuffer.clear seed
      = Some (batch, rb)
    ∧ batch_wf d (ReplayBuffer.states batch) (ReplayBuffer.actions batch)
        (ReplayBuffer.rewards batch) (ReplayBuffer.next_states batch)
        (ReplayBuffer.dones batch) BATCH_SIZE.
Proof.
  intros (Hwf & Hss & Has) (_ & _ & Hall) Hcan.
  unfold ReplayBuffer.can_sample in Hcan.
  change (to_size_t BATCH_SIZE) with 32 in Hcan.
  apply Z.leb_le in Hcan.
  destruct (sample_spec Gen mt19937 rb BATCH_SIZE ReplayBuffer.clear seed)
    as (ds & Hrun & Hl & Hin).
  { intros H0. rewrite H0 in Hcan. simpl in Hcan. lia. }
  { unfold BATCH_SIZE. lia. }
  eexists. split; [exact Hrun|].
  assert (Hl' : length ds = Z.to_nat BATCH_SIZE) by lia.
  clear Hl. rename Hl' into Hl.
  assert (Hds : Forall transition_wf ds).
  { rewrite Forall_forall in Hin, Hall |- *. intros tr Htr.
    apply Hall, Hin, Htr. }
  unfold batch_wf, batch_of. cbn [ReplayBuffer.states ReplayBuffer.actions
    ReplayBuffer.rewards ReplayBuffer.next_states ReplayBuffer.dones].
  rewrite !length_map, Hss, Has.
  split; [unfold BATCH_SIZE; lia|].
  split; [exact Hl|]. split.
  { apply Forall_fmap. eapply Forall_impl; [exact Hds|].
    intros tr (H1 & _). simpl. lia. }
  split; [exact Hl|]. split.
  { apply Forall_fmap. eapply Forall_impl; [exact Hds|].
    intros tr (_ & _ & H3). exact H3. }
  split; [exact Hl|]. split; [exact Hl|]. split; [|exact Hl].
  apply Forall_fmap. eapply Forall_impl; [exact Hds|].
  intros tr (_ & H2 & _). simpl. lia.
Qed.


Lemma can_sample_batch (rb : ReplayBuffer.t) :
  ReplayBuffer.can_sample rb BATCH_SIZE = (BATCH_SIZE <=? ReplayBuffer.size rb).
Proof. reflexivity. Qed.

Lemma loop_body_spec (n : nat) (episode : Z) (epsilon : Q)
    (l : Learning AdamState) (r : Draws Gen) :
  (2 ≤ n)%nat → learning_wf n l → 0 ≤ rand_action _ r →
  ∃ l' ex,
    loop_body cos sin sqrtf trackImage AdamState RAND_MAX Gen mt19937 backward
      clip_grad_norm_ adam_step episode epsilon l r = Some (l', ex)
    ∧ learning_wf n l'
    ∧ DQN.get_learning_rate _ (loop_dqn _ l')
      = DQN.get_learning_rate _ (loop_dqn _ l)
    ∧ DQN.param_groups _ (DQN.optimizer_ _ (loop_dqn _ l'))
      = DQN.param_groups _ (DQN.optimizer_ _ (loop_dqn _ l))
    ∧ match stuck_check sqrtf (loop_episode _ l) with
      | None =>
          ex = Break
          ∧ train_step cos sin sqrtf trackImage (loop_episode _ l) 0
            = Some (loop_episode _ l', Break)
          ∧ loop_dqn _ l' = loop_dqn _ l
          ∧ loop_replay_buffer _ l' = loop_replay_buffer _ l
          ∧ loop_state _ l' = loop_state _ l
          ∧ loop_total_loss _ l' = loop_total_loss _ l
          ∧ loop_loss_count _ l' = loop_loss_count _ l
      | Some _ =>
          ∃ tr,
            transition_wf tr
            ∧ ReplayBuffer.state tr = loop_state _ l
            ∧ ReplayBuffer.next_state tr = loop_state _ l'
            ∧ choose_action _ RAND_MAX (loop_dqn _ l) epsilon
                (rand_explore _ r) (rand_action _ r) (loop_state _ l)
              = Some (ReplayBuffer.action tr)
            ∧ train_step cos sin sqrtf trackImage (loop_episode _ l)
                (ReplayBuffer.action tr) = Some (loop_episode _ l', ex)
            ∧ GetState cos sin trackImage
                (position (train_vehicle (loop_episode _ l')))
                (angle (train_vehicle (loop_episode _ l')))
                (speed (train_vehicle (loop_episode _ l')))
              = Some (loop_state _ l')
            ∧ episode_reward (loop_episode _ l')
              = (episode_reward (loop_episode _ l) + ReplayBuffer.reward tr)%Q
            ∧ episode_steps (loop_episode _ l')
              = episode_steps (loop_episode _ l) + 1
            ∧ ReplayBuffer.done tr
              = raceFinished (train_race (loop_episode _ l'))
                || (max_steps <=? episode_steps (loop_episode _ l'))
            ∧ ex = (if ReplayBuffer.done tr then Break else Continue)
            ∧ ReplayBuffer.buffer_ (loop_replay_buffer _ l')
              = drop (length (ReplayBuffer.buffer_ (loop_replay_buffer _ l))
                      + 1 - Z.to_nat REPLAY_BUFFER_SIZE)
                     (ReplayBuffer.buffer_ (loop_replay_buffer _ l) ++ [tr])
            ∧ ReplayBuffer.size (loop_replay_buffer _ l')
              = Z.min (ReplayBuffer.size (loop_replay_buffer _ l) + 1)
                      REPLAY_BUFFER_SIZE
            ∧ if (WARMUP_EPISODES <=? episode)
                 && (BATCH_SIZE <=? ReplayBuffer.size (loop_replay_buffer _ l'))
                 && (Z.rem (episode_steps (loop_episode _ l'))
                       TRAIN_EVERY_N_STEPS =? 0)
              then ∃ loss, (0 <= loss)%Q
                     ∧ loop_total_loss _ l' = (loop_total_loss _ l + loss)%Q
                     ∧ loop_loss_count _ l' = loop_loss_count _ l + 1
              else loop_dqn _ l' = loop_dqn _ l
                   ∧ loop_total_loss _ l' = loop_total_loss _ l
                   ∧ loop_loss_count _ l' = loop_loss_count _ l
      end.
Proof.
  intros Hn (Hd & Hrb & Hrace & Hstate) Hr2. unfold loop_body.
  destruct (stuck_check sqrtf (loop_episode _ l)) as [w|] eqn:Hs.
  2: { unfold train_step. rewrite Hs. cbn [mbind option_bind].
       eexists _, _. split; [reflexivity|].
       cbn [loop_dqn loop_replay_buffer loop_episode loop_state
            loop_total_loss loop_loss_count].
       split; [exact (conj Hd (conj Hrb (conj Hrace Hstate)))|].
       by repeat split. }
  destruct (choose_action_defined (loop_dqn _ l) epsilon (rand_explore _ r)
              (rand_action _ r) (loop_state _ l) Hd Hstate Hr2)
    as (action & Hact & Harange).
  rewrite Hact. cbn [mbind option_bind].
  destruct (train_step_defined n (loop_episode _ l) action Hn Hrace)
    as (e' & ex & Hstep & Hrace').
  destruct (step_reward_spec _ _ action ex w Hs Hstep)
    as (reward & Hrew & Hsum & Hsteps & _ & Hex).
  subst ex. rewrite Hrew, Hstep. cbn [mbind option_bind].
  destruct (GetState_spec cos sin trackImage (position (train_vehicle e'))
              (angle (train_vehicle e')) (speed (train_vehicle e')))
    as (short & long & Hget & Ls & Ll & _).
  set (next_state := _ ++ short ++ long) in Hget.
  assert (Hnext : Z.of_nat (length next_state) = STATE_SIZE).
  { unfold next_state. rewrite !length_app, Ls, Ll. reflexivity. }
  rewrite Hget. cbn [mbind option_bind].
  set (done := raceFinished (train_race e')
               || (max_steps <=? episode_steps e')) in *.
  set (tr := ReplayBuffer.mkExperience (loop_state _ l) action reward
               next_state done).
  assert (Htr : transition_wf tr).
  { split; [exact Hstate|]. split; [exact Hnext|exact Harange]. }
  destruct (add_transition (loop_replay_buffer _ l) tr Hrb Htr)
    as (rb' & Hadd & Hrb' & Hbuf & Hsize).
  cbn [tr ReplayBuffer.state ReplayBuffer.action ReplayBuffer.reward
       ReplayBuffer.next_state ReplayBuffer.done] in Hadd.
  rewrite Hadd. cbn [mbind option_bind].
  rewrite can_sample_batch.
  destruct ((WARMUP_EPISODES <=? episode)
            && (BATCH_SIZE <=? ReplayBuffer.size rb')
            && (Z.rem (episode_steps e') TRAIN_EVERY_N_STEPS =? 0))
    eqn:Hgate.
  - assert (Hcan : ReplayBuffer.can_sample rb' BATCH_SIZE = true).
    { rewrite can_sample_batch.
      apply andb_prop in Hgate as [Hgate _].
      apply andb_prop in Hgate as [_ Hgate]. exact Hgate. }
    destruct (sampled_batch_wf (loop_dqn _ l) rb' (sample_seed _ r) Hd Hrb'
                Hcan) as (batch & Hsample & Hbatch).
    rewrite Hsample. cbn [mbind option_bind].
    destruct Hd as (Hwf & Hss & Has).
    destruct (train_outcome _ backward clip_grad_norm_ adam_step adam_step_wf
                (loop_dqn _ l) _ _ _ _ _ BATCH_SIZE Hwf Hbatch)
      as (loss & d' & Htrain & Hwf' & Hss' & Has' & _ & Hlr & Hpg & Hloss).
    rewrite Htrain. cbn [mbind option_bind].
    eexists _, _. split; [reflexivity|].
    cbn [loop_dqn loop_replay_buffer loop_episode loop_state
         loop_total_loss loop_loss_count].
    split.
    { split; [|exact (conj Hrb' (conj Hrace' Hnext))].
      split; [exact Hwf'|]. cbn [loop_dqn].
      split; [by rewrite Hss'|by rewrite Has']. }
    split; [exact Hlr|]. split; [exact Hpg|].
    exists tr. rewrite Hgate.
    repeat (split; [done|]). exists loss. by repeat split.
  - cbn [mbind option_bind].
    eexists _, _. split; [reflexivity|].
    cbn [loop_dqn loop_replay_buffer loop_episode loop_state
         loop_total_loss loop_loss_count].
    split; [exact (conj Hd (conj Hrb' (conj Hrace' Hnext)))|].
    split; [reflexivity|]. split; [reflexivity|].
    exists tr. rewrite Hgate.
    repeat (split; [done|]). by repeat split.
Qed.


(** One iteration in figures: what it counts, stores and learns. *)
Lemma loop_body_progress (n : nat) (episode : Z) (epsilon : Q)
    (l : Learning AdamState) (r : Draws Gen) :
  (2 ≤ n)%nat → learning_wf n l → 0 ≤ rand_action _ r →
  0 ≤ episode_steps (loop_episode _ l) →
  ∃ l' ex,
    loop_body cos sin sqrtf trackImage AdamState RAND_MAX Gen mt19937 backward
      clip_grad_norm_ adam_step episode epsilon l r = Some (l', ex)
    ∧ learning_wf n l'
    ∧ loop_progress episode l l'.
Proof.
  intros Hn Hl Hr2 Hsteps.
  destruct (loop_body_spec n episode epsilon l r Hn Hl Hr2)
    as (l' & ex & Hbody & Hl' & Hlr & Hpg & Hcase).
  exists l', ex. split; [exact Hbody|]. split; [exact Hl'|].
  split; [exact Hlr|]. split; [exact Hpg|].
  destruct Hl as (_ & (_ & Hsz & _) & _).
  destruct (stuck_check sqrtf (loop_episode _ l)) as [w|] eqn:Hs.
  - destruct Hcase as (tr & _ & _ & _ & _ & _ & _ & _ & Hst & _ & _ & _
                       & Hsize & Hgate).
    split; [lia|]. split; [rewrite Hsize, Hst; f_equal; lia|].
    destruct (Z.leb_spec WARMUP_EPISODES episode) as [Hw|Hw];
      destruct (Z.leb_spec BATCH_SIZE
                  (ReplayBuffer.size (loop_replay_buffer _ l'))) as [Hb|Hb];
      destruct (Z.eqb_spec (Z.rem (episode_steps (loop_episode _ l'))
                              TRAIN_EVERY_N_STEPS) 0) as [Hrem|Hrem];
      cbn [andb] in Hgate.
    1: { destruct Hgate as (loss & Hloss & Htl & Hlc).
         split; [lia|]. split.
         { intros H3.
           destruct (rem_zero_multiple (episode_steps (loop_episode _ l')) 3)
             as [mult Hmult]; [lia|lia|exact Hrem|]. lia. }
         split; [rewrite Htl; lra|]. intros [H|H]; lia. }
    all: destruct Hgate as (Hd & Htl & Hlc);
      (split; [lia|]); (split; [lia|]);
      (split; [rewrite Htl; apply Qle_refl|]); by intros _.
  - destruct Hcase as (_ & Hstep & Hd & Hrb & _ & Htl & Hlc).
    unfold train_step in Hstep. rewrite Hs in Hstep.
    injection Hstep as <-. cbn [episode_steps]. rewrite Hrb, Htl, Hlc.
    split; [lia|]. split; [lia|]. split; [lia|]. split; [lia|].
    split; [apply Qle_refl|]. by intros _.
Qed.

Lemma loop_progress_refl (n : nat) (episode : Z) (l : Learning AdamState) :
  learning_wf n l → loop_progress episode l l.
Proof.
  intros (_ & (_ & Hsz & _) & _).
  split; [reflexivity|]. split; [reflexivity|]. split; [lia|].
  split; [lia|]. split; [lia|]. split; [tauto|].
  split; [apply Qle_refl|]. by intros _.
Qed.

Lemma loop_progress_trans (n : nat) (episode : Z)
    (l l1 l' : Learning AdamState) :
  learning_wf n l1 →
  loop_progress episode l l1 → loop_progress episode l1 l' →
  loop_progress episode l l'.
Proof.
  intros (_ & (_ & Hsz1 & _) & _)
    (Hlr1 & Hpg1 & Hst1 & Hsz & Hlc1 & H31 & Htl1 & Hno1)
    (Hlr & Hpg & Hst & Hsz' & Hlc & H3 & Htl & Hno).
  split; [congruence|]. split; [congruence|]. split; [lia|].
  split; [lia|]. split; [lia|]. split; [tauto|].
  split; [eapply Qle_trans; eassumption|].
  intros Hcase.
  assert (Hcase1 : episode < WARMUP_EPISODES
                   ∨ ReplayBuffer.size (loop_replay_buffer _ l1)
                     < BATCH_SIZE).
  { destruct Hcase as [H|H]; [by left|right]. lia. }
  destruct (Hno Hcase) as (-> & -> & ->).
  exact (Hno1 Hcase1).
Qed.

(** The [while] loop of an episode returns, with its variables as the
    iterations leave them. *)
Lemma learning_loop_spec (n : nat) (episode : Z) (epsilon : Q)
    (draws : list (Draws Gen)) (l : Learning AdamState) :
  (2 ≤ n)%nat → learning_wf n l →
  Forall (λ r, 0 ≤ rand_action _ r) draws →
  0 ≤ episode_steps (loop_episode _ l) →
  ∃ l',
    learning_loop cos sin sqrtf trackImage AdamState RAND_MAX Gen mt19937
      backward clip_grad_norm_ adam_step episode epsilon draws l = Some l'
    ∧ learning_wf n l'
    ∧ loop_progress episode l l'.
Proof.
  intros Hn. revert l.
  induction draws as [|r rest IH]; intros l Hl Hdraws Hsteps;
    cbn [learning_loop].
  { exists l. split; [reflexivity|]. split; [exact Hl|].
    exact (loop_progress_refl n episode l Hl). }
  destruct (raceFinished (train_race (loop_episode _ l))
            || (max_steps <=? episode_steps (loop_episode _ l))).
  { exists l. split; [reflexivity|]. split; [exact Hl|].
    exact (loop_progress_refl n episode l Hl). }
  apply Forall_cons in Hdraws as [Hr Hrest].
  destruct (loop_body_progress n episode epsilon l r Hn Hl Hr Hsteps)
    as (l1 & ex & -> & Hl1 & Hp1).
  cbn [mbind option_bind].
  destruct ex.
  - destruct (IH l1 Hl1 Hrest) as (l' & -> & Hl' & Hp).
    { destruct Hp1 as (_ & _ & Hst & _). lia. }
    exists l'. split; [reflexivity|]. split; [exact Hl'|].
    exact (loop_progress_trans n episode l l1 l' Hl1 Hp1 Hp).
  - exists l1. split; [reflexivity|]. split; [exact Hl1|exact Hp1].
Qed.

(** The statements after the [while] loop leave the networks and the
    dimensions of the learner alone, and log the episode. *)
Lemma after_episode_learner (t : Trainer AdamState) (e : TrainEpisode)
    (total_loss : Q) (loss_count : Z) :
  DQN.policy_net_ _ (dqn _ (after_episode _ t e total_loss loss_count))
    = DQN.policy_net_ _ (dqn _ t)
  ∧ DQN.target_net_ _ (dqn _ (after_episode _ t e total_loss loss_count))
    = DQN.target_net_ _ (dqn _ t)
  ∧ DQN.state_size_ _ (dqn _ (after_episode _ t e total_loss loss_count))
    = DQN.state_size_ _ (dqn _ t)
  ∧ DQN.action_size_ _ (dqn _ (after_episode _ t e total_loss loss_count))
    = DQN.action_size_ _ (dqn _ t)
  ∧ episode_lengths (stats _ (after_episode _ t e total_loss loss_count))
    = episode_lengths (stats _ t) ++ [episode_steps e]
  ∧ episode_losses (stats _ (after_episode _ t e total_loss loss_count))
    = episode_losses (stats _ t)
      ++ [if 0 <? loss_count then (total_loss / inject_Z loss_count)%Q
          else 0%Q].
Proof.
  unfold after_episode, lr_schedule, with_dqn.
  destruct t as [d eps st bst once twice].
  cbn [dqn epsilon stats best lr_dropped_once lr_dropped_twice].
  destruct (raceFinished (train_race e) && negb once);
    cbn [dqn epsilon stats best lr_dropped_once lr_dropped_twice
         episode_finishes];
    repeat match goal with
    | |- context [if ?b then _ else _] =>
        lazymatch b with
        | 0 <? loss_count => fail
        | _ => destruct b
        end
    end;
    cbn [dqn stats episode_lengths episode_losses DQN.set_learning_rate
         DQN.policy_net_ DQN.target_net_ DQN.state_size_ DQN.action_size_];
    by repeat split.
Qed.

Lemma main_sized_same_nets (d d' : DQN.t AdamState) :
  DQN.policy_net_ _ d' = DQN.policy_net_ _ d →
  DQN.target_net_ _ d' = DQN.target_net_ _ d →
  DQN.state_size_ _ d' = DQN.state_size_ _ d →
  DQN.action_size_ _ d' = DQN.action_size_ _ d →
  main_sized d → main_sized d'.
Proof.
  unfold main_sized, dqn_wf. intros -> -> -> ->. tauto.
Qed.

(** An episode of [main] from its reset: the first observation has the
    size the check asks for, the loop returns, and the episode is
    logged. *)
Lemma learning_episode_spec (checkpointsTemplate : list Checkpoint)
    (episode : Z) (t : Trainer AdamState) (rb : ReplayBuffer.t)
    (draws : list (Draws Gen)) :
  (2 ≤ length checkpointsTemplate)%nat →
  main_sized (dqn _ t) → buffer_wf rb →
  Forall (λ r, 0 ≤ rand_action _ r) draws →
  ∃ state l,
    GetState cos sin trackImage (position vehicle_reset)
      (angle vehicle_reset) (speed vehicle_reset) = Some state
    ∧ learning_loop cos sin sqrtf trackImage AdamState RAND_MAX Gen mt19937
        backward clip_grad_norm_ adam_step episode (epsilon _ t) draws
        (mkLearning _ (dqn _ t) rb (train_reset checkpointsTemplate) state 0 0)
      = Some l
    ∧ learning_episode cos sin sqrtf trackImage AdamState RAND_MAX Gen mt19937
        backward clip_grad_norm_ adam_step checkpointsTemplate episode t rb
        draws
      = Some (after_episode _
                (mkTrainer _ (loop_dqn _ l) (epsilon _ t) (stats _ t)
                   (best _ t) (lr_dropped_once _ t) (lr_dropped_twice _ t))
                (loop_episode _ l) (loop_total_loss _ l) (loop_loss_count _ l),
              loop_replay_buffer _ l)
    ∧ learning_wf (length checkpointsTemplate) l
    ∧ loop_progress episode
        (mkLearning _ (dqn _ t) rb (train_reset checkpointsTemplate) state 0 0)
        l.
Proof.
  intros Hn Hd Hrb Hdraws. unfold learning_episode.
  cbn [train_reset train_vehicle].
  destruct (GetState_spec cos sin trackImage (position vehicle_reset)
              (angle vehicle_reset) (speed vehicle_reset))
    as (short & long & Hget & Ls & Ll & _).
  set (state := _ ++ short ++ long) in Hget.
  assert (Hstate : Z.of_nat (length state) = STATE_SIZE).
  { unfold state. rewrite !length_app, Ls, Ll. reflexivity. }
  rewrite Hget. cbn [mbind option_bind]. rewrite Hstate.
  change (negb (STATE_SIZE =? STATE_SIZE)) with false. cbv iota.
  destruct (learning_loop_spec (length checkpointsTemplate) episode
              (epsilon _ t) draws
              (mkLearning _ (dqn _ t) rb (train_reset checkpointsTemplate)
                 state 0 0) Hn)
    as (l & Hloop & Hl & Hp).
  { split; [exact Hd|]. split; [exact Hrb|].
    split; [by apply race_reset_inv|exact Hstate]. }
  { exact Hdraws. }
  { cbn. lia. }
  exists state, l. split; [reflexivity|].
  fold (train_reset checkpointsTemplate).
  split; [exact Hloop|]. rewrite Hloop. cbn [mbind option_bind].
  split; [reflexivity|]. split; [exact Hl|exact Hp].
Qed.


Lemma sumZ_nonneg (l : list Z) : Forall (λ n, 0 ≤ n) l → 0 ≤ sumZ l.
Proof.
  induction 1 as [|n l Hn _ IH]; unfold sumZ in *; simpl; lia.
Qed.

(** The episode loop of [main] returns, and keeps the learner and the
    buffer as the next episode needs them. *)
Lemma learning_run_spec (checkpointsTemplate : list Checkpoint)
    (episode : Z) (t : Trainer AdamState) (rb : ReplayBuffer.t)
    (draws : list (list (Draws Gen))) :
  (2 ≤ length checkpointsTemplate)%nat →
  main_sized (dqn _ t) → buffer_wf rb →
  Forall (Forall (λ r, 0 ≤ rand_action _ r)) draws →
  episode + Z.of_nat (length draws) ≤ INT_MAX →
  ∃ t' rb' lengths,
    learning_run cos sin sqrtf trackImage AdamState RAND_MAX Gen mt19937
      backward clip_grad_norm_ adam_step checkpointsTemplate episode t rb draws
      = Some (t', rb')
    ∧ main_sized (dqn _ t')
    ∧ buffer_wf rb'
    ∧ episode_lengths (stats _ t') = episode_lengths (stats _ t) ++ lengths
    ∧ length lengths = length draws
    ∧ Forall (λ n, 0 ≤ n) lengths
    ∧ ReplayBuffer.size rb'
      = Z.min (ReplayBuffer.size rb + sumZ lengths) REPLAY_BUFFER_SIZE.
Proof.
  intros Hn. revert episode t rb.
  induction draws as [|ds rest IH]; intros episode t rb Hd Hrb Hdraws Hep;
    cbn [learning_run].
  { exists t, rb, []. split; [reflexivity|]. split; [exact Hd|].
    split; [exact Hrb|]. rewrite app_nil_r. split; [reflexivity|].
    split; [reflexivity|]. split; [constructor|].
    destruct Hrb as (_ & Hsz & _). unfold sumZ. simpl. lia. }
  apply Forall_cons in Hdraws as [Hds Hrest].
  destruct (Z.leb_spec INT_MAX episode) as [Hmax|_].
  { cbn [length] in Hep. lia. }
  destruct (learning_episode_spec checkpointsTemplate episode t rb ds Hn Hd
              Hrb Hds)
    as (state & l & _ & _ & -> & (Hd1 & Hrb1 & _) & Hp).
  cbn [mbind option_bind].
  set (t1 := after_episode _ _ _ _ _).
  destruct (after_episode_learner
              (mkTrainer _ (loop_dqn _ l) (epsilon _ t) (stats _ t)
                 (best _ t) (lr_dropped_once _ t) (lr_dropped_twice _ t))
              (loop_episode _ l) (loop_total_loss _ l) (loop_loss_count _ l))
    as (Hpol & Htgt & Hss & Has & Hlen & _).
  fold t1 in Hpol, Htgt, Hss, Has, Hlen. cbn [dqn stats] in *.
  assert (Hd1' : main_sized (dqn _ t1)).
  { exact (main_sized_same_nets _ _ Hpol Htgt Hss Has Hd1). }
  destruct (IH (episode + 1) t1 (loop_replay_buffer _ l) Hd1' Hrb1 Hrest)
    as (t' & rb' & lengths & -> & Hd' & Hrb' & Hlens & Hcount & Hpos & Hsize).
  { cbn [length] in Hep. lia. }
  destruct Hp as (_ & _ & Hst & Hsz & _).
  cbn [loop_episode loop_replay_buffer train_reset episode_steps] in Hst, Hsz.
  exists t', rb', (episode_steps (loop_episode _ l) :: lengths).
  split; [reflexivity|]. split; [exact Hd'|]. split; [exact Hrb'|].
  split; [rewrite Hlens, Hlen, <- app_assoc; reflexivity|].
  split; [cbn [length]; by rewrite Hcount|].
  split; [by constructor|].
  pose proof (sumZ_nonneg lengths Hpos) as Hsum.
  rewrite Hsize, Hsz. unfold sumZ in *. cbn [foldr]. lia.
Qed.

(** X26. The episodes of [main] never throw.  From a learner of the
    dimensions of [main] and a replay buffer of capacity
    [REPLAY_BUFFER_SIZE] that holds transitions of these dimensions, every
    pass through the episode loop returns: [predict] gets [STATE_SIZE]
    values, the action switch one of its cases, [train] a well-formed batch
    of [BATCH_SIZE] transitions, and the size check of the first
    observation passes.  The learner keeps its dimensions and the buffer
    its capacity and the kind of its contents; each episode logs its
    length, and the buffer has gained one transition for each step counted,
    up to its capacity. *)
Theorem learning_run_defined (checkpointsTemplate : list Checkpoint)
    (episode : Z) (t : Trainer AdamState) (rb : ReplayBuffer.t)
    (draws : list (list (Draws Gen))) :
  (2 ≤ length checkpointsTemplate)%nat →
  main_sized (dqn _ t) → buffer_wf rb →
  Forall (Forall (λ r, 0 ≤ rand_action _ r)) draws →
  episode + Z.of_nat (length draws) ≤ INT_MAX →
  ∃ t' rb' lengths,
    learning_run cos sin sqrtf trackImage AdamState RAND_MAX Gen mt19937
      backward clip_grad_norm_ adam_step checkpointsTemplate episode t rb draws
      = Some (t', rb')
    ∧ main_sized (dqn _ t')
    ∧ buffer_wf rb'
    ∧ episode_lengths (stats _ t') = episode_lengths (stats _ t) ++ lengths
    ∧ length lengths = length draws
    ∧ Forall (λ n, 0 ≤ n) lengths
    ∧ ReplayBuffer.size rb'
      = Z.min (ReplayBuffer.size rb + sumZ lengths) REPLAY_BUFFER_SIZE.
Proof.
  intros Hn Hd Hrb Hdraws Hep.
  exact (learning_run_spec checkpointsTemplate episode t rb draws Hn Hd Hrb
           Hdraws Hep).
Qed.

(** X27. What one iteration of the [while] loop of [main] stores.  An
    iteration that counts a step appends one transition to the replay
    buffer, the oldest being dropped at capacity: the observation the
    action was chosen on, the action chosen, the reward the iteration adds
    to [episode_reward], the observation of the new vehicle (the one the
    next iteration chooses on), and [done], set exactly when the race is
    finished or [max_steps] is reached, which is when this iteration ends
    the loop.  An iteration that the stuck detector ends chooses no
    action, stores nothing and does not train: its penalty goes to the
    episode reward only. *)
Theorem iteration_stores_its_transition (n : nat) (episode : Z) (epsilon : Q)
    (l : Learning AdamState) (r : Draws Gen) :
  (2 ≤ n)%nat → learning_wf n l → 0 ≤ rand_action _ r →
  ∃ l' ex,
    loop_body cos sin sqrtf trackImage AdamState RAND_MAX Gen mt19937 backward
      clip_grad_norm_ adam_step episode epsilon l r = Some (l', ex)
    ∧ learning_wf n l'
    ∧ match stuck_check sqrtf (loop_episode _ l) with
      | None =>
          ex = Break
          ∧ loop_dqn _ l' = loop_dqn _ l
          ∧ loop_replay_buffer _ l' = loop_replay_buffer _ l
          ∧ loop_total_loss _ l' = loop_total_loss _ l
          ∧ loop_loss_count _ l' = loop_loss_count _ l
          ∧ episode_steps (loop_episode _ l')
            = episode_steps (loop_episode _ l)
          ∧ episode_reward (loop_episode _ l')
            = (episode_reward (loop_episode _ l) - STUCK_BREAK_PENALTY)%Q
      | Some _ =>
          ∃ tr,
            ReplayBuffer.buffer_ (loop_replay_buffer _ l')
            = drop (length (ReplayBuffer.buffer_ (loop_replay_buffer _ l))
                    + 1 - Z.to_nat REPLAY_BUFFER_SIZE)
                   (ReplayBuffer.buffer_ (loop_replay_buffer _ l) ++ [tr])
            ∧ ReplayBuffer.state tr = loop_state _ l
            ∧ choose_action _ RAND_MAX (loop_dqn _ l) epsilon
                (rand_explore _ r) (rand_action _ r) (loop_state _ l)
              = Some (ReplayBuffer.action tr)
            ∧ train_step cos sin sqrtf trackImage (loop_episode _ l)
                (ReplayBuffer.action tr) = Some (loop_episode _ l', ex)
            ∧ episode_reward (loop_episode _ l')
              = (episode_reward (loop_episode _ l) + ReplayBuffer.reward tr)%Q
            ∧ episode_steps (loop_episode _ l')
              = episode_steps (loop_episode _ l) + 1
            ∧ ReplayBuffer.next_state tr = loop_state _ l'
            ∧ GetState cos sin trackImage
                (position (train_vehicle (loop_episode _ l')))
                (angle (train_vehicle (loop_episode _ l')))
                (speed (train_vehicle (loop_episode _ l')))
              = Some (loop_state _ l')
            ∧ ReplayBuffer.done tr
              = raceFinished (train_race (loop_episode _ l'))
                || (max_steps <=? episode_steps (loop_episode _ l'))
            ∧ ex = (if ReplayBuffer.done tr then Break else Continue)
      end.
Proof.
  intros Hn Hl Hr2.
  destruct (loop_body_spec n episode epsilon l r Hn Hl Hr2)
    as (l' & ex & Hbody & Hl' & _ & _ & Hcase).
  exists l', ex. split; [exact Hbody|]. split; [exact Hl'|].
  destruct (stuck_check sqrtf (loop_episode _ l)) as [w|] eqn:Hs.
  - destruct Hcase as (tr & _ & H1 & H2 & H3 & H4 & H5 & H6 & H7 & H8 & H9
                       & H10 & _).
    exists tr. by repeat (split; [assumption|]).
  - destruct Hcase as (-> & Hstep & Hd & Hrb & _ & Htl & Hlc).
    unfold train_step in Hstep. rewrite Hs in Hstep.
    injection Hstep as <-. by repeat split.
Qed.

(** X28. When [main] learns.  The episode loop body returns; it makes at
    most one learning step for three steps counted, and none at all in an
    episode of the warm-up, nor in one that leaves fewer than [BATCH_SIZE]
    transitions in the buffer: then the two networks are as before the
    episode and the loss logged is 0.  The loss logged is never
    negative. *)
Theorem learning_steps_gated (checkpointsTemplate : list Checkpoint)
    (episode : Z) (t : Trainer AdamState) (rb : ReplayBuffer.t)
    (draws : list (Draws Gen)) :
  (2 ≤ length checkpointsTemplate)%nat →
  main_sized (dqn _ t) → buffer_wf rb →
  Forall (λ r, 0 ≤ rand_action _ r) draws →
  ∃ state l t' avg_loss,
    learning_loop cos sin sqrtf trackImage AdamState RAND_MAX Gen mt19937
      backward clip_grad_norm_ adam_step episode (epsilon _ t) draws
      (mkLearning _ (dqn _ t) rb (train_reset checkpointsTemplate) state 0 0)
      = Some l
    ∧ learning_episode cos sin sqrtf trackImage AdamState RAND_MAX Gen mt19937
        backward clip_grad_norm_ adam_step checkpointsTemplate episode t rb
        draws
      = Some (t', loop_replay_buffer _ l)
    ∧ 0 ≤ 3 * loop_loss_count _ l ≤ episode_steps (loop_episode _ l)
    ∧ episode_losses (stats _ t') = episode_losses (stats _ t) ++ [avg_loss]
    ∧ (0 <= avg_loss)%Q
    ∧ (episode < WARMUP_EPISODES
       ∨ ReplayBuffer.size (loop_replay_buffer _ l) < BATCH_SIZE →
       loop_loss_count _ l = 0
       ∧ avg_loss = 0%Q
       ∧ DQN.policy_net_ _ (dqn _ t') = DQN.policy_net_ _ (dqn _ t)
       ∧ DQN.target_net_ _ (dqn _ t') = DQN.target_net_ _ (dqn _ t)).
Proof.
  intros Hn Hd Hrb Hdraws.
  destruct (learning_episode_spec checkpointsTemplate episode t rb draws Hn Hd
              Hrb Hdraws)
    as (state & l & _ & Hloop & Hep & _ & Hp).
  destruct (after_episode_learner
              (mkTrainer _ (loop_dqn _ l) (epsilon _ t) (stats _ t)
                 (best _ t) (lr_dropped_once _ t) (lr_dropped_twice _ t))
              (loop_episode _ l) (loop_total_loss _ l) (loop_loss_count _ l))
    as (Hpol & Htgt & _ & _ & _ & Hloss).
  cbn [dqn stats] in Hpol, Htgt, Hloss.
  destruct Hp as (_ & _ & Hst & _ & Hlc & H3 & Htl & Hno).
  cbn [loop_dqn loop_episode loop_total_loss loop_loss_count train_reset
       episode_steps] in Hst, Hlc, H3, Htl, Hno.
  exists state, l,
    (after_episode _
       (mkTrainer _ (loop_dqn _ l) (epsilon _ t) (stats _ t) (best _ t)
          (lr_dropped_once _ t) (lr_dropped_twice _ t))
       (loop_episode _ l) (loop_total_loss _ l) (loop_loss_count _ l)),
    (if 0 <? loop_loss_count _ l
     then (loop_total_loss _ l / inject_Z (loop_loss_count _ l))%Q else 0%Q).
  split; [exact Hloop|]. split; [exact Hep|].
  split; [lia|]. split; [exact Hloss|]. split.
  { destruct (Z.ltb_spec 0 (loop_loss_count _ l)) as [Hpos|_];
      [|apply Qle_refl].
    apply Qle_shift_div_l.
    - rewrite <- (Zlt_Qlt 0). exact Hpos.
    - rewrite Qmult_0_l. exact Htl. }
  intros Hcase. destruct (Hno Hcase) as (Hd' & Hlc' & _).
  split; [exact Hlc'|]. split; [by rewrite Hlc'|].
  rewrite Hpol, Htgt, Hd'. by split.
Qed.

End Learner.
End LearningFacts.

(** ** The further properties on the concrete track and learner *)

Section ConcreteMore.
Import Trainer.

Lemma example_net_wf_main (seed : Z) : net_wf 23 7 (example_net 23 7 seed).
Proof.
  split; [reflexivity|].
  repeat (apply Forall_cons; split; [reflexivity|]). constructor.
Qed.

Lemma main_sized_dqn_wf : dqn_wf main_sized_dqn.
Proof.
  unfold dqn_wf, main_sized_dqn, STATE_SIZE, ACTION_SIZE.
  cbn [DQN.state_size_ DQN.action_size_ DQN.policy_net_ DQN.target_net_].
  split; [lia|]. split; [lia|]. split; apply example_net_wf_main.
Qed.

Lemma chosen_action_in_range_witness :
  ∃ state q_values g a,
    GetState example_cos example_sin example_image (mkVector2 430 92) 0 0
      = Some state
    ∧ DQN.predict _ main_sized_dqn state = Some q_values
    ∧ greedy_choice _ main_sized_dqn state = Some g
    ∧ 0 ≤ g < ACTION_SIZE
    ∧ (∃ m, q_values !! Z.to_nat g = Some m
         ∧ (∀ j q, q_values !! j = Some q → (q <= m)%Q)
         ∧ (∀ j q, q_values !! j = Some q → (j < Z.to_nat g)%nat →
              (q < m)%Q))
    ∧ choose_action _ 32767 main_sized_dqn 0.5 100 12 state = Some a
    ∧ 0 ≤ a < ACTION_SIZE.
Proof.
  apply (chosen_action_in_range unit 32767 example_cos example_sin
           example_image main_sized_dqn 0.5 100 12 (mkVector2 430 92) 0 0);
    [apply main_sized_dqn_wf|reflexivity|reflexivity|lia].
Defined.

Lemma vehicle_stays_off_walls_witness :
  Forall (λ e, off_wall example_image (position (train_vehicle e)))
    (train_states example_cos example_sin example_sqrtf example_image
       checkpointsTemplate throttle_actions)
  ∧ Forall (λ e, off_wall example_image (position (eval_vehicle e)))
      (eval_states example_cos example_sin example_image checkpointsTemplate
         DT max_steps throttle_actions)
  ∧ ∀ p, off_wall example_image p →
      (surface_friction example_image p = 1%Q
       ∨ surface_friction example_image p = 3%Q)
      ∧ Qltb 2 (surface_friction example_image p)
        = IsGrass (GetImageColor example_image (int_of_float (x p))
                     (int_of_float (y p))).
Proof.
  apply (vehicle_stays_off_walls example_cos example_sin example_sqrtf
           example_image checkpointsTemplate DT max_steps throttle_actions).
  split; reflexivity.
Defined.

Lemma checkpoints_flagged_in_order_witness :
  Forall (λ e, flags_in_order (train_race e))
    (train_states example_cos example_sin example_sqrtf example_image
       checkpointsTemplate throttle_actions)
  ∧ Forall (λ e, flags_in_order (eval_race e))
      (eval_states example_cos example_sin example_image checkpointsTemplate
         DT max_steps throttle_actions)
  ∧ ∀ race, flags_in_order race →
      nextCheckpoint race = 0 → 0 < currentLap race →
      forallb crossed (drop 1 (checkpoints race)) = true.
Proof.
  apply (checkpoints_flagged_in_order example_cos example_sin example_sqrtf
           example_image checkpointsTemplate DT max_steps throttle_actions).
  simpl. lia.
Defined.

Lemma race_finished_exactly_at_lap_three_witness :
  Forall (λ e, (currentLap (train_race e) = -1 ∨ currentLap (train_race e) = 1
                ∨ currentLap (train_race e) = 2
                ∨ currentLap (train_race e) = 3)
               ∧ (raceFinished (train_race e) = true
                  ↔ currentLap (train_race e) = 3))
    (train_states example_cos example_sin example_sqrtf example_image
       checkpointsTemplate throttle_actions)
  ∧ Forall (λ e, (currentLap (eval_race e) = -1 ∨ currentLap (eval_race e) = 1
                  ∨ currentLap (eval_race e) = 2
                  ∨ currentLap (eval_race e) = 3)
                 ∧ (raceFinished (eval_race e) = true
                    ↔ currentLap (eval_race e) = 3))
      (eval_states example_cos example_sin example_image checkpointsTemplate
         DT max_steps throttle_actions)
  ∧ ∀ e, e ∈ train_states example_cos example_sin example_sqrtf example_image
               checkpointsTemplate throttle_actions →
      ∃ laps finished,
        episode_laps (stats _ (after_episode _ example_trainer e 0 0))
        = episode_laps (stats _ example_trainer) ++ [laps]
        ∧ episode_finishes (stats _ (after_episode _ example_trainer e 0 0))
          = episode_finishes (stats _ example_trainer) ++ [finished]
        ∧ ((finished = 1 ∧ laps = 3) ∨ (finished = 0 ∧ laps ≠ 3)).
Proof.
  apply (race_finished_exactly_at_lap_three example_cos example_sin
           example_sqrtf example_image unit checkpointsTemplate DT max_steps
           throttle_actions example_trainer 0 0).
  simpl. lia.
Defined.

Lemma evaluation_episode_ends_witness :
  ∃ e, eval_loop example_cos example_sin example_image (λ _, 0)
         (Z.to_nat 5) DT 5 (eval_reset checkpointsTemplate) = Some e
    ∧ (raceFinished (eval_race e) = true ∨ 5 ≤ steps e)
    ∧ 0 ≤ steps e ≤ Z.max 0 5
    ∧ 0 ≤ wallHits e ≤ steps e
    ∧ 0 ≤ grassFrames e ≤ steps e
    ∧ (raceFinished (eval_race e) = true ↔ currentLap (eval_race e) = 3)
    ∧ (- inject_Z (251 * steps e) <= episode_score e)%Q
    ∧ (episode_score e <= 100000 - inject_Z (steps e))%Q
    ∧ (raceFinished (eval_race e) = false →
       (episode_score e <= - inject_Z (steps e))%Q).
Proof.
  apply (evaluation_episode_ends example_cos example_sin example_image
           (λ _, 0) checkpointsTemplate DT 5).
  simpl. lia.
Defined.

Lemma EvaluateGreedy_repeats_one_episode_witness :
  ∃ e eval,
    eval_loop example_cos example_sin example_image (λ _, 0) (Z.to_nat 5) DT 5
      (eval_reset checkpointsTemplate) = Some e
    ∧ EvaluateGreedy example_cos example_sin example_image (λ _, 0)
        checkpointsTemplate 20 5 DT = Some eval
    ∧ episodes eval = 20
    ∧ (1 ≤ 20 →
       finishes eval = (if raceFinished (eval_race e) then 20 else 0)
       ∧ (finish_rate eval == if raceFinished (eval_race e) then 1 else 0)%Q
       ∧ (avg_laps eval == inject_Z (currentLap (eval_race e)))%Q
       ∧ (avg_steps_finish eval
          == if raceFinished (eval_race e) then inject_Z (steps e) else 0)%Q
       ∧ (avg_steps_all eval == inject_Z (steps e))%Q
       ∧ (avg_wall_hits eval == inject_Z (wallHits e))%Q
       ∧ (avg_grass_frames eval == inject_Z (grassFrames e))%Q
       ∧ (avg_score eval == episode_score e)%Q)
    ∧ (20 ≤ 0 → eval = mkEvalResult 20 0 0 0 0 0 0 0 0).
Proof.
  apply (EvaluateGreedy_repeats_one_episode example_cos example_sin
           example_image (λ _, 0) checkpointsTemplate 20 5 DT).
  simpl. lia.
Defined.

Lemma best_records_only_improve_witness :
  ∃ eval,
    EvaluateGreedy example_cos example_sin example_image (λ _, 0)
      checkpointsTemplate EVAL_EPISODES max_steps DT = Some eval
    ∧ ∀ best,
        (if saved_finish_rate (snd (select_best best eval))
         then best_finish_rate (fst (select_best best eval)) = finish_rate eval
              ∧ (best_finish_rate best < finish_rate eval)%Q
         else best_finish_rate (fst (select_best best eval))
              = best_finish_rate best)
        ∧ (if saved_time (snd (select_best best eval))
           then best_time_avg_steps_finish (fst (select_best best eval))
                = avg_steps_finish eval
                ∧ (avg_steps_finish eval < best_time_avg_steps_finish best)%Q
                ∧ 0 < finishes eval
           else best_time_avg_steps_finish (fst (select_best best eval))
                = best_time_avg_steps_finish best)
        ∧ (if saved_score (snd (select_best best eval))
           then best_score (fst (select_best best eval)) = avg_score eval
                ∧ (best_score best < avg_score eval)%Q
           else best_score (fst (select_best best eval)) = best_score best).
Proof.
  apply (best_records_only_improve example_cos example_sin example_image
           (λ _, 0) checkpointsTemplate).
  simpl. lia.
Defined.

Lemma epsilon_decays_to_its_floor_witness :
  ∃ t',
    run unit example_backward example_clip example_adam_step example_trainer
      [([], finished_episode); ([], finished_episode)] = Some t'
    ∧ (EPSILON_END <= epsilon _ t' <= epsilon _ example_trainer)%Q
    ∧ (epsilon _ t'
       == Qmax EPSILON_END
            (epsilon _ example_trainer * EPSILON_DECAY ^ Z.of_nat 2))%Q.
Proof.
  eexists. split; [reflexivity|].
  apply (epsilon_decays_to_its_floor unit example_backward example_clip
           example_adam_step example_trainer _
           [([], finished_episode); ([], finished_episode)]).
  - unfold Qle. simpl. lia.
  - reflexivity.
Defined.

Lemma learning_rate_follows_the_flags_witness :
  ∃ t0 t,
    main_setup unit tt (example_net 2 3 3) (example_net 2 3 4)
      (DQN.torch_save (example_net 2 3 1) "models/best_time.pt" ∅) = Some t0
    ∧ run unit example_backward example_clip example_adam_step t0
        [([], finished_episode)] = Some t
    ∧ lr_by_flags t
    ∧ (DQN.get_learning_rate _ (dqn _ t) = 1e-4%Q
       ∨ DQN.get_learning_rate _ (dqn _ t) = 3e-4%Q).
Proof.
  destruct (main_setup unit tt (example_net 2 3 3) (example_net 2 3 4)
              (DQN.torch_save (example_net 2 3 1) "models/best_time.pt" ∅))
    as [t0|] eqn:H0; [|vm_compute in H0; discriminate H0].
  destruct (run unit example_backward example_clip example_adam_step t0
              [([], finished_episode)]) as [t|] eqn:Hr;
    [|simpl in Hr; discriminate Hr].
  exists t0, t. split; [reflexivity|]. split; [exact Hr|].
  exact (learning_rate_follows_the_flags unit example_backward example_clip
           example_adam_step tt (example_net 2 3 3) (example_net 2 3 4)
           (DQN.torch_save (example_net 2 3 1) "models/best_time.pt" ∅)
           t0 t [([], finished_episode)] H0 Hr).
Defined.

Lemma main_sized_dqn_sized : main_sized main_sized_dqn.
Proof. split; [exact main_sized_dqn_wf|]. by split. Qed.

Lemma empty_buffer_wf : buffer_wf (ReplayBuffer.mk REPLAY_BUFFER_SIZE []).
Proof.
  split; [reflexivity|]. split; [|constructor].
  unfold ReplayBuffer.size, REPLAY_BUFFER_SIZE. simpl. lia.
Qed.

Lemma learning_run_defined_witness :
  ∃ t' rb' lengths,
    learning_run example_cos example_sin example_sqrtf example_image unit
      32767 Z counter_gen example_backward example_clip example_adam_step
      checkpointsTemplate 1 main_sized_trainer
      (ReplayBuffer.mk REPLAY_BUFFER_SIZE [])
      [[mkDraws Z 100 12 0; mkDraws Z 20000 3 1]; [mkDraws Z 5 6 2]]
      = Some (t', rb')
    ∧ main_sized (dqn _ t')
    ∧ buffer_wf rb'
    ∧ episode_lengths (stats _ t')
      = episode_lengths (stats _ main_sized_trainer) ++ lengths
    ∧ length lengths = 2%nat
    ∧ Forall (λ n, 0 ≤ n) lengths
    ∧ ReplayBuffer.size rb'
      = Z.min (ReplayBuffer.size (ReplayBuffer.mk REPLAY_BUFFER_SIZE [])
               + sumZ lengths) REPLAY_BUFFER_SIZE.
Proof.
  apply (learning_run_defined example_cos example_sin example_sqrtf
           example_image unit 32767 Z counter_gen example_backward
           example_clip example_adam_step example_adam_step_wf
           checkpointsTemplate 1 main_sized_trainer
           (ReplayBuffer.mk REPLAY_BUFFER_SIZE [])
           [[mkDraws Z 100 12 0; mkDraws Z 20000 3 1]; [mkDraws Z 5 6 2]]).
  - simpl. lia.
  - exact main_sized_dqn_sized.
  - exact empty_buffer_wf.
  - repeat constructor; simpl; lia.
  - unfold INT_MAX. simpl. lia.
Defined.

Lemma iteration_stores_its_transition_witness :
  ∃ l' ex,
    loop_body example_cos example_sin example_sqrtf example_image unit 32767
      Z counter_gen example_backward example_clip example_adam_step 5 0.5
      (mkLearning unit main_sized_dqn (ReplayBuffer.mk REPLAY_BUFFER_SIZE [])
         (train_reset checkpointsTemplate) (replicate 23 0%Q) 0 0)
      (mkDraws Z 100 12 0) = Some (l', ex)
    ∧ learning_wf 8 l'
    ∧ match stuck_check example_sqrtf
              (loop_episode _
                 (mkLearning unit main_sized_dqn
                    (ReplayBuffer.mk REPLAY_BUFFER_SIZE [])
                    (train_reset checkpointsTemplate) (replicate 23 0%Q) 0 0))
      with
      | None =>
          ex = Break
          ∧ loop_dqn _ l' = main_sized_dqn
          ∧ loop_replay_buffer _ l' = ReplayBuffer.mk REPLAY_BUFFER_SIZE []
          ∧ loop_total_loss _ l' = 0%Q
          ∧ loop_loss_count _ l' = 0
          ∧ episode_steps (loop_episode _ l')
            = episode_steps (train_reset checkpointsTemplate)
          ∧ episode_reward (loop_episode _ l')
            = (episode_reward (train_reset checkpointsTemplate)
               - STUCK_BREAK_PENALTY)%Q
      | Some _ =>
          ∃ tr,
            ReplayBuffer.buffer_ (loop_replay_buffer _ l')
            = drop (length (A := ReplayBuffer.Experience) [] + 1
                    - Z.to_nat REPLAY_BUFFER_SIZE) ([] ++ [tr])
            ∧ ReplayBuffer.state tr = replicate 23 0%Q
            ∧ choose_action _ 32767 main_sized_dqn 0.5 100 12
                (replicate 23 0%Q) = Some (ReplayBuffer.action tr)
            ∧ train_step example_cos example_sin example_sqrtf example_image
                (train_reset checkpointsTemplate) (ReplayBuffer.action tr)
              = Some (loop_episode _ l', ex)
            ∧ episode_reward (loop_episode _ l')
              = (episode_reward (train_reset checkpointsTemplate)
                 + ReplayBuffer.reward tr)%Q
            ∧ episode_steps (loop_episode _ l')
              = episode_steps (train_reset checkpointsTemplate) + 1
            ∧ ReplayBuffer.next_state tr = loop_state _ l'
            ∧ GetState example_cos example_sin example_image
                (position (train_vehicle (loop_episode _ l')))
                (angle (train_vehicle (loop_episode _ l')))
                (speed (train_vehicle (loop_episode _ l')))
              = Some (loop_state _ l')
            ∧ ReplayBuffer.done tr
              = raceFinished (train_race (loop_episode _ l'))
                || (max_steps <=? episode_steps (loop_episode _ l'))
            ∧ ex = (if ReplayBuffer.done tr then Break else Continue)
      end.
Proof.
  apply (iteration_stores_its_transition example_cos example_sin
           example_sqrtf example_image unit 32767 Z counter_gen
           example_backward example_clip example_adam_step
           example_adam_step_wf 8 5 0.5
           (mkLearning unit main_sized_dqn
              (ReplayBuffer.mk REPLAY_BUFFER_SIZE [])
              (train_reset checkpointsTemplate) (replicate 23 0%Q) 0 0)
           (mkDraws Z 100 12 0)).
  - lia.
  - split; [exact main_sized_dqn_sized|]. split; [exact empty_buffer_wf|].
    split; [|reflexivity].
    apply (race_reset_inv checkpointsTemplate). simpl. lia.
  - simpl. lia.
Defined.

Lemma learning_steps_gated_witness :
  ∃ state l t' avg_loss,
    learning_loop example_cos example_sin example_sqrtf example_image unit
      32767 Z counter_gen example_backward example_clip example_adam_step 1
      (epsilon _ main_sized_trainer) [mkDraws Z 100 12 0; mkDraws Z 20000 3 1]
      (mkLearning _ (dqn _ main_sized_trainer)
         (ReplayBuffer.mk REPLAY_BUFFER_SIZE [])
         (train_reset checkpointsTemplate) state 0 0)
      = Some l
    ∧ learning_episode example_cos example_sin example_sqrtf example_image
        unit 32767 Z counter_gen example_backward example_clip
        example_adam_step checkpointsTemplate 1 main_sized_trainer
        (ReplayBuffer.mk REPLAY_BUFFER_SIZE [])
        [mkDraws Z 100 12 0; mkDraws Z 20000 3 1]
      = Some (t', loop_replay_buffer _ l)
    ∧ 0 ≤ 3 * loop_loss_count _ l ≤ episode_steps (loop_episode _ l)
    ∧ episode_losses (stats _ t')
      = episode_losses (stats _ main_sized_trainer) ++ [avg_loss]
    ∧ (0 <= avg_loss)%Q
    ∧ (1 < WARMUP_EPISODES
       ∨ ReplayBuffer.size (loop_replay_buffer _ l) < BATCH_SIZE →
       loop_loss_count _ l = 0
       ∧ avg_loss = 0%Q
       ∧ DQN.policy_net_ _ (dqn _ t')
         = DQN.policy_net_ _ (dqn _ main_sized_trainer)
       ∧ DQN.target_net_ _ (dqn _ t')
         = DQN.target_net_ _ (dqn _ main_sized_trainer)).
Proof.
  apply (learning_steps_gated example_cos example_sin example_sqrtf
           example_image unit 32767 Z counter_gen example_backward
           example_clip example_adam_step example_adam_step_wf
           checkpointsTemplate 1 main_sized_trainer
           (ReplayBuffer.mk REPLAY_BUFFER_SIZE [])
           [mkDraws Z 100 12 0; mkDraws Z 20000 3 1]).
  - simpl. lia.
  - exact main_sized_dqn_sized.
  - exact empty_buffer_wf.
  - repeat constructor; simpl; lia.
Defined.

End ConcreteMore.
